(** * soroban-rpc: the event index, retention trimming, the event-table
      migration and the transaction lookup

    A shallow embedding of [cmd/soroban-rpc/internal/db/event.go] together
    with the collaborators it calls (the XDR data it reads, the ledger
    transaction reader of the ingest package, the SQL session), followed by
    a model of the [getTransaction] method that
    [internal/methods/get_transaction_test.go] exercises. A call ends by
    returning or by a panic; both are outcomes of the functions below. *)

From Stdlib Require Import ZArith List Bool Ascii String Lia.
From stdpp Require Import base option list strings gmap pretty.

Local Open Scope Z_scope.

(** ** Unsigned 32-bit arithmetic (Go's [uint32]) *)

Module U32.

Definition modulus : Z := 2 ^ 32.

Definition wrap (z : Z) : Z := z mod modulus.

Definition add (a b : Z) : Z := wrap (a + b).

Definition sub (a b : Z) : Z := wrap (a - b).

Definition in_range (z : Z) : Prop := 0 <= z < modulus.

End U32.

(** ** How a call ends

    A Go call returns or panics. Nothing in the code below recovers from a
    panic, so a panic in a callee ends every caller on the stack: each
    function passes it on as it is. *)

Inductive panic :=
  | NilPointerDereference
  | TransactionMetaUnavailable.

Inductive outcome (A : Type) :=
  | Return (a : A)
  | Panic (p : panic).

Arguments Return {A} a.
Arguments Panic {A} p.

(** ** The XDR values the code inspects ([github.com/stellar/go/xdr])

    Only the fields read by the code are kept; every other part of a value
    is carried as an opaque byte string. *)

Module xdr.

(** [xdr.Hash] is a 32-byte array. *)
Definition Hash : Type := string.

Record ContractEvent := {
  ContractId : option Hash;
  Type_ : Z;
  Body : string
}.

Record DiagnosticEvent := {
  InSuccessfulContractCall : bool;
  Event : ContractEvent
}.

Definition ContractEventTypeSystem : Z := 0.
Definition ContractEventTypeContract : Z := 1.
Definition ContractEventTypeDiagnostic : Z := 2.

Definition TransactionResultCodeTxFeeBumpInnerSuccess : Z := 1.
Definition TransactionResultCodeTxSuccess : Z := 0.
Definition TransactionResultCodeTxBadSeq : Z := -5.

Record TransactionResult := {
  FeeCharged : Z;
  Code : Z
}.

Record TransactionResultPair := {
  TransactionHash : Hash;
  Result : TransactionResult
}.

(** [TransactionResultPair.Successful]: the result code is [txSUCCESS] or
    [txFEE_BUMP_INNER_SUCCESS]. *)
Definition Successful (r : TransactionResultPair) : bool :=
  (Code (Result r) =? TransactionResultCodeTxSuccess)
  || (Code (Result r) =? TransactionResultCodeTxFeeBumpInnerSuccess).

Record SorobanTransactionMeta := {
  Events : list ContractEvent;
  DiagnosticEvents : list DiagnosticEvent
}.

Record TransactionMeta := {
  V : Z;
  SorobanMeta : option SorobanTransactionMeta;
  MetaBody : string
}.

(** [TransactionMeta.GetDiagnosticEvents]: versions 1 and 2 carry no
    events; version 3 yields the diagnostic events when there are some and
    otherwise the contract events wrapped as diagnostic events; any other
    version is an error ([None]). *)
Definition GetDiagnosticEvents (t : TransactionMeta) : option (list DiagnosticEvent) :=
  if (V t =? 1) || (V t =? 2) then Some []
  else if V t =? 3 then
    match SorobanMeta t with
    | None => Some []
    | Some sorobanMeta =>
        match DiagnosticEvents sorobanMeta with
        | _ :: _ => Some (DiagnosticEvents sorobanMeta)
        | [] =>
            Some (map (fun event =>
                         {| InSuccessfulContractCall := true; Event := event |})
                      (Events sorobanMeta))
        end
    end
  else None.

Definition EnvelopeTypeEnvelopeTypeTx : Z := 2.
Definition EnvelopeTypeEnvelopeTypeTxFeeBump : Z := 5.

Record TransactionEnvelope := {
  EnvelopeType : Z;
  EnvelopeBody : string
}.

Record TransactionResultMeta := {
  TxResult : TransactionResultPair;
  TxApplyProcessing : TransactionMeta
}.

(** A version-1 ledger close meta: header fields, the transaction set and
    the per-transaction processing results in apply order. *)
Record LedgerCloseMeta := {
  LedgerSeq : Z;
  CloseTime : Z;
  TxSet : list TransactionEnvelope;
  TxProcessing : list TransactionResultMeta
}.

Definition LedgerSequence (l : LedgerCloseMeta) : Z := LedgerSeq l.

Definition LedgerCloseTime (l : LedgerCloseMeta) : Z := CloseTime l.

Definition CountTransactions (l : LedgerCloseMeta) : Z :=
  Z.of_nat (length (TxProcessing l)).

End xdr.

(** ** The ledger transaction reader ([github.com/stellar/go/ingest]) *)

Module ingest.
Import xdr.

Inductive error :=
  | EOF
  | ErrHashEnvelope
  | ErrUnknownTxHash (hash : Hash).

Record LedgerTransaction := {
  Index : Z;
  Envelope : TransactionEnvelope;
  Result : TransactionResultPair;
  UnsafeMeta : TransactionMeta
}.

Definition GetDiagnosticEvents (t : LedgerTransaction) : option (list DiagnosticEvent) :=
  xdr.GetDiagnosticEvents (UnsafeMeta t).

Record LedgerTransactionReader := {
  lcm : LedgerCloseMeta;
  envelopesByHash : list (Hash * TransactionEnvelope);
  readIdx : Z
}.

Fixpoint lookupEnvelope (m : list (Hash * TransactionEnvelope)) (h : Hash)
  : option TransactionEnvelope :=
  match m with
  | [] => None
  | (k, e) :: m' => if String.eqb k h then Some e else lookupEnvelope m' h
  end.

Section Network.

(** [network.HashTransactionInEnvelope envelope passphrase]: the
    transaction hash, or [None] when hashing fails. *)
Variable HashTransactionInEnvelope : TransactionEnvelope -> string -> option Hash.

(** [storeTransactions]: index the envelopes of the transaction set by
    their hash; a later envelope with the same hash replaces an earlier one. *)
Fixpoint storeTransactions (passphrase : string) (txs : list TransactionEnvelope)
    (acc : list (Hash * TransactionEnvelope))
  : option (list (Hash * TransactionEnvelope)) :=
  match txs with
  | [] => Some acc
  | tx :: txs' =>
      match HashTransactionInEnvelope tx passphrase with
      | None => None
      | Some h => storeTransactions passphrase txs' ((h, tx) :: acc)
      end
  end.

Definition NewLedgerTransactionReaderFromLedgerCloseMeta
    (passphrase : string) (l : LedgerCloseMeta)
  : error + LedgerTransactionReader :=
  match storeTransactions passphrase (TxSet l) [] with
  | None => inl ErrHashEnvelope
  | Some m => inr {| lcm := l; envelopesByHash := m; readIdx := 0 |}
  end.

End Network.

(** [Read]: the next transaction in apply order, numbered from 1; [EOF]
    once every transaction was returned. The read position advances also
    when the envelope is unknown. The meta of the transaction is fetched
    with [LedgerCloseMeta.TxApplyProcessing], which on a version-1 ledger
    close meta panics unless the meta has version 3; the envelope is
    looked up before. *)
Definition Read (reader : LedgerTransactionReader)
  : outcome (error + LedgerTransaction) * LedgerTransactionReader :=
  if CountTransactions (lcm reader) <=? readIdx reader then (Return (inl EOF), reader)
  else
    let i := readIdx reader in
    let reader' := {| lcm := lcm reader;
                      envelopesByHash := envelopesByHash reader;
                      readIdx := i + 1 |} in
    match nth_error (TxProcessing (lcm reader)) (Z.to_nat i) with
    | None => (Return (inl EOF), reader)
    | Some p =>
        let hash := TransactionHash (TxResult p) in
        match lookupEnvelope (envelopesByHash reader) hash with
        | None => (Return (inl (ErrUnknownTxHash hash)), reader')
        | Some envelope =>
            if V (TxApplyProcessing p) =? 3
            then (Return (inr {| Index := U32.wrap (i + 1);
                                 Envelope := envelope;
                                 Result := TxResult p;
                                 UnsafeMeta := TxApplyProcessing p |}), reader')
            else (Panic TransactionMetaUnavailable, reader')
        end
    end.

(** [Seek]: position the reader on the 0-based transaction [index]. *)
Definition Seek (reader : LedgerTransactionReader) (index : Z)
  : option error * LedgerTransactionReader :=
  if (CountTransactions (lcm reader) <=? index) || (index <? 0) then (Some EOF, reader)
  else (None, {| lcm := lcm reader;
                 envelopesByHash := envelopesByHash reader;
                 readIdx := index |}).

End ingest.

(** ** The event index ([internal/db/event.go]) *)

Module db.
Import xdr.

Definition eventTableName : string := "events".

Definition ledgerCloseMetaTableName : string := "ledger_close_meta".

Definition firstLedger : Z := 2.

Inductive error :=
  | ErrNoStmtCache
  | ErrOpenReader (ledger : Z) (cause : ingest.error)
  | ErrRead (cause : ingest.error)
  | ErrDiagnosticEvents
  | ErrExec
  | ErrSelect
  | ErrCreateReader (cause : ingest.error)
  | ErrSeek (txIndex ledger : Z) (cause : ingest.error)
  | ErrReadTx (cause : ingest.error)
  | ErrEncodeDiagnosticEvents.

(** A row of the [events] table. *)
Record EventRow := {
  ledger_sequence : Z;
  application_order : Z;
  contract_id : option Hash;
  event_type : Z
}.

(** The SQL session: the two tables the event code touches, and a script
    of the outcomes of the statements still to be executed ([true]: the
    driver reports an error; an exhausted script means no error). *)
Record Session := {
  events : list EventRow;
  ledger_close_meta : list (Z * LedgerCloseMeta);
  io_script : list bool
}.

Definition nextFails (s : Session) : bool :=
  match io_script s with
  | b :: _ => b
  | [] => false
  end.

Definition tick (s : Session) : Session :=
  {| events := events s;
     ledger_close_meta := ledger_close_meta s;
     io_script := tl (io_script s) |}.

Definition setEvents (s : Session) (rows : list EventRow) : Session :=
  {| events := rows;
     ledger_close_meta := ledger_close_meta s;
     io_script := io_script s |}.

Inductive StmtCache := NewStmtCache.

Inductive Logger := DefaultLogger.

Inductive SessionInterface := DBSession.

Inductive Observer := NoopObserver.

Record eventHandler := {
  log : Logger;
  db : SessionInterface;
  stmtCache : option StmtCache;
  passphrase : string;
  ingestMetric : option Observer;
  countMetric : option Observer
}.

Definition NewEventReader (log : Logger) (db : SessionInterface) (passphrase : string)
  : eventHandler :=
  {| log := log; db := db; stmtCache := None; passphrase := passphrase;
     ingestMetric := None; countMetric := None |}.

(** [INSERT INTO events (...) VALUES ...] run with the statement cache.
    The builder gets the cache as a [*sq.StmtCache] inside an interface: a
    nil cache is a non-nil interface value, the builder's check for a
    missing runner lets it through, and the [Exec] method of the cache
    dereferences the nil pointer before any statement reaches the driver. *)
Definition execInsert (runner : option StmtCache) (rows : list EventRow) (s : Session)
  : outcome (option error) * Session :=
  match runner with
  | None => (Panic NilPointerDereference, s)
  | Some _ =>
      if nextFails s then (Return (Some ErrExec), tick s)
      else (Return None, setEvents (tick s) (events s ++ rows))
  end.

(** [DELETE FROM events WHERE ledger_sequence < cutoff], run with the
    statement cache in the same way. *)
Definition execDeleteLt (runner : option StmtCache) (cutoff : Z) (s : Session)
  : outcome (option error) * Session :=
  match runner with
  | None => (Panic NilPointerDereference, s)
  | Some _ =>
      if nextFails s then (Return (Some ErrExec), tick s)
      else (Return None, setEvents (tick s)
                           (List.filter (fun r => negb (ledger_sequence r <? cutoff)) (events s)))
  end.

(** The [VALUES] tuples built for one transaction. *)
Definition valuesOf (l : LedgerCloseMeta) (tx : ingest.LedgerTransaction)
    (txEvents : list DiagnosticEvent) : list EventRow :=
  map (fun e =>
         {| ledger_sequence := LedgerSequence l;
            application_order := ingest.Index tx;
            contract_id := ContractId (Event e);
            event_type := Type_ (Event e) |})
      txEvents.

(** The [for] loop of [InsertEvents]; [None] when [fuel] iterations did
    not reach the end of the ledger. *)
Fixpoint insertLoop (fuel : nat) (h : eventHandler) (l : LedgerCloseMeta)
    (txReader : ingest.LedgerTransactionReader) (s : Session)
  : option (outcome (option error) * Session) :=
  match fuel with
  | O => None
  | S fuel' =>
      match ingest.Read txReader with
      | (Panic p, _) => Some (Panic p, s)
      | (Return (inl ingest.EOF), _) => Some (Return None, s)
      | (Return (inl err), _) => Some (Return (Some (ErrRead err)), s)
      | (Return (inr tx), txReader') =>
          if negb (Successful (ingest.Result tx)) then insertLoop fuel' h l txReader' s
          else
            match ingest.GetDiagnosticEvents tx with
            | None => Some (Return (Some ErrDiagnosticEvents), s)
            | Some txEvents =>
                if (length txEvents =? 0)%nat then insertLoop fuel' h l txReader' s
                else
                  match execInsert (stmtCache h) (valuesOf l tx txEvents) s with
                  | (Panic p, s') => Some (Panic p, s')
                  | (Return (Some err), s') => Some (Return (Some err), s')
                  | (Return None, s') => insertLoop fuel' h l txReader' s'
                  end
            end
      end
  end.

Section Network.

Variable HashTransactionInEnvelope : TransactionEnvelope -> string -> option Hash.

(** [InsertEvents]; the loop gets one iteration per transaction and one
    more for the end of the ledger. The deferred [Close] of the reader
    assigns a local variable only and has no part in the result. *)
Definition InsertEvents (h : eventHandler) (l : LedgerCloseMeta) (s : Session)
  : option (outcome (option error) * Session) :=
  let txCount := CountTransactions l in
  match stmtCache h with
  | None => Some (Return (Some ErrNoStmtCache), s)
  | Some _ =>
      if txCount =? 0 then Some (Return None, s)
      else
        match ingest.NewLedgerTransactionReaderFromLedgerCloseMeta
                HashTransactionInEnvelope (passphrase h) l with
        | inl err => Some (Return (Some (ErrOpenReader (LedgerSequence l) err)), s)
        | inr txReader => insertLoop (S (Z.to_nat txCount)) h l txReader s
        end
  end.

End Network.

(** [trimEvents] removes all events which fall outside the ledger
    retention window. Unlike [InsertEvents] it does not look at the
    statement cache before it runs the statement with it. *)
Definition trimEvents (h : eventHandler) (latestLedgerSeq retentionWindow : Z) (s : Session)
  : outcome (option error) * Session :=
  if U32.add latestLedgerSeq 1 <=? retentionWindow then (Return None, s)
  else
    let cutoff := U32.sub (U32.add latestLedgerSeq 1) retentionWindow in
    execDeleteLt (stmtCache h) cutoff s.

Record Cursor := {
  Ledger : Z;
  Tx : Z;
  Event : Z
}.

Record CursorRange := {
  Start : Cursor;
  End_ : Cursor
}.

(** Modelled from the spec: [Cursor.Cmp] lives in [internal/db/cursor.go],
    which is not among the sources; the spec gives it as the lexicographic
    comparison of the three fields, with results -1, 0 and 1. *)
Definition Cmp (a b : Cursor) : Z :=
  if Ledger a <? Ledger b then -1
  else if Ledger b <? Ledger a then 1
  else if Tx a <? Tx b then -1
  else if Tx b <? Tx a then 1
  else if Event a <? Event b then -1
  else if Event b <? Event a then 1
  else 0.

(** One invocation of the visitor. *)
Record VisitorCall := {
  call_event : DiagnosticEvent;
  call_cursor : Cursor;
  call_ledgerCloseTimestamp : Z;
  call_txHash : Hash
}.

(** [ScanFunction]: the visitor is a Go closure; its answer may depend on
    the invocations it has already received, which are its first argument
    here. *)
Definition ScanFunction : Type :=
  list VisitorCall -> DiagnosticEvent -> Cursor -> Z -> Hash -> bool.

(** A row of the result set of the query of [GetEvents]. *)
Record Row := {
  TxIndex : Z;
  Lcm : LedgerCloseMeta
}.

(** [e.contract_id IN (contractIDs)]; a NULL contract id matches nothing. *)
Definition contractIdIn (contractIDs : list Hash) (c : option Hash) : bool :=
  match c with
  | None => false
  | Some c' => existsb (String.eqb c') contractIDs
  end.

Definition whereClause (cursorRange : CursorRange) (contractIDs : list Hash)
    (e : EventRow) : bool :=
  (Ledger (Start cursorRange) <=? ledger_sequence e)
  && (Tx (Start cursorRange) <=? application_order e)
  && (ledger_sequence e <? Ledger (End_ cursorRange))
  && (if (0 <? length contractIDs)%nat
      then contractIdIn contractIDs (contract_id e)
      else true).

(** [events e JOIN ledger_close_meta lcm ON (e.ledger_sequence = lcm.sequence)] *)
Definition joinLedger (ledgers : list (Z * LedgerCloseMeta)) (e : EventRow)
  : list (EventRow * LedgerCloseMeta) :=
  map (fun l => (e, snd l))
      (List.filter (fun l => fst l =? ledger_sequence e) ledgers).

(** [ORDER BY e.ledger_sequence ASC], as a stable insertion sort: rows of
    one ledger keep the order in which the tables yield them. *)
Fixpoint insertByLedger (x : EventRow * LedgerCloseMeta)
    (l : list (EventRow * LedgerCloseMeta)) : list (EventRow * LedgerCloseMeta) :=
  match l with
  | [] => [x]
  | y :: l' =>
      if ledger_sequence (fst y) <=? ledger_sequence (fst x)
      then y :: insertByLedger x l'
      else x :: y :: l'
  end.

Definition orderByLedger (l : list (EventRow * LedgerCloseMeta))
  : list (EventRow * LedgerCloseMeta) :=
  fold_left (fun acc x => insertByLedger x acc) l [].

Definition queryRows (cursorRange : CursorRange) (contractIDs : list Hash) (s : Session)
  : list Row :=
  map (fun r => {| TxIndex := application_order (fst r); Lcm := snd r |})
      (orderByLedger
         (List.filter (fun r => whereClause cursorRange contractIDs (fst r))
            (flat_map (joinLedger (ledger_close_meta s)) (events s)))).

Definition selectRows (cursorRange : CursorRange) (contractIDs : list Hash) (s : Session)
  : option error * list Row * Session :=
  if nextFails s then (Some ErrSelect, [], tick s)
  else (None, queryRows cursorRange contractIDs s, tick s).

(** The inner loop of [GetEvents] over the diagnostic events of one
    transaction; the boolean tells whether the scan goes on. *)
Fixpoint visitEvents (f : ScanFunction) (l : LedgerCloseMeta) (txIndex : Z)
    (ledgerCloseTime : Z) (transactionHash : Hash) (eventIndex : Z)
    (diagEvents : list DiagnosticEvent) (trace : list VisitorCall)
  : bool * list VisitorCall :=
  match diagEvents with
  | [] => (true, trace)
  | event :: rest =>
      let cur := {| Ledger := LedgerSequence l;
                    Tx := U32.wrap txIndex;
                    Event := U32.wrap eventIndex |} in
      let call := {| call_event := event; call_cursor := cur;
                     call_ledgerCloseTimestamp := ledgerCloseTime;
                     call_txHash := transactionHash |} in
      if f trace event cur ledgerCloseTime transactionHash
      then visitEvents f l txIndex ledgerCloseTime transactionHash
             (eventIndex + 1) rest (trace ++ [call])
      else (false, trace ++ [call])
  end.

Section Network.

Variable HashTransactionInEnvelope : TransactionEnvelope -> string -> option Hash.

(** The outer loop of [GetEvents] over the selected rows. *)
Fixpoint scanRows (h : eventHandler) (f : ScanFunction) (rows : list Row)
    (trace : list VisitorCall) : outcome (option error) * list VisitorCall :=
  match rows with
  | [] => (Return None, trace)
  | row :: rows' =>
      let txIndex := TxIndex row in
      let l := Lcm row in
      match ingest.NewLedgerTransactionReaderFromLedgerCloseMeta
              HashTransactionInEnvelope (passphrase h) l with
      | inl err => (Return (Some (ErrCreateReader err)), trace)
      | inr reader =>
          match ingest.Seek reader (txIndex - 1) with
          | (Some err, _) => (Return (Some (ErrSeek txIndex (LedgerSequence l) err)), trace)
          | (None, reader') =>
              let ledgerCloseTime := LedgerCloseTime l in
              match ingest.Read reader' with
              | (Panic p, _) => (Panic p, trace)
              | (Return (inl err), _) => (Return (Some (ErrReadTx err)), trace)
              | (Return (inr ledgerTx), _) =>
                  let transactionHash := TransactionHash (ingest.Result ledgerTx) in
                  match ingest.GetDiagnosticEvents ledgerTx with
                  | None => (Return (Some ErrEncodeDiagnosticEvents), trace)
                  | Some diagEvents =>
                      match visitEvents f l txIndex ledgerCloseTime transactionHash
                              0 diagEvents trace with
                      | (false, trace') => (Return None, trace')
                      | (true, trace') => scanRows h f rows' trace'
                      end
                  end
              end
          end
      end
  end.

(** [GetEvents] applies [f] on the events selected for the given range and
    contract ids; the result carries the invocations of [f] in order. *)
Definition GetEvents (h : eventHandler) (cursorRange : CursorRange)
    (contractIDs : list Hash) (f : ScanFunction) (s : Session)
  : outcome (option error) * list VisitorCall * Session :=
  match selectRows cursorRange contractIDs s with
  | (Some err, _, s') => (Return (Some err), [], s')
  | (None, rows, s') =>
      if (length rows <? 1)%nat then (Return None, [], s')
      else
        let '(err, trace) := scanRows h f rows [] in
        (err, trace, s')
  end.

End Network.

Record LedgerSeqRange := {
  FirstLedgerSeq : Z;
  LastLedgerSeq : Z
}.

Module eventTableMigration.

Record t := {
  firstLedger : Z;
  lastLedger : Z;
  writer : eventHandler
}.

End eventTableMigration.

Definition ApplicableRange (e : eventTableMigration.t) : LedgerSeqRange :=
  {| FirstLedgerSeq := eventTableMigration.firstLedger e;
     LastLedgerSeq := eventTableMigration.lastLedger e |}.

Definition Apply (HashTransactionInEnvelope : TransactionEnvelope -> string -> option Hash)
    (e : eventTableMigration.t) (meta : LedgerCloseMeta) (s : Session)
  : option (outcome (option error) * Session) :=
  InsertEvents HashTransactionInEnvelope (eventTableMigration.writer e) meta s.

(** The applier factory returned by [newEventTableMigration], applied to
    the database handle and the latest ledger. *)
Definition newEventTableMigration (logger : Logger) (retentionWindow : Z)
    (passphrase : string) (db : SessionInterface) (latestLedger : Z)
  : eventTableMigration.t * option error :=
  let firstLedgerToMigrate := firstLedger in
  let writer := {| log := logger; db := db; stmtCache := Some NewStmtCache;
                   passphrase := passphrase;
                   ingestMetric := None; countMetric := None |} in
  let firstLedgerToMigrate :=
    if retentionWindow <? latestLedger
    then U32.sub latestLedger retentionWindow
    else firstLedgerToMigrate in
  ({| eventTableMigration.firstLedger := firstLedgerToMigrate;
      eventTableMigration.lastLedger := latestLedger;
      eventTableMigration.writer := writer |}, None).

End db.

(** ** Hexadecimal strings (Go's [encoding/hex], with the [%#U] rendering
       of [fmt] that its error message uses) *)

Module hex.

Local Open Scope N_scope.

Inductive error :=
  | InvalidByteError (b : ascii)
  | ErrLength.

(** The value of a hexadecimal digit, in either case. *)
Definition fromHexChar (c : ascii) : option N :=
  let n := N_of_ascii c in
  if (48 <=? n) && (n <=? 57) then Some (n - 48)
  else if (97 <=? n) && (n <=? 102) then Some (n - 87)
  else if (65 <=? n) && (n <=? 70) then Some (n - 55)
  else None.

Fixpoint DecodeString (src : string) : error + string :=
  match src with
  | EmptyString => inr EmptyString
  | String p EmptyString =>
      match fromHexChar p with
      | None => inl (InvalidByteError p)
      | Some _ => inl ErrLength
      end
  | String p (String q rest) =>
      match fromHexChar p with
      | None => inl (InvalidByteError p)
      | Some a =>
          match fromHexChar q with
          | None => inl (InvalidByteError q)
          | Some b =>
              match DecodeString rest with
              | inl e => inl e
              | inr d => inr (String (ascii_of_N (a * 16 + b)) d)
              end
          end
      end
  end.

Definition digit (table : string) (n : N) : ascii :=
  match String.get (N.to_nat n) table with
  | Some c => c
  | None => "0"%char
  end.

Definition hextable : string := "0123456789abcdef".

Definition upperhex : string := "0123456789ABCDEF".

Fixpoint EncodeToString (src : string) : string :=
  match src with
  | EmptyString => EmptyString
  | String b rest =>
      String (digit hextable (N_of_ascii b / 16))
        (String (digit hextable (N_of_ascii b mod 16)) (EncodeToString rest))
  end.

(** [strconv.IsPrint] on the Latin-1 range. *)
Definition IsPrint (r : N) : bool :=
  ((32 <=? r) && (r <=? 126))
  || ((161 <=? r) && (r <=? 255) && negb (r =? 173)).

(** The UTF-8 encoding of a code point below 256. *)
Definition utf8 (r : N) : string :=
  if r <? 128 then String (ascii_of_N r) EmptyString
  else String (ascii_of_N (192 + r / 64))
         (String (ascii_of_N (128 + r mod 64)) EmptyString).

(** [fmt.Sprintf("%#U", rune(b))] for a byte [b]. *)
Definition fmtSharpU (r : N) : string :=
  "U+00" +:+ String (digit upperhex (r / 16)) (String (digit upperhex (r mod 16)) EmptyString)
  +:+ (if IsPrint r then " '" +:+ utf8 r +:+ "'" else "").

Definition Error (e : error) : string :=
  match e with
  | InvalidByteError b => "encoding/hex: invalid byte: " +:+ fmtSharpU (N_of_ascii b)
  | ErrLength => "encoding/hex: odd length hex string"
  end.

(** [hex.DecodedLen]: the number of bytes that [x] characters decode to. *)
Definition DecodedLen (x : nat) : nat := Nat.div x 2.

End hex.

(** ** JSON-RPC errors ([jrpc2.Error]) *)

Module jrpc2.

Definition InvalidParams : Z := -32602.

Definition InternalError : Z := -32603.

Record Error := {
  Code : Z;
  Message : string
}.

(** The error text, following the template [[<code>] <detail>]. *)
Definition ErrorString (e : Error) : string :=
  "[" +:+ pretty (Code e) +:+ "] " +:+ Message e.

End jrpc2.

(** ** The transaction lookup ([internal/methods], as exercised by
       [TestGetTransaction]) *)

Module methods.

Inductive TransactionStatus :=
  | TransactionStatusSuccess
  | TransactionStatusNotFound
  | TransactionStatusFailed.

(** The wire form of a status. *)
Definition statusString (s : TransactionStatus) : string :=
  match s with
  | TransactionStatusSuccess => "SUCCESS"
  | TransactionStatusNotFound => "NOT_FOUND"
  | TransactionStatusFailed => "FAILED"
  end.

(** [DiagnosticEventsXDR] is a Go slice: [None] is the nil slice of a
    response that leaves the field out, [Some []] the empty list. *)
Record GetTransactionResponse := {
  Status : TransactionStatus;
  LatestLedger : Z;
  LatestLedgerCloseTime : Z;
  OldestLedger : Z;
  OldestLedgerCloseTime : Z;
  ApplicationOrder : Z;
  FeeBump : bool;
  EnvelopeXdr : string;
  ResultXdr : string;
  ResultMetaXdr : string;
  Ledger : Z;
  LedgerCloseTime : Z;
  DiagnosticEventsXDR : option (list string)
}.

Record GetTransactionRequest := {
  Hash : string
}.

(** The canonical binary encoding of an XDR value, in base64
    ([xdr.MarshalBase64]); the codec is external. *)
Class Marshal (T : Type) := MarshalBase64 : T -> string.

(** Modelled from the spec: the ledger store ([ledgers]: sequence to
    ledger close meta) and the transaction index ([transactions]: hash to
    ledger sequence and transaction index) of sections 3, 4.2 and 4.4.
    The test builds them with [db.NewMockTransactionStore] and
    [db.NewMockLedgerReader], whose code is not among the sources. *)
Record TransactionStore := {
  passphrase : string;
  ledgers : gmap Z xdr.LedgerCloseMeta;
  transactions : gmap string (Z * Z)
}.

Definition NewMockTransactionStore (passphrase : string) : TransactionStore :=
  {| passphrase := passphrase; ledgers := ∅; transactions := ∅ |}.

(** Modelled from the spec: [Bounds() -> (oldest, latest) | Empty]
    (section 4.2). *)
Definition Bounds (store : TransactionStore) : option (Z * Z) :=
  match map fst (map_to_list (ledgers store)) with
  | [] => None
  | k :: ks => Some (fold_right Z.min k ks, fold_right Z.max k ks)
  end.

Definition closeTimeAt (store : TransactionStore) (sequence : Z) : Z :=
  match ledgers store !! sequence with
  | Some l => xdr.LedgerCloseTime l
  | None => 0
  end.

(** Modelled from the spec: [Upsert(lcm)], idempotent on the ledger
    sequence, replaces any existing entry (section 4.2). *)
Definition Upsert (l : xdr.LedgerCloseMeta) (store : TransactionStore) : TransactionStore :=
  {| passphrase := passphrase store;
     ledgers := <[xdr.LedgerSequence l := l]> (ledgers store);
     transactions := transactions store |}.

Section Network.

Variable HashTransactionInEnvelope : xdr.TransactionEnvelope -> string -> option xdr.Hash.

(** Decoding a ledger close meta to its [txIndex]'th transaction (1-based),
    with the reader of the ingest package. *)
Definition readTransaction (passphrase : string) (l : xdr.LedgerCloseMeta) (txIndex : Z)
  : outcome (ingest.error + ingest.LedgerTransaction) :=
  match ingest.NewLedgerTransactionReaderFromLedgerCloseMeta
          HashTransactionInEnvelope passphrase l with
  | inl err => Return (inl err)
  | inr reader =>
      match ingest.Seek reader (txIndex - 1) with
      | (Some err, _) => Return (inl err)
      | (None, reader') => fst (ingest.Read reader')
      end
  end.

(** Modelled from the spec: [InsertTransactions(lcm)] inserts, for each
    transaction of the ledger in apply order, a row hash to (ledger
    sequence, transaction index) (section 4.4). *)
Fixpoint insertRows (passphrase : string) (l : xdr.LedgerCloseMeta) (indices : list nat)
    (rows : gmap string (Z * Z)) : outcome (ingest.error + gmap string (Z * Z)) :=
  match indices with
  | [] => Return (inr rows)
  | i :: indices' =>
      match readTransaction passphrase l (Z.of_nat i) with
      | Panic p => Panic p
      | Return (inl err) => Return (inl err)
      | Return (inr tx) =>
          insertRows passphrase l indices'
            (<[xdr.TransactionHash (ingest.Result tx) :=
                 (xdr.LedgerSequence l, ingest.Index tx)]> rows)
      end
  end.

Definition InsertTransactions (l : xdr.LedgerCloseMeta) (store : TransactionStore)
  : outcome (ingest.error + TransactionStore) :=
  match insertRows (passphrase store) l (seq 1 (length (xdr.TxProcessing l)))
          (transactions store) with
  | Panic p => Panic p
  | Return (inl err) => Return (inl err)
  | Return (inr rows) =>
      Return (inr {| passphrase := passphrase store;
                     ledgers := ledgers store;
                     transactions := rows |})
  end.

(** Modelled from the spec: ingesting a ledger (section 4.5, steps 2 and
    3) inserts it into the ledger store and indexes its transactions; a
    failure leaves the store as it was. The mock store of the test does
    both in its [InsertTransactions]. *)
Definition Ingest (l : xdr.LedgerCloseMeta) (store : TransactionStore)
  : outcome (ingest.error + TransactionStore) :=
  InsertTransactions l (Upsert l store).

(** Modelled from the spec: steady-state ingestion (section 4.5) of a
    stream of ledgers, oldest first; the first failure stops it. *)
Fixpoint IngestAll (stream : list xdr.LedgerCloseMeta) (store : TransactionStore)
  : outcome (ingest.error + TransactionStore) :=
  match stream with
  | [] => Return (inr store)
  | l :: stream' =>
      match Ingest l store with
      | Panic p => Panic p
      | Return (inl err) => Return (inl err)
      | Return (inr store') => IngestAll stream' store'
      end
  end.

Context {marshalEnvelope : Marshal xdr.TransactionEnvelope}
        {marshalResult : Marshal xdr.TransactionResult}
        {marshalMeta : Marshal xdr.TransactionMeta}
        {marshalEvent : Marshal xdr.DiagnosticEvent}.

Definition badInput (message : string) : jrpc2.Error :=
  {| jrpc2.Code := jrpc2.InvalidParams; jrpc2.Message := message |}.

Definition corruptData (message : string) : jrpc2.Error :=
  {| jrpc2.Code := jrpc2.InternalError; jrpc2.Message := message |}.

(** The response of a lookup that finds nothing: the observability
    fields come from the bounds of the ledger store, every other field is
    left at its zero value. *)
Definition notFound (store : TransactionStore) : GetTransactionResponse :=
  let bounds := default (0, 0) (Bounds store) in
  {| Status := TransactionStatusNotFound;
     LatestLedger := snd bounds;
     LatestLedgerCloseTime := closeTimeAt store (snd bounds);
     OldestLedger := fst bounds;
     OldestLedgerCloseTime := closeTimeAt store (fst bounds);
     ApplicationOrder := 0;
     FeeBump := false;
     EnvelopeXdr := "";
     ResultXdr := "";
     ResultMetaXdr := "";
     Ledger := 0;
     LedgerCloseTime := 0;
     DiagnosticEventsXDR := None |}.

(** The response for the transaction [tx] found at [txIndex] of the
    ledger [l] stored under [sequence]. *)
Definition found (store : TransactionStore) (sequence txIndex : Z)
    (l : xdr.LedgerCloseMeta) (tx : ingest.LedgerTransaction)
    (diagnosticEvents : list xdr.DiagnosticEvent) : GetTransactionResponse :=
  let bounds := default (0, 0) (Bounds store) in
  {| Status := if xdr.Successful (ingest.Result tx)
               then TransactionStatusSuccess else TransactionStatusFailed;
     LatestLedger := snd bounds;
     LatestLedgerCloseTime := closeTimeAt store (snd bounds);
     OldestLedger := fst bounds;
     OldestLedgerCloseTime := closeTimeAt store (fst bounds);
     ApplicationOrder := txIndex;
     FeeBump := xdr.EnvelopeType (ingest.Envelope tx) =? xdr.EnvelopeTypeEnvelopeTypeTxFeeBump;
     EnvelopeXdr := MarshalBase64 (ingest.Envelope tx);
     ResultXdr := MarshalBase64 (xdr.Result (ingest.Result tx));
     ResultMetaXdr := MarshalBase64 (ingest.UnsafeMeta tx);
     Ledger := sequence;
     LedgerCloseTime := xdr.LedgerCloseTime l;
     DiagnosticEventsXDR := Some (map MarshalBase64 diagnosticEvents) |}.

(** Modelled from the spec: [GetTransaction(hashHex)] of section 4.4; its
    code ([internal/methods/get_transaction.go]) is not among the sources,
    only its test is. The hash must be 64 hexadecimal characters; an
    absent hash answers [NOT_FOUND] with the bounds of the ledger store; a
    present one is decoded from the stored ledger.

    The test settles how the length is checked: its second request has 65
    characters and is answered by the hexadecimal decoder, not with
    [unexpected hash length (65)]. The check is therefore the one on the
    decoded length ([hex.DecodedLen], half the number of characters,
    rounded down) against the 32 bytes of a hash, which lets 64 and 65
    characters through; the decoder then refuses every string of 65. *)
Definition GetTransaction (store : TransactionStore) (request : GetTransactionRequest)
  : outcome (jrpc2.Error + GetTransactionResponse) :=
  if negb (hex.DecodedLen (String.length (Hash request)) =? 32)%nat then
    Return (inl (badInput ("unexpected hash length ("
                           +:+ pretty (String.length (Hash request)) +:+ ")")))
  else
    match hex.DecodeString (Hash request) with
    | inl err => Return (inl (badInput ("incorrect hash: " +:+ hex.Error err)))
    | inr txHash =>
        match transactions store !! txHash with
        | None => Return (inr (notFound store))
        | Some (sequence, txIndex) =>
            match ledgers store !! sequence with
            | None => Return (inr (notFound store))
            | Some l =>
                match readTransaction (passphrase store) l txIndex with
                | Panic p => Panic p
                | Return (inl _) => Return (inl (corruptData "corrupt ledger close meta"))
                | Return (inr tx) =>
                    match ingest.GetDiagnosticEvents tx with
                    | None => Return (inl (corruptData "corrupt transaction meta"))
                    | Some diagnosticEvents =>
                        Return (inr (found store sequence txIndex l tx diagnosticEvents))
                    end
                end
            end
        end
    end.

End Network.

End methods.

(** ** The fixtures of [TestGetTransaction] *)

Module fixtures.
Import xdr.

(** A stand-in for [network.HashTransactionInEnvelope] (SHA-256 over the
    network id and the envelope): 32 bytes made of the envelope body and
    the passphrase, which tells apart the envelopes used below. *)
Definition HashTransactionInEnvelope (envelope : TransactionEnvelope) (passphrase : string)
  : option Hash :=
  Some (substring 0 32
          (EnvelopeBody envelope +:+ "/" +:+ passphrase
           +:+ "################################")).

#[export] Instance marshalEnvelope : methods.Marshal TransactionEnvelope :=
  fun e => "envelope:" +:+ pretty (EnvelopeType e) +:+ ":" +:+ EnvelopeBody e.

#[export] Instance marshalResult : methods.Marshal TransactionResult :=
  fun r => "result:" +:+ pretty (FeeCharged r) +:+ ":" +:+ pretty (Code r).

#[export] Instance marshalMeta : methods.Marshal TransactionMeta :=
  fun m => "meta:" +:+ pretty (V m) +:+ ":" +:+ MetaBody m.

#[export] Instance marshalEvent : methods.Marshal DiagnosticEvent :=
  fun e => "event:" +:+ pretty (Type_ (Event e)) +:+ ":" +:+ Body (Event e).

Definition ledgerCloseTime (ledgerSequence : Z) : Z := ledgerSequence * 25 + 100.

Definition txEnvelope (acctSeq : Z) : TransactionEnvelope :=
  {| EnvelopeType := EnvelopeTypeEnvelopeTypeTx;
     EnvelopeBody := "fee=1,seq=" +:+ pretty acctSeq |}.

Definition txHash (acctSeq : Z) : Hash :=
  default "" (HashTransactionInEnvelope (txEnvelope acctSeq) "passphrase").

Definition transactionResult (successful : bool) : TransactionResult :=
  let code := TransactionResultCodeTxBadSeq in
  let code := if successful then TransactionResultCodeTxSuccess else code in
  {| FeeCharged := 100; Code := code |}.

Definition txMeta (acctSeq : Z) (successful : bool) : LedgerCloseMeta :=
  let envelope := txEnvelope acctSeq in
  let txProcessing :=
    [ {| TxApplyProcessing := {| V := 3; SorobanMeta := None; MetaBody := "" |};
         TxResult := {| TransactionHash := txHash acctSeq;
                        Result := transactionResult successful |} |} ] in
  {| LedgerSeq := U32.add acctSeq 100;
     CloseTime := ledgerCloseTime (U32.add acctSeq 100);
     TxSet := [envelope];
     TxProcessing := txProcessing |}.

Definition contractID : Hash :=
  default "" (match hex.DecodeString
                      "df06d62447fd25da07c0135eed7557e5a5497ee7d15b7fe345bd47e191d8f577" with
              | inr bytes => Some bytes
              | inl _ => None
              end).

Definition counterEvent : ContractEvent :=
  {| ContractId := Some contractID;
     Type_ := ContractEventTypeContract;
     Body := "COUNTER" |}.

(** [txMeta] has a single transaction, whose meta is replaced. *)
Definition txMetaWithEvents (acctSeq : Z) (successful : bool) : LedgerCloseMeta :=
  let meta := txMeta acctSeq successful in
  {| LedgerSeq := LedgerSeq meta;
     CloseTime := CloseTime meta;
     TxSet := TxSet meta;
     TxProcessing :=
       map (fun p =>
              {| TxResult := TxResult p;
                 TxApplyProcessing :=
                   {| V := 3;
                      SorobanMeta := Some {| Events := [counterEvent];
                                             DiagnosticEvents := [] |};
                      MetaBody := "COUNTER" |} |})
           (TxProcessing meta) |}.

Definition otherContractID : Hash := "0123456789abcdef0123456789abcdef".

Definition otherEvent : ContractEvent :=
  {| ContractId := Some otherContractID;
     Type_ := ContractEventTypeContract;
     Body := "OTHER" |}.

(** As [txMetaWithEvents], the transaction emitting a second event, of
    another contract. *)
Definition txMetaWithTwoEvents (acctSeq : Z) : LedgerCloseMeta :=
  let meta := txMeta acctSeq true in
  {| LedgerSeq := LedgerSeq meta;
     CloseTime := CloseTime meta;
     TxSet := TxSet meta;
     TxProcessing :=
       map (fun p =>
              {| TxResult := TxResult p;
                 TxApplyProcessing :=
                   {| V := 3;
                      SorobanMeta := Some {| Events := [counterEvent; otherEvent];
                                             DiagnosticEvents := [] |};
                      MetaBody := "COUNTER,OTHER" |} |})
           (TxProcessing meta) |}.

(** The handler of the ingestion, with its statement cache. *)
Definition writer : db.eventHandler :=
  {| db.log := db.DefaultLogger; db.db := db.DBSession;
     db.stmtCache := Some db.NewStmtCache; db.passphrase := "passphrase";
     db.ingestMetric := None; db.countMetric := None |}.

Definition reader : db.eventHandler :=
  db.NewEventReader db.DefaultLogger db.DBSession "passphrase".

(** A database that holds the ledger [l] and no event row yet. *)
Definition ledgerOnly (l : LedgerCloseMeta) : db.Session :=
  {| db.events := [];
     db.ledger_close_meta := [(LedgerSequence l, l)];
     db.io_script := [] |}.

Definition cursor (ledger tx event : Z) : db.Cursor :=
  {| db.Ledger := ledger; db.Tx := tx; db.Event := event |}.

(** A visitor that never stops the scan. *)
Definition visitAll : db.ScanFunction := fun _ _ _ _ _ => true.

(** The hash of the second request of [TestGetTransaction]: [foo] and 62
    spaces, 65 characters in all. *)
Definition paddedFoo : string :=
  "foo                                                              ".

End fixtures.

(** ** What the properties speak about *)

Module spec.
Import xdr db.

(** The cursor lies in the half-open range [[Start, End)]. *)
Definition inRange (r : CursorRange) (c : Cursor) : bool :=
  (Cmp (Start r) c <=? 0) && (Cmp c (End_ r) <? 0).

(** Each cursor is strictly below the next one. *)
Fixpoint strictlyIncreasing (cs : list Cursor) : bool :=
  match cs with
  | [] => true
  | c :: rest =>
      match rest with
      | [] => true
      | c' :: _ => (Cmp c c' <? 0) && strictlyIncreasing rest
      end
  end.

(** The event carries a contract id that is one of [contractIDs]. *)
Definition eventOfContracts (contractIDs : list Hash) (e : DiagnosticEvent) : bool :=
  contractIdIn contractIDs (ContractId (xdr.Event e)).

(** The rows of the transaction at 0-based position [i] of a ledger: none
    for an unsuccessful transaction, otherwise one per diagnostic event. *)
Definition rowsOfTransaction (l : LedgerCloseMeta) (i : nat) (p : TransactionResultMeta)
  : list EventRow :=
  if Successful (TxResult p) then
    map (fun e =>
           {| ledger_sequence := LedgerSequence l;
              application_order := Z.of_nat i + 1;
              contract_id := ContractId (xdr.Event e);
              event_type := Type_ (xdr.Event e) |})
        (default [] (GetDiagnosticEvents (TxApplyProcessing p)))
  else [].

Fixpoint rowsFrom (l : LedgerCloseMeta) (i : nat) (ps : list TransactionResultMeta)
  : list EventRow :=
  match ps with
  | [] => []
  | p :: ps' => rowsOfTransaction l i p ++ rowsFrom l (S i) ps'
  end.

(** The rows of a whole ledger, transactions in apply order. *)
Definition rowsOfLedger (l : LedgerCloseMeta) : list EventRow :=
  rowsFrom l 0 (TxProcessing l).

(** Every character of the string is a hexadecimal digit. *)
Definition isHexString (s : string) : bool :=
  forallb (fun c => match hex.fromHexChar c with Some _ => true | None => false end)
          (list_ascii_of_string s).

(** The session never reports an I/O error. *)
Definition noFaults (s : Session) : Prop := Forall (fun b => b = false) (io_script s).

(** The reader can decode the ledger: the envelopes of the transaction set
    hash, and every processed transaction has its envelope among them. *)
Definition readable (HashTransactionInEnvelope : TransactionEnvelope -> string -> option Hash)
    (passphrase : string) (l : LedgerCloseMeta) : Prop :=
  exists m,
    ingest.storeTransactions HashTransactionInEnvelope passphrase (TxSet l) [] = Some m
    /\ forall p, In p (TxProcessing l) ->
                 ingest.lookupEnvelope m (TransactionHash (TxResult p)) <> None.


(** The meta of every transaction has version 3, the one that the reader
    of a version-1 ledger close meta hands out. *)
Definition metaVersion3 (l : LedgerCloseMeta) : Prop :=
  forall p, In p (TxProcessing l) -> V (TxApplyProcessing p) = 3.

End spec.

(** ** What the further properties speak about *)

Module behaviour.
Import xdr db.

(** The answer of the visitor to the call [c], made after the calls
    [history]. *)
Definition answers (f : ScanFunction) (history : list VisitorCall) (c : VisitorCall) : bool :=
  f history (call_event c) (call_cursor c) (call_ledgerCloseTimestamp c) (call_txHash c).

(** The visitor accepts every call of [calls], made in this order after
    [history]. *)
Fixpoint accepts (f : ScanFunction) (history calls : list VisitorCall) : bool :=
  match calls with
  | [] => true
  | c :: calls' => answers f history c && accepts f (history ++ [c]) calls'
  end.

(** The transaction writes a batch: it is successful and has at least one
    diagnostic event. *)
Definition hasBatch (p : TransactionResultMeta) : bool :=
  Successful (TxResult p)
  && match GetDiagnosticEvents (TxApplyProcessing p) with
     | Some (_ :: _) => true
     | _ => false
     end.

(** The number of [INSERT] statements a ledger needs. *)
Definition batches (l : LedgerCloseMeta) : nat :=
  length (List.filter hasBatch (TxProcessing l)).

(** The rows that [trimEvents] keeps for the cutoff [cutoff]. *)
Definition keptRows (cutoff : Z) (rows : list EventRow) : list EventRow :=
  List.filter (fun r => negb (ledger_sequence r <? cutoff)) rows.

(** The visitor never stops the scan. *)
Definition neverRefuses (f : ScanFunction) : Prop :=
  forall history event cur closeTime hash, f history event cur closeTime hash = true.

(** The calls for the events [diagEvents] of one transaction, the first
    of them at event index [eventIndex]. *)
Fixpoint callsFrom (l : LedgerCloseMeta) (txIndex closeTime : Z) (hash : Hash)
    (eventIndex : Z) (diagEvents : list DiagnosticEvent) : list VisitorCall :=
  match diagEvents with
  | [] => []
  | event :: rest =>
      {| call_event := event;
         call_cursor := {| Ledger := LedgerSequence l;
                           Tx := U32.wrap txIndex;
                           Event := U32.wrap eventIndex |};
         call_ledgerCloseTimestamp := closeTime;
         call_txHash := hash |}
      :: callsFrom l txIndex closeTime hash (eventIndex + 1) rest
  end.

Section Network.

Variable HashTransactionInEnvelope : TransactionEnvelope -> string -> option Hash.

(** The transaction at [txIndex] of the ledger [l] decodes, and so do its
    diagnostic events. *)
Definition resolves (passphrase : string) (l : LedgerCloseMeta) (txIndex : Z) : Prop :=
  exists tx diagEvents,
    methods.readTransaction HashTransactionInEnvelope passphrase l txIndex = Return (inr tx)
    /\ ingest.GetDiagnosticEvents tx = Some diagEvents.

(** The replay of the transaction of one selected row. *)
Definition callsOfRow (passphrase : string) (row : Row) : list VisitorCall :=
  match methods.readTransaction HashTransactionInEnvelope passphrase (Lcm row) (TxIndex row) with
  | Return (inr tx) =>
      match ingest.GetDiagnosticEvents tx with
      | None => []
      | Some diagEvents =>
          callsFrom (Lcm row) (TxIndex row) (LedgerCloseTime (Lcm row))
            (TransactionHash (ingest.Result tx)) 0 diagEvents
      end
  | _ => []
  end.

End Network.

(** A ledger of two successful transactions: the first emits the events
    of two contracts, the second one event. *)
Definition twoTransactions : LedgerCloseMeta :=
  {| LedgerSeq := 104;
     CloseTime := fixtures.ledgerCloseTime 104;
     TxSet := [fixtures.txEnvelope 4; fixtures.txEnvelope 5];
     TxProcessing :=
       [ {| TxResult := {| TransactionHash := fixtures.txHash 4;
                           Result := fixtures.transactionResult true |};
            TxApplyProcessing :=
              {| V := 3;
                 SorobanMeta := Some {| Events := [fixtures.counterEvent; fixtures.otherEvent];
                                        DiagnosticEvents := [] |};
                 MetaBody := "" |} |};
         {| TxResult := {| TransactionHash := fixtures.txHash 5;
                           Result := fixtures.transactionResult true |};
            TxApplyProcessing :=
              {| V := 3;
                 SorobanMeta := Some {| Events := [fixtures.otherEvent];
                                        DiagnosticEvents := [] |};
                 MetaBody := "" |} |} ] |}.

(** A ledger whose only transaction, a successful one, carries a meta of
    version 1. *)
Definition metaVersion1 : LedgerCloseMeta :=
  {| LedgerSeq := 101;
     CloseTime := fixtures.ledgerCloseTime 101;
     TxSet := [fixtures.txEnvelope 1];
     TxProcessing :=
       [ {| TxResult := {| TransactionHash := fixtures.txHash 1;
                           Result := fixtures.transactionResult true |};
            TxApplyProcessing := {| V := 1; SorobanMeta := None; MetaBody := "" |} |} ] |}.

End behaviour.

(** * Properties *)

(** ** Unsigned arithmetic *)

Lemma wrap_small z : U32.in_range z -> U32.wrap z = z.
Proof. intros Hz. unfold U32.wrap. apply Z.mod_small. exact Hz. Qed.

Lemma wrap_in_range z : U32.in_range (U32.wrap z).
Proof.
  unfold U32.in_range, U32.wrap, U32.modulus.
  apply Z.mod_pos_bound. reflexivity.
Qed.

Lemma sub_no_borrow a b :
  U32.in_range a -> U32.in_range b -> b <= a -> U32.sub a b = a - b.
Proof.
  intros Ha Hb Hle. unfold U32.sub. apply wrap_small.
  unfold U32.in_range in *. lia.
Qed.

Lemma add_no_carry a b :
  0 <= a -> 0 <= b -> a + b < U32.modulus -> U32.add a b = a + b.
Proof.
  intros Ha Hb Hlt. unfold U32.add. apply wrap_small.
  unfold U32.in_range. lia.
Qed.

(** ** The event-table migration *)

Section Migration.
Import xdr db.

Variables (logger : Logger) (passphrase : string) (session : SessionInterface).

(** C8, as the claim states it, fails: with latest ledger 5 and a
    retention window of 4 the range starts at ledger 1, not at
    max(2, 5 - 4) = 2. *)
Lemma migration_first_below_two :
  FirstLedgerSeq
    (ApplicableRange (fst (newEventTableMigration DefaultLogger 4 "passphrase" DBSession 5)))
  <> Z.max 2 (5 - 4).
Proof. vm_compute. discriminate. Qed.

(** C8 (amended): for 32-bit [latestLedger] and [retentionWindow] the
    factory never fails, and the applicable range of the migration ends at
    [latestLedger] and starts at [latestLedger - retentionWindow] when
    [latestLedger > retentionWindow] and at 2 otherwise. That start is
    max(2, latestLedger - retentionWindow) unless the difference is exactly
    1, where it is 1. No ledger of the range is older than
    [latestLedger - retentionWindow]. *)
Theorem migration_applicable_range (latestLedger retentionWindow : Z) :
  U32.in_range latestLedger ->
  U32.in_range retentionWindow ->
  let made := newEventTableMigration logger retentionWindow passphrase session latestLedger in
  let range := ApplicableRange (fst made) in
  snd made = None
  /\ LastLedgerSeq range = latestLedger
  /\ FirstLedgerSeq range
     = (if retentionWindow <? latestLedger then latestLedger - retentionWindow else 2)
  /\ (latestLedger - retentionWindow <> 1 ->
      FirstLedgerSeq range = Z.max 2 (latestLedger - retentionWindow))
  /\ (latestLedger - retentionWindow = 1 -> FirstLedgerSeq range = 1)
  /\ (forall sequence,
        FirstLedgerSeq range <= sequence <= LastLedgerSeq range ->
        latestLedger - retentionWindow <= sequence <= latestLedger).
Proof.
  intros Hl Hw made range.
  assert (Hfirst : FirstLedgerSeq range
                   = if retentionWindow <? latestLedger
                     then latestLedger - retentionWindow else 2).
  { subst range made. unfold newEventTableMigration, ApplicableRange. cbn.
    destruct (Z.ltb_spec retentionWindow latestLedger) as [Hlt | Hge].
    - apply sub_no_borrow; [exact Hl | exact Hw | lia].
    - reflexivity. }
  assert (Hlast : LastLedgerSeq range = latestLedger) by reflexivity.
  repeat split; try assumption; try reflexivity.
  - intros Hne. rewrite Hfirst.
    destruct (Z.ltb_spec retentionWindow latestLedger); lia.
  - intros Heq. rewrite Hfirst.
    destruct (Z.ltb_spec retentionWindow latestLedger); lia.
  - rewrite Hfirst in H.
    destruct (Z.ltb_spec retentionWindow latestLedger); lia.
  - rewrite Hlast in H. lia.
Qed.

End Migration.

Lemma migration_applicable_range_witness :
  U32.in_range 1000 /\ U32.in_range 120
  /\ db.FirstLedgerSeq
       (db.ApplicableRange
          (fst (db.newEventTableMigration db.DefaultLogger 120 "passphrase" db.DBSession 1000)))
     = Z.max 2 (1000 - 120).
Proof.
  assert (Hl : U32.in_range 1000) by (unfold U32.in_range, U32.modulus; lia).
  assert (Hw : U32.in_range 120) by (unfold U32.in_range, U32.modulus; lia).
  split; [exact Hl | split; [exact Hw |]].
  apply (migration_applicable_range db.DefaultLogger "passphrase" db.DBSession 1000 120 Hl Hw).
  lia.
Defined.

(** ** Retention trimming *)

Section Trim.
Import xdr db.

Lemma execDeleteLt_ok cache cutoff s :
  nextFails s = false ->
  execDeleteLt (Some cache) cutoff s
  = (Return None, setEvents (tick s)
                    (List.filter (fun r => negb (ledger_sequence r <? cutoff)) (events s))).
Proof. intros Hok. unfold execDeleteLt. rewrite Hok. reflexivity. Qed.

Lemma kept_rows_iff cutoff rows r :
  In r (List.filter (fun r => negb (ledger_sequence r <? cutoff)) rows)
  <-> In r rows /\ ~ ledger_sequence r < cutoff.
Proof.
  rewrite filter_In. split; intros [Hin Hk]; split; try assumption.
  - destruct (Z.ltb_spec (ledger_sequence r) cutoff); [discriminate | lia].
  - destruct (Z.ltb_spec (ledger_sequence r) cutoff); [contradiction | reflexivity].
Qed.

(** C9: with the sums and differences taken as the code takes them, on
    unsigned 32-bit numbers, [trimEvents] does nothing when
    [latestLedgerSeq + 1 <= retentionWindow]; otherwise, run on a statement
    cache whose statement succeeds, it deletes exactly the rows with
    [ledger_sequence < latestLedgerSeq + 1 - retentionWindow]: the rows
    that remain are the other rows, in their order, and the ledger table
    is untouched. Below the largest ledger number the sum and the
    difference are those of the integers. *)
Theorem trimEvents_deletes_below_cutoff (h : eventHandler)
    (latestLedgerSeq retentionWindow : Z) (s : Session) :
  U32.in_range latestLedgerSeq ->
  U32.in_range retentionWindow ->
  let cutoff := U32.sub (U32.add latestLedgerSeq 1) retentionWindow in
  (U32.add latestLedgerSeq 1 <= retentionWindow ->
   trimEvents h latestLedgerSeq retentionWindow s = (Return None, s))
  /\ (retentionWindow < U32.add latestLedgerSeq 1 ->
      stmtCache h <> None ->
      nextFails s = false ->
      exists s',
        trimEvents h latestLedgerSeq retentionWindow s = (Return None, s')
        /\ events s'
           = List.filter (fun r => negb (ledger_sequence r <? cutoff)) (events s)
        /\ (forall r, In r (events s') <-> In r (events s) /\ ~ ledger_sequence r < cutoff)
        /\ ledger_close_meta s' = ledger_close_meta s)
  /\ (latestLedgerSeq + 1 < U32.modulus ->
      U32.add latestLedgerSeq 1 = latestLedgerSeq + 1
      /\ (retentionWindow < latestLedgerSeq + 1 ->
          cutoff = latestLedgerSeq + 1 - retentionWindow)).
Proof.
  intros Hl Hw cutoff. split; [| split].
  - intros Hle. unfold trimEvents.
    destruct (Z.leb_spec (U32.add latestLedgerSeq 1) retentionWindow); [reflexivity | lia].
  - intros Hgt Hcache Hok. unfold trimEvents.
    destruct (Z.leb_spec (U32.add latestLedgerSeq 1) retentionWindow) as [Hle | _]; [lia |].
    destruct (stmtCache h) as [cache |]; [| congruence].
    rewrite (execDeleteLt_ok cache _ s Hok).
    eexists. split; [reflexivity |]. cbn. fold cutoff.
    split; [reflexivity | split; [| reflexivity]].
    intros r. apply kept_rows_iff.
  - intros Hno.
    assert (Hadd : U32.add latestLedgerSeq 1 = latestLedgerSeq + 1).
    { apply add_no_carry; unfold U32.in_range in Hl; lia. }
    split; [exact Hadd |]. intros Hgt. subst cutoff. rewrite Hadd.
    apply sub_no_borrow; unfold U32.in_range in *; lia.
Qed.

End Trim.

Lemma trimEvents_deletes_below_cutoff_witness :
  let h := {| db.log := db.DefaultLogger; db.db := db.DBSession;
              db.stmtCache := Some db.NewStmtCache; db.passphrase := "passphrase";
              db.ingestMetric := None; db.countMetric := None |} in
  let row n := {| db.ledger_sequence := n; db.application_order := 1;
                  db.contract_id := None; db.event_type := 1 |} in
  let s := {| db.events := [row 9; row 10; row 11; row 12];
              db.ledger_close_meta := []; db.io_script := [] |} in
  exists s',
    db.trimEvents h 12 2 s = (Return None, s') /\ db.events s' = [row 11; row 12].
Proof.
  intros h row s.
  assert (Hl : U32.in_range 12) by (unfold U32.in_range, U32.modulus; lia).
  assert (Hw : U32.in_range 2) by (unfold U32.in_range, U32.modulus; lia).
  destruct (trimEvents_deletes_below_cutoff h 12 2 s Hl Hw) as (_ & Htrim & _).
  destruct Htrim as (s' & Hrun & Hrows & _).
  - vm_compute. reflexivity.
  - discriminate.
  - reflexivity.
  - exists s'. split; [exact Hrun | exact Hrows].
Defined.

(** X18: at the largest ledger number the sum [latestLedgerSeq + 1] wraps to 0,
    so nothing is trimmed whatever the window. *)
Lemma trimEvents_at_largest_ledger (h : db.eventHandler) (retentionWindow : Z) (s : db.Session) :
  U32.in_range retentionWindow ->
  db.trimEvents h (U32.modulus - 1) retentionWindow s = (Return None, s).
Proof.
  intros Hw. unfold db.trimEvents.
  replace (U32.add (U32.modulus - 1) 1) with 0 by reflexivity.
  destruct (Z.leb_spec 0 retentionWindow); [reflexivity |].
  unfold U32.in_range in Hw. lia.
Qed.

(** ** The statement cache of the writer *)

Section StmtCache.
Import xdr db.

Variable HashTransactionInEnvelope : TransactionEnvelope -> string -> option Hash.

(** C10: [InsertEvents] on a handler without statement cache returns an
    error and leaves the session as it was, whatever the ledger; a handler
    made by [NewEventReader] is such a handler. On a handler with a
    statement cache, a ledger without transactions makes it return
    success with the session as it was. *)
Theorem InsertEvents_needs_stmtCache (h : eventHandler) (l : LedgerCloseMeta) (s : Session) :
  (stmtCache h = None ->
   InsertEvents HashTransactionInEnvelope h l s = Some (Return (Some ErrNoStmtCache), s))
  /\ (forall logger session passphrase,
        InsertEvents HashTransactionInEnvelope (NewEventReader logger session passphrase) l s
        = Some (Return (Some ErrNoStmtCache), s))
  /\ (stmtCache h <> None ->
      CountTransactions l = 0 ->
      InsertEvents HashTransactionInEnvelope h l s = Some (Return None, s)).
Proof.
  unfold InsertEvents. split; [| split].
  - intros Hnil. rewrite Hnil. reflexivity.
  - intros logger session pass. reflexivity.
  - intros Hcache Hzero. destruct (stmtCache h); [| congruence].
    rewrite Hzero. reflexivity.
Qed.

End StmtCache.

(** ** The write path of the event index *)

Section InsertEvents.
Import xdr db.

Variable HashTransactionInEnvelope : TransactionEnvelope -> string -> option Hash.

Lemma Read_at_end l m :
  ingest.Read {| ingest.lcm := l; ingest.envelopesByHash := m;
                 ingest.readIdx := CountTransactions l |}
  = (Return (inl ingest.EOF),
     {| ingest.lcm := l; ingest.envelopesByHash := m;
        ingest.readIdx := CountTransactions l |}).
Proof. unfold ingest.Read. cbn. rewrite Z.leb_refl. reflexivity. Qed.

Lemma Read_at l m pre p rest :
  TxProcessing l = pre ++ p :: rest ->
  ingest.Read {| ingest.lcm := l; ingest.envelopesByHash := m;
                 ingest.readIdx := Z.of_nat (length pre) |}
  = (match ingest.lookupEnvelope m (TransactionHash (TxResult p)) with
     | None => Return (inl (ingest.ErrUnknownTxHash (TransactionHash (TxResult p))))
     | Some envelope =>
         if V (TxApplyProcessing p) =? 3
         then Return (inr {| ingest.Index := U32.wrap (Z.of_nat (length pre) + 1);
                             ingest.Envelope := envelope;
                             ingest.Result := TxResult p;
                             ingest.UnsafeMeta := TxApplyProcessing p |})
         else Panic TransactionMetaUnavailable
     end,
     {| ingest.lcm := l; ingest.envelopesByHash := m;
        ingest.readIdx := Z.of_nat (length (pre ++ [p])) |}).
Proof.
  intros Htxs. unfold ingest.Read, CountTransactions. cbn. rewrite Htxs.
  rewrite !length_app. cbn [length].
  destruct (Z.leb_spec (Z.of_nat (length pre + S (length rest))) (Z.of_nat (length pre)))
    as [Hle | _]; [lia |].
  rewrite Nat2Z.id, nth_error_app2 by lia. rewrite Nat.sub_diag. cbn.
  replace (Z.of_nat (length pre + 1)) with (Z.of_nat (length pre) + 1) by lia.
  destruct (ingest.lookupEnvelope m (TransactionHash (TxResult p))); [| reflexivity].
  destruct (V (TxApplyProcessing p) =? 3); reflexivity.
Qed.

Lemma noFaults_next s : spec.noFaults s -> nextFails s = false.
Proof.
  unfold spec.noFaults, nextFails. intros Hok.
  destruct (io_script s) as [| b bs]; [reflexivity |].
  inversion Hok; subst. reflexivity.
Qed.

Lemma noFaults_tick s rows : spec.noFaults s -> spec.noFaults (setEvents (tick s) rows).
Proof.
  unfold spec.noFaults. cbn. intros Hok.
  destruct (io_script s) as [| b bs]; [constructor |].
  inversion Hok; subst. assumption.
Qed.

Lemma valuesOf_rows l i envelope p txEvents :
  Z.of_nat i + 1 < U32.modulus ->
  Successful (TxResult p) = true ->
  GetDiagnosticEvents (TxApplyProcessing p) = Some txEvents ->
  valuesOf l {| ingest.Index := U32.wrap (Z.of_nat i + 1);
                ingest.Envelope := envelope;
                ingest.Result := TxResult p;
                ingest.UnsafeMeta := TxApplyProcessing p |} txEvents
  = spec.rowsOfTransaction l i p.
Proof.
  intros Hi Hsucc Hdiag. unfold valuesOf, spec.rowsOfTransaction.
  rewrite Hsucc, Hdiag. cbn.
  rewrite wrap_small by (unfold U32.in_range; lia). reflexivity.
Qed.

Lemma rowsOfTransaction_unsuccessful l i p :
  Successful (TxResult p) = false -> spec.rowsOfTransaction l i p = [].
Proof. intros Hfail. unfold spec.rowsOfTransaction. rewrite Hfail. reflexivity. Qed.

Lemma rowsOfTransaction_per_event l i p txEvents :
  Successful (TxResult p) = true ->
  GetDiagnosticEvents (TxApplyProcessing p) = Some txEvents ->
  length (spec.rowsOfTransaction l i p) = length txEvents
  /\ Forall (fun r => ledger_sequence r = LedgerSequence l
                      /\ application_order r = Z.of_nat i + 1)
            (spec.rowsOfTransaction l i p).
Proof.
  intros Hsucc Hdiag. unfold spec.rowsOfTransaction. rewrite Hsucc, Hdiag. cbn.
  split; [apply length_map |].
  apply List.Forall_forall. intros r Hr. apply in_map_iff in Hr.
  destruct Hr as (e & <- & _). split; reflexivity.
Qed.

(** A meta of version 3 always yields its diagnostic events. *)
Lemma GetDiagnosticEvents_version3 (t : TransactionMeta) :
  V t = 3 -> GetDiagnosticEvents t <> None.
Proof.
  intros Hv. unfold GetDiagnosticEvents. rewrite Hv. cbn.
  destruct (SorobanMeta t) as [sorobanMeta |]; [| discriminate].
  destruct (DiagnosticEvents sorobanMeta); discriminate.
Qed.


(** The loop from the transaction after [pre] on: it ends within
    [length rest + 1] iterations, never touches the ledger table, and
    when it returns no error it has appended the rows of [rest]. On a
    readable ledger and without I/O errors it returns no error when the
    metas have version 3 and panics when one has another version; it
    panics in no other case. *)
Lemma insertLoop_rows (h : eventHandler) (l : LedgerCloseMeta) m cache :
  stmtCache h = Some cache ->
  CountTransactions l < U32.modulus ->
  forall rest pre fuel s,
    TxProcessing l = pre ++ rest ->
    (length rest < fuel)%nat ->
    exists r s',
      insertLoop fuel h l
        {| ingest.lcm := l; ingest.envelopesByHash := m;
           ingest.readIdx := Z.of_nat (length pre) |} s = Some (r, s')
      /\ ledger_close_meta s' = ledger_close_meta s
      /\ (r = Return None -> events s' = events s ++ spec.rowsFrom l (length pre) rest)
      /\ ((forall p, In p rest ->
                     ingest.lookupEnvelope m (TransactionHash (TxResult p)) <> None) ->
          spec.noFaults s ->
          ((forall p, In p rest -> V (TxApplyProcessing p) = 3) -> r = Return None)
          /\ ((exists q, In q rest /\ V (TxApplyProcessing q) <> 3) ->
              r = Panic TransactionMetaUnavailable))
      /\ (forall pn, r = Panic pn ->
            pn = TransactionMetaUnavailable
            /\ exists q, In q rest /\ V (TxApplyProcessing q) <> 3).
Proof.
  intros Hcache Hcount.
  induction rest as [| p rest IH]; intros pre fuel s Htxs Hfuel.
  - destruct fuel as [| fuel]; [cbn in Hfuel; lia |].
    assert (Hend : Z.of_nat (length pre) = CountTransactions l).
    { unfold CountTransactions. rewrite Htxs, app_nil_r. reflexivity. }
    cbn [insertLoop]. rewrite Hend, Read_at_end.
    exists (Return None), s. cbn. rewrite app_nil_r.
    split; [reflexivity |]. split; [reflexivity |]. split; [reflexivity |].
    split; [| discriminate].
    intros _ _. split; [reflexivity |]. intros (q & [] & _).
  - destruct fuel as [| fuel]; [cbn in Hfuel; lia |].
    cbn [length] in Hfuel.
    assert (Hidx : Z.of_nat (length pre) + 1 < U32.modulus).
    { unfold CountTransactions in Hcount. rewrite Htxs, length_app in Hcount.
      cbn [length] in Hcount. lia. }
    assert (Htxs' : TxProcessing l = (pre ++ [p]) ++ rest)
      by (rewrite <- app_assoc; exact Htxs).
    assert (Hlen : length (pre ++ [p]) = S (length pre))
      by (rewrite length_app; cbn; lia).
    assert (Hlater : forall (r : outcome (option error)) (pn : panic),
               (r = Panic pn ->
                pn = TransactionMetaUnavailable
                /\ exists q, In q rest /\ V (TxApplyProcessing q) <> 3) ->
               r = Panic pn ->
               pn = TransactionMetaUnavailable
               /\ exists q, In q (p :: rest) /\ V (TxApplyProcessing q) <> 3).
    { intros r pn Hrest Hr. destruct (Hrest Hr) as (Hpn & q & Hq & Hv).
      split; [exact Hpn |]. exists q. split; [right; exact Hq | exact Hv]. }
    assert (Hgoes : forall (r : outcome (option error)) (s1 : Session),
               V (TxApplyProcessing p) = 3 ->
               ((forall q, In q rest ->
                           ingest.lookupEnvelope m (TransactionHash (TxResult q)) <> None) ->
                spec.noFaults s1 ->
                ((forall q, In q rest -> V (TxApplyProcessing q) = 3) -> r = Return None)
                /\ ((exists q, In q rest /\ V (TxApplyProcessing q) <> 3) ->
                    r = Panic TransactionMetaUnavailable)) ->
               spec.noFaults s1 ->
               (forall q, In q (p :: rest) ->
                          ingest.lookupEnvelope m (TransactionHash (TxResult q)) <> None) ->
               ((forall q, In q (p :: rest) -> V (TxApplyProcessing q) = 3) -> r = Return None)
               /\ ((exists q, In q (p :: rest) /\ V (TxApplyProcessing q) <> 3) ->
                   r = Panic TransactionMetaUnavailable)).
    { intros r s1 Hv Hrest Hio Hread.
      destruct (Hrest (fun q Hq => Hread q (or_intror Hq)) Hio) as (Hgood & Hbad).
      split.
      - intros Hthree. apply Hgood. intros q Hq. apply Hthree. right. exact Hq.
      - intros (q & [<- | Hq] & Hother); [contradiction |].
        apply Hbad. exists q. split; assumption. }
    cbn [insertLoop]. rewrite (Read_at l m pre p rest Htxs).
    cbn [spec.rowsFrom].
    destruct (ingest.lookupEnvelope m (TransactionHash (TxResult p))) as [envelope |] eqn:Henv.
    2:{ exists (Return (Some (ErrRead (ingest.ErrUnknownTxHash (TransactionHash (TxResult p)))))), s.
        split; [reflexivity |]. split; [reflexivity |]. split; [discriminate |].
        split; [| discriminate].
        intros Hread _. exfalso. apply (Hread p); [left; reflexivity | exact Henv]. }
    destruct (Z.eqb_spec (V (TxApplyProcessing p)) 3) as [Hv | Hv].
    2:{ exists (Panic TransactionMetaUnavailable), s.
        split; [reflexivity |]. split; [reflexivity |]. split; [discriminate |]. split.
        - intros _ _. split; [| reflexivity].
          intros Hthree. exfalso. apply Hv. apply Hthree. left. reflexivity.
        - intros pn Hpn. inversion Hpn. split; [reflexivity |].
          exists p. split; [left; reflexivity | exact Hv]. }
    cbn [ingest.Result].
    destruct (Successful (TxResult p)) eqn:Hsucc; cbn [negb].
    2:{ destruct (IH (pre ++ [p]) fuel s Htxs' ltac:(lia))
          as (r & s' & Hrun & Hlcm & Hrows & Hok & Hpanic).
        exists r, s'. rewrite Hrun. rewrite Hlen in Hrows.
        unfold spec.rowsOfTransaction. rewrite Hsucc. cbn [app].
        split; [reflexivity |]. split; [exact Hlcm |]. split; [exact Hrows |]. split.
        - intros Hread Hio. apply (Hgoes r s Hv Hok Hio Hread).
        - intros pn. apply Hlater. apply Hpanic. }
    unfold ingest.GetDiagnosticEvents. cbn [ingest.UnsafeMeta].
    destruct (GetDiagnosticEvents (TxApplyProcessing p)) as [txEvents |] eqn:Hdiag.
    2:{ exfalso. apply (GetDiagnosticEvents_version3 _ Hv). exact Hdiag. }
    destruct (Nat.eqb_spec (length txEvents) 0) as [Hzero | Hsome].
    + destruct (IH (pre ++ [p]) fuel s Htxs' ltac:(lia))
        as (r & s' & Hrun & Hlcm & Hrows & Hok & Hpanic).
      exists r, s'. rewrite Hrun. rewrite Hlen in Hrows.
      unfold spec.rowsOfTransaction. rewrite Hsucc, Hdiag.
      destruct txEvents; [| discriminate]. cbn [default map app].
      split; [reflexivity |]. split; [exact Hlcm |]. split; [exact Hrows |]. split.
      * intros Hread Hio. apply (Hgoes r s Hv Hok Hio Hread).
      * intros pn. apply Hlater. apply Hpanic.
    + rewrite (valuesOf_rows l (length pre) envelope p txEvents Hidx Hsucc Hdiag).
      unfold execInsert. rewrite Hcache.
      destruct (nextFails s) eqn:Hnext.
      * exists (Return (Some ErrExec)), (tick s).
        split; [reflexivity |]. split; [reflexivity |]. split; [discriminate |].
        split; [| discriminate].
        intros _ Hio. rewrite (noFaults_next s Hio) in Hnext. discriminate.
      * set (s1 := setEvents (tick s) (events s ++ spec.rowsOfTransaction l (length pre) p)).
        destruct (IH (pre ++ [p]) fuel s1 Htxs' ltac:(lia))
          as (r & s' & Hrun & Hlcm & Hrows & Hok & Hpanic).
        exists r, s'. rewrite Hrun. rewrite Hlen in Hrows.
        split; [reflexivity |]. split; [rewrite Hlcm; reflexivity |]. split; [| split].
        -- intros Hr. rewrite (Hrows Hr). subst s1. cbn. rewrite <- app_assoc. reflexivity.
        -- intros Hread Hio. apply (Hgoes r s1 Hv Hok); [| exact Hread].
           subst s1. apply noFaults_tick. exact Hio.
        -- intros pn. apply Hlater. apply Hpanic.
Qed.


End InsertEvents.


(** The reader panics on a meta of version 1, and nothing was written. *)
Example InsertEvents_panics_on_meta_version_1 :
  db.InsertEvents fixtures.HashTransactionInEnvelope fixtures.writer behaviour.metaVersion1
    (fixtures.ledgerOnly behaviour.metaVersion1)
  = Some (Panic TransactionMetaUnavailable, fixtures.ledgerOnly behaviour.metaVersion1).
Proof. vm_compute. reflexivity. Qed.

Lemma InsertEvents_needs_stmtCache_witness :
  let reader := db.NewEventReader db.DefaultLogger db.DBSession "passphrase" in
  let writer := {| db.log := db.DefaultLogger; db.db := db.DBSession;
                   db.stmtCache := Some db.NewStmtCache; db.passphrase := "passphrase";
                   db.ingestMetric := None; db.countMetric := None |} in
  let empty := {| xdr.LedgerSeq := 104; xdr.CloseTime := 2700;
                  xdr.TxSet := []; xdr.TxProcessing := [] |} in
  let s := {| db.events := []; db.ledger_close_meta := []; db.io_script := [] |} in
  db.InsertEvents fixtures.HashTransactionInEnvelope reader (fixtures.txMetaWithEvents 3 true) s
  = Some (Return (Some db.ErrNoStmtCache), s)
  /\ db.InsertEvents fixtures.HashTransactionInEnvelope writer empty s = Some (Return None, s).
Proof.
  intros reader writer empty s. split.
  - apply (proj1 (InsertEvents_needs_stmtCache fixtures.HashTransactionInEnvelope
                    reader (fixtures.txMetaWithEvents 3 true) s)).
    reflexivity.
  - apply (proj2 (proj2 (InsertEvents_needs_stmtCache fixtures.HashTransactionInEnvelope
                           writer empty s))).
    + discriminate.
    + reflexivity.
Defined.

(** ** Hexadecimal strings *)

Section Hex.

Lemma string_pair_ind (P : string -> Prop) :
  P EmptyString ->
  (forall c, P (String c EmptyString)) ->
  (forall c d s, P s -> P (String c (String d s))) ->
  forall s, P s.
Proof.
  intros Hnil Hone Hstep.
  assert (Hboth : forall s, P s /\ forall c, P (String c s)).
  { induction s as [| d s [IHs IHc]].
    - split; [exact Hnil | exact Hone].
    - split; [apply IHc |]. intros c. apply Hstep. exact IHs. }
  intros s. apply Hboth.
Qed.

Lemma isHexString_cons c s :
  spec.isHexString (String c s)
  = match hex.fromHexChar c with Some _ => true | None => false end && spec.isHexString s.
Proof. reflexivity. Qed.

(** Decoding an even-length string of hexadecimal digits succeeds and
    halves the length. *)
Lemma DecodeString_hex s :
  Nat.even (String.length s) = true ->
  spec.isHexString s = true ->
  exists d, hex.DecodeString s = inr d /\ String.length s = (2 * String.length d)%nat.
Proof.
  induction s as [| c | c d s IH] using string_pair_ind; intros Heven Hhex.
  - exists EmptyString. split; reflexivity.
  - discriminate.
  - rewrite !isHexString_cons in Hhex.
    destruct (hex.fromHexChar c) as [a |] eqn:Hc; [| discriminate].
    destruct (hex.fromHexChar d) as [b |] eqn:Hd; [| discriminate].
    destruct (IH Heven Hhex) as (rest & Hrest & Hlen).
    exists (String (ascii_of_N (a * 16 + b)) rest).
    cbn [hex.DecodeString]. rewrite Hc, Hd, Hrest.
    split; [reflexivity |]. cbn [String.length]. lia.
Qed.

(** Decoding an even-length string fails only on a character that is not
    a hexadecimal digit. *)
Lemma DecodeString_not_hex s e :
  Nat.even (String.length s) = true ->
  hex.DecodeString s = inl e ->
  spec.isHexString s = false.
Proof.
  induction s as [| c | c d s IH] using string_pair_ind; intros Heven Hdec.
  - discriminate.
  - discriminate.
  - rewrite !isHexString_cons. cbn [hex.DecodeString] in Hdec.
    destruct (hex.fromHexChar c) as [a |]; [| reflexivity].
    destruct (hex.fromHexChar d) as [b |]; [| reflexivity].
    destruct (hex.DecodeString s) as [e' | rest] eqn:Hrest; [| discriminate].
    cbn. apply (IH Heven Hdec).
Qed.

(** Only strings of hexadecimal digits decode. *)
Lemma DecodeString_inr_hex s :
  forall d, hex.DecodeString s = inr d -> spec.isHexString s = true.
Proof.
  induction s as [| c | c c' s IH] using string_pair_ind; intros d Hdec.
  - reflexivity.
  - cbn in Hdec. destruct (hex.fromHexChar c); discriminate.
  - rewrite !isHexString_cons. cbn [hex.DecodeString] in Hdec.
    destruct (hex.fromHexChar c); [| discriminate].
    destruct (hex.fromHexChar c'); [| discriminate].
    destruct (hex.DecodeString s) as [| rest] eqn:Hrest; [discriminate |].
    cbn. apply (IH rest). reflexivity.
Qed.

(** Decoding a string of odd length fails: on its first character that is
    not a hexadecimal digit when it has one, and for its length otherwise. *)
Lemma DecodeString_odd s :
  Nat.even (String.length s) = false ->
  exists e,
    hex.DecodeString s = inl e
    /\ (spec.isHexString s = true -> e = hex.ErrLength).
Proof.
  induction s as [| c | c d s IH] using string_pair_ind; intros Hodd.
  - discriminate.
  - cbn [hex.DecodeString]. rewrite isHexString_cons.
    destruct (hex.fromHexChar c); eexists; (split; [reflexivity |]);
      [reflexivity | discriminate].
  - destruct (IH Hodd) as (e & He & Hlen).
    cbn [hex.DecodeString]. rewrite !isHexString_cons, He.
    destruct (hex.fromHexChar c); [| eexists; split; [reflexivity | discriminate]].
    destruct (hex.fromHexChar d); [| eexists; split; [reflexivity | discriminate]].
    exists e. split; [reflexivity | exact Hlen].
Qed.

Lemma digit_value n :
  (n < 16)%N -> hex.fromHexChar (hex.digit hex.hextable n) = Some n.
Proof.
  intros Hn. rewrite <- (N2Nat.id n).
  assert (Hk : (N.to_nat n < 16)%nat) by lia.
  revert Hk. generalize (N.to_nat n). clear Hn. intros k Hk.
  do 16 (destruct k as [| k]; [reflexivity |]). lia.
Qed.

(** Decoding undoes encoding. *)
Lemma DecodeString_EncodeToString s :
  hex.DecodeString (hex.EncodeToString s) = inr s.
Proof.
  induction s as [| c s IH]; [reflexivity |].
  cbn [hex.EncodeToString hex.DecodeString].
  assert (Hc : (N_of_ascii c < 256)%N) by apply N_ascii_bounded.
  rewrite !digit_value.
  - rewrite IH. f_equal. f_equal.
    replace (N_of_ascii c / 16 * 16 + N_of_ascii c mod 16)%N with (N_of_ascii c).
    + apply ascii_N_embedding.
    + rewrite N.mul_comm. apply N.div_mod. discriminate.
  - apply N.mod_upper_bound. discriminate.
  - apply N.Div0.div_lt_upper_bound. exact Hc.
Qed.

Lemma EncodeToString_length s :
  String.length (hex.EncodeToString s) = (2 * String.length s)%nat.
Proof. induction s as [| c s IH]; [reflexivity |]. cbn. rewrite IH. lia. Qed.

End Hex.

(** ** The transaction lookup *)

Section GetTransaction.
Import methods.

Variable HashTransactionInEnvelope : xdr.TransactionEnvelope -> string -> option xdr.Hash.

Context {marshalEnvelope : Marshal xdr.TransactionEnvelope}
        {marshalResult : Marshal xdr.TransactionResult}
        {marshalMeta : Marshal xdr.TransactionMeta}
        {marshalEvent : Marshal xdr.DiagnosticEvent}.

Lemma even_64 (s : string) : String.length s = 64%nat -> Nat.even (String.length s) = true.
Proof. intros ->. reflexivity. Qed.

(** The length check lets 64 and 65 characters through, and no other
    number. *)
Lemma DecodedLen_32 (n : nat) :
  (hex.DecodedLen n =? 32)%nat = true <-> n = 64%nat \/ n = 65%nat.
Proof.
  unfold hex.DecodedLen. rewrite Nat.eqb_eq. split.
  - intros Hhalf. pose proof (Nat.div_mod_eq n 2) as Hd.
    pose proof (Nat.mod_upper_bound n 2 ltac:(lia)). lia.
  - intros [-> | ->]; reflexivity.
Qed.

Lemma GetTransaction_wrong_length store request :
  String.length (Hash request) <> 64%nat ->
  String.length (Hash request) <> 65%nat ->
  GetTransaction HashTransactionInEnvelope store request
  = Return (inl (badInput ("unexpected hash length ("
                           +:+ pretty (String.length (Hash request)) +:+ ")"))).
Proof.
  intros H64 H65. unfold GetTransaction.
  destruct (hex.DecodedLen (String.length (Hash request)) =? 32)%nat eqn:Hlen;
    [| reflexivity].
  apply DecodedLen_32 in Hlen. destruct Hlen; contradiction.
Qed.

Lemma GetTransaction_decoded store request :
  String.length (Hash request) = 64%nat \/ String.length (Hash request) = 65%nat ->
  GetTransaction HashTransactionInEnvelope store request
  = match hex.DecodeString (Hash request) with
    | inl err => Return (inl (badInput ("incorrect hash: " +:+ hex.Error err)))
    | inr txHash =>
        match transactions store !! txHash with
        | None => Return (inr (notFound store))
        | Some (sequence, txIndex) =>
            match ledgers store !! sequence with
            | None => Return (inr (notFound store))
            | Some l =>
                match readTransaction HashTransactionInEnvelope (passphrase store) l txIndex with
                | Panic p => Panic p
                | Return (inl _) => Return (inl (corruptData "corrupt ledger close meta"))
                | Return (inr tx) =>
                    match ingest.GetDiagnosticEvents tx with
                    | None => Return (inl (corruptData "corrupt transaction meta"))
                    | Some diagnosticEvents =>
                        Return (inr (found store sequence txIndex l tx diagnosticEvents))
                    end
                end
            end
        end
    end.
Proof.
  intros Hlen. unfold GetTransaction. apply DecodedLen_32 in Hlen. rewrite Hlen. reflexivity.
Qed.

(** A lookup that passes the validation of the hash does not fail with
    the invalid-parameters code. *)
Lemma GetTransaction_valid_not_bad_input store request txHash e :
  String.length (Hash request) = 64%nat ->
  hex.DecodeString (Hash request) = inr txHash ->
  GetTransaction HashTransactionInEnvelope store request = Return (inl e) ->
  jrpc2.Code e = jrpc2.InternalError.
Proof.
  intros Hlen Hdec Hrun.
  rewrite (GetTransaction_decoded store request (or_introl Hlen)), Hdec in Hrun.
  destruct (transactions store !! txHash) as [[sequence txIndex] |]; [| discriminate].
  destruct (ledgers store !! sequence) as [l |]; [| discriminate].
  destruct (readTransaction _ _ l txIndex) as [[err | tx] | pn]; [| | discriminate].
  - inversion Hrun; subst e. reflexivity.
  - destruct (ingest.GetDiagnosticEvents tx); [discriminate |].
    inversion Hrun; subst e. reflexivity.
Qed.

(** A hash of 65 characters reaches the decoder, which refuses it. *)
Lemma GetTransaction_odd_length store request :
  String.length (Hash request) = 65%nat ->
  exists detail,
    hex.DecodeString (Hash request) = inl detail
    /\ (spec.isHexString (Hash request) = true -> detail = hex.ErrLength)
    /\ GetTransaction HashTransactionInEnvelope store request
       = Return (inl (badInput ("incorrect hash: " +:+ hex.Error detail))).
Proof.
  intros Hlen.
  destruct (DecodeString_odd (Hash request)) as (detail & Hdec & Hhex);
    [rewrite Hlen; reflexivity |].
  exists detail. split; [exact Hdec |]. split; [exact Hhex |].
  rewrite (GetTransaction_decoded store request (or_intror Hlen)), Hdec. reflexivity.
Qed.

(** C5 (amended): [GetTransaction] fails with the invalid-parameters code
    -32602 exactly when the hash is malformed, that is, is not 64
    characters long or holds a character that is not a hexadecimal digit.
    A hash of a length [N] other than 64 and 65 gives
    [[-32602] unexpected hash length (N)]. A hash of 64 characters that is
    not hexadecimal, and every hash of 65 characters, gives
    [[-32602] incorrect hash: ] followed by the error text of the
    hexadecimal decoder; for 65 hexadecimal digits that is the text for an
    odd length. *)
Theorem GetTransaction_bad_input (store : TransactionStore) (request : GetTransactionRequest) :
  let n := String.length (Hash request) in
  (n <> 64%nat -> n <> 65%nat ->
   exists e,
     GetTransaction HashTransactionInEnvelope store request = Return (inl e)
     /\ jrpc2.Code e = jrpc2.InvalidParams
     /\ jrpc2.ErrorString e
        = "[-32602] unexpected hash length (" +:+ pretty n +:+ ")")
  /\ (n = 64%nat ->
      spec.isHexString (Hash request) = false ->
      exists e detail,
        hex.DecodeString (Hash request) = inl detail
        /\ GetTransaction HashTransactionInEnvelope store request = Return (inl e)
        /\ jrpc2.Code e = jrpc2.InvalidParams
        /\ jrpc2.ErrorString e = "[-32602] incorrect hash: " +:+ hex.Error detail)
  /\ (n = 65%nat ->
      exists e detail,
        hex.DecodeString (Hash request) = inl detail
        /\ GetTransaction HashTransactionInEnvelope store request = Return (inl e)
        /\ jrpc2.Code e = jrpc2.InvalidParams
        /\ jrpc2.ErrorString e = "[-32602] incorrect hash: " +:+ hex.Error detail
        /\ (spec.isHexString (Hash request) = true ->
            jrpc2.ErrorString e
            = "[-32602] incorrect hash: encoding/hex: odd length hex string"))
  /\ ((exists e, GetTransaction HashTransactionInEnvelope store request = Return (inl e)
                 /\ jrpc2.Code e = jrpc2.InvalidParams)
      <-> (n <> 64%nat \/ spec.isHexString (Hash request) = false)).
Proof.
  intros n. subst n.
  assert (Hdetail : String.length (Hash request) = 64%nat ->
                    spec.isHexString (Hash request) = false ->
                    exists detail, hex.DecodeString (Hash request) = inl detail).
  { intros Hlen Hhex.
    destruct (hex.DecodeString (Hash request)) as [detail | txHash] eqn:Hdec.
    - exists detail. reflexivity.
    - rewrite (DecodeString_inr_hex _ txHash Hdec) in Hhex. discriminate. }
  assert (Hbad : String.length (Hash request) <> 64%nat ->
                 exists e, GetTransaction HashTransactionInEnvelope store request
                           = Return (inl e)
                           /\ jrpc2.Code e = jrpc2.InvalidParams).
  { intros H64.
    destruct (Nat.eq_dec (String.length (Hash request)) 65%nat) as [H65 | H65].
    - destruct (GetTransaction_odd_length store request H65) as (detail & _ & _ & Hrun).
      rewrite Hrun. eexists. split; reflexivity.
    - rewrite (GetTransaction_wrong_length store request H64 H65).
      eexists. split; reflexivity. }
  split; [| split; [| split]].
  - intros H64 H65. rewrite (GetTransaction_wrong_length store request H64 H65).
    eexists. split; [reflexivity |]. split; reflexivity.
  - intros Hlen Hhex. destruct (Hdetail Hlen Hhex) as (detail & Hdec).
    rewrite (GetTransaction_decoded store request (or_introl Hlen)), Hdec.
    exists (badInput ("incorrect hash: " +:+ hex.Error detail)), detail.
    repeat split; reflexivity.
  - intros Hlen.
    destruct (GetTransaction_odd_length store request Hlen) as (detail & Hdec & Hhex & Hrun).
    exists (badInput ("incorrect hash: " +:+ hex.Error detail)), detail.
    split; [exact Hdec |]. split; [exact Hrun |].
    split; [reflexivity |]. split; [reflexivity |].
    intros Hdigits. rewrite (Hhex Hdigits). reflexivity.
  - split.
    + intros (e & Hrun & Hcode).
      destruct (Nat.eq_dec (String.length (Hash request)) 64%nat) as [Hlen | Hlen];
        [right | left; exact Hlen].
      destruct (hex.DecodeString (Hash request)) as [detail | txHash] eqn:Hdec.
      * apply (DecodeString_not_hex _ detail (even_64 _ Hlen) Hdec).
      * rewrite (GetTransaction_valid_not_bad_input store request txHash e Hlen Hdec Hrun)
          in Hcode.
        discriminate.
    + intros [Hlen | Hhex].
      * apply Hbad. exact Hlen.
      * destruct (Nat.eq_dec (String.length (Hash request)) 64%nat) as [Hlen | Hlen].
        -- destruct (Hdetail Hlen Hhex) as (detail & Hdec).
           rewrite (GetTransaction_decoded store request (or_introl Hlen)), Hdec.
           eexists. split; reflexivity.
        -- apply Hbad. exact Hlen.
Qed.

(** *** The bounds of the ledger store *)

Lemma fold_min_In k ks : In (fold_right Z.min k ks) (k :: ks).
Proof.
  induction ks as [| a ks IH]; [left; reflexivity |]. cbn [fold_right].
  destruct (Z.min_spec a (fold_right Z.min k ks)) as [[_ ->] | [_ ->]].
  - right. left. reflexivity.
  - destruct IH as [IH | IH]; [left; exact IH | right; right; exact IH].
Qed.

Lemma fold_min_le k ks x : In x (k :: ks) -> fold_right Z.min k ks <= x.
Proof.
  induction ks as [| a ks IH]; intros Hin.
  - destruct Hin as [<- | []]. cbn. lia.
  - cbn [fold_right]. destruct Hin as [<- | [<- | Hin]].
    + pose proof (IH (or_introl eq_refl)). lia.
    + lia.
    + pose proof (IH (or_intror Hin)). lia.
Qed.

Lemma fold_max_In k ks : In (fold_right Z.max k ks) (k :: ks).
Proof.
  induction ks as [| a ks IH]; [left; reflexivity |]. cbn [fold_right].
  destruct (Z.max_spec a (fold_right Z.max k ks)) as [[_ ->] | [_ ->]].
  - destruct IH as [IH | IH]; [left; exact IH | right; right; exact IH].
  - right. left. reflexivity.
Qed.

Lemma fold_max_ge k ks x : In x (k :: ks) -> x <= fold_right Z.max k ks.
Proof.
  induction ks as [| a ks IH]; intros Hin.
  - destruct Hin as [<- | []]. cbn. lia.
  - cbn [fold_right]. destruct Hin as [<- | [<- | Hin]].
    + pose proof (IH (or_introl eq_refl)). lia.
    + lia.
    + pose proof (IH (or_intror Hin)). lia.
Qed.

Lemma stored_sequences (m : gmap Z xdr.LedgerCloseMeta) (k : Z) :
  In k (map fst (map_to_list m)) <-> exists l, m !! k = Some l.
Proof.
  rewrite in_map_iff. split.
  - intros ([k' l] & <- & Hin). exists l.
    apply elem_of_map_to_list, list_elem_of_In. exact Hin.
  - intros (l & Hl). exists (k, l). split; [reflexivity |].
    apply list_elem_of_In, elem_of_map_to_list. exact Hl.
Qed.

(** The bounds are the smallest and the largest sequence under which the
    store holds a ledger. *)
Lemma Bounds_Some store oldest latest :
  Bounds store = Some (oldest, latest) ->
  (exists l, ledgers store !! oldest = Some l)
  /\ (exists l, ledgers store !! latest = Some l)
  /\ forall sequence l, ledgers store !! sequence = Some l -> oldest <= sequence <= latest.
Proof.
  unfold Bounds.
  destruct (map fst (map_to_list (ledgers store))) as [| k ks] eqn:Hkeys; [discriminate |].
  intros Hb. inversion Hb; subst oldest latest. clear Hb.
  split; [| split].
  - apply stored_sequences. rewrite Hkeys. apply fold_min_In.
  - apply stored_sequences. rewrite Hkeys. apply fold_max_In.
  - intros sequence l Hl.
    assert (Hin : In sequence (k :: ks))
      by (rewrite <- Hkeys; apply stored_sequences; exists l; exact Hl).
    split; [apply fold_min_le | apply fold_max_ge]; exact Hin.
Qed.

Lemma Bounds_nonempty store sequence l :
  ledgers store !! sequence = Some l -> Bounds store <> None.
Proof.
  intros Hl. unfold Bounds.
  destruct (map_to_list (ledgers store)) as [| kv kvs] eqn:Hlist; [| discriminate].
  apply map_to_list_empty_iff in Hlist. rewrite Hlist, lookup_empty in Hl. discriminate.
Qed.

(** The four observability fields of a response built over [store]: zero
    on an empty store; otherwise the smallest and the largest stored
    sequence, each with the close time of the ledger stored under it. *)
Lemma observability_fields store (latest latestCloseTime oldest oldestCloseTime : Z) :
  latest = snd (default (0, 0) (Bounds store)) ->
  latestCloseTime = closeTimeAt store latest ->
  oldest = fst (default (0, 0) (Bounds store)) ->
  oldestCloseTime = closeTimeAt store oldest ->
  (ledgers store = ∅ ->
   latest = 0 /\ oldest = 0 /\ latestCloseTime = 0 /\ oldestCloseTime = 0)
  /\ (ledgers store <> ∅ ->
      Bounds store = Some (oldest, latest)
      /\ exists first last,
           ledgers store !! oldest = Some first
           /\ ledgers store !! latest = Some last
           /\ oldestCloseTime = xdr.LedgerCloseTime first
           /\ latestCloseTime = xdr.LedgerCloseTime last
           /\ forall sequence l,
                ledgers store !! sequence = Some l -> oldest <= sequence <= latest).
Proof.
  intros -> -> -> ->. split.
  - intros Hempty. unfold Bounds, closeTimeAt. rewrite Hempty.
    rewrite map_to_list_empty. cbn. rewrite lookup_empty. repeat split.
  - intros Hsome.
    destruct (Bounds store) as [[oldest latest] |] eqn:Hb.
    + destruct (Bounds_Some store oldest latest Hb) as ((first & Hfirst) & (last & Hlast) & Hall).
      cbn [from_option id fst snd]. split; [reflexivity |].
      exists first, last. unfold closeTimeAt. rewrite Hfirst, Hlast.
      repeat split; try reflexivity; apply (Hall _ _ H).
    + exfalso. apply Hsome. unfold Bounds in Hb.
      destruct (map_to_list (ledgers store)) as [| kv kvs] eqn:Hlist; [| discriminate].
      apply map_to_list_empty_iff. exact Hlist.
Qed.

(** C6: for a hash of 64 hexadecimal characters that the transaction
    index does not hold, [GetTransaction] answers without error with
    status [NOT_FOUND]. The latest and oldest ledger and their close times
    are all zero when the ledger store is empty; otherwise the oldest and
    the latest ledger are the smallest and the largest sequence under
    which the store holds a ledger (its bounds), and the two close times
    are the close times of the ledgers stored under them. The fields of
    the transaction are left out (at their zero value, the list of events
    nil). *)
Theorem GetTransaction_not_found (store : TransactionStore) (request : GetTransactionRequest) :
  String.length (Hash request) = 64%nat ->
  spec.isHexString (Hash request) = true ->
  (forall txHash,
     hex.DecodeString (Hash request) = inr txHash -> transactions store !! txHash = None) ->
  exists r,
    GetTransaction HashTransactionInEnvelope store request = Return (inr r)
    /\ Status r = TransactionStatusNotFound
    /\ (ledgers store = ∅ ->
        LatestLedger r = 0 /\ OldestLedger r = 0
        /\ LatestLedgerCloseTime r = 0 /\ OldestLedgerCloseTime r = 0)
    /\ (ledgers store <> ∅ ->
        Bounds store = Some (OldestLedger r, LatestLedger r)
        /\ exists first last,
             ledgers store !! OldestLedger r = Some first
             /\ ledgers store !! LatestLedger r = Some last
             /\ OldestLedgerCloseTime r = xdr.LedgerCloseTime first
             /\ LatestLedgerCloseTime r = xdr.LedgerCloseTime last
             /\ forall sequence l,
                  ledgers store !! sequence = Some l ->
                  OldestLedger r <= sequence <= LatestLedger r)
    /\ ApplicationOrder r = 0 /\ FeeBump r = false
    /\ EnvelopeXdr r = "" /\ ResultXdr r = "" /\ ResultMetaXdr r = ""
    /\ Ledger r = 0 /\ LedgerCloseTime r = 0
    /\ DiagnosticEventsXDR r = None.
Proof.
  intros Hlen Hhex Habsent.
  destruct (DecodeString_hex (Hash request) (even_64 _ Hlen) Hhex) as (txHash & Hdec & _).
  exists (notFound store).
  rewrite (GetTransaction_decoded store request (or_introl Hlen)), Hdec, (Habsent txHash Hdec).
  split; [reflexivity |]. split; [reflexivity |].
  destruct (observability_fields store
              (LatestLedger (notFound store)) (LatestLedgerCloseTime (notFound store))
              (OldestLedger (notFound store)) (OldestLedgerCloseTime (notFound store))
              eq_refl eq_refl eq_refl eq_refl) as (Hzero & Hsome).
  split; [exact Hzero |]. split; [exact Hsome |]. repeat split.
Qed.

(** *** Ingested transactions *)

Lemma lookupEnvelope_cons k e m h :
  ingest.lookupEnvelope ((k, e) :: m) h
  = if String.eqb k h then Some e else ingest.lookupEnvelope m h.
Proof. reflexivity. Qed.

(** Every envelope the reader indexes comes from the transaction set and
    hashes to its key. *)
Lemma storeTransactions_sound pass txs :
  forall acc m,
    ingest.storeTransactions HashTransactionInEnvelope pass txs acc = Some m ->
    forall k e,
      ingest.lookupEnvelope m k = Some e ->
      ingest.lookupEnvelope acc k = Some e
      \/ (In e txs /\ HashTransactionInEnvelope e pass = Some k).
Proof.
  induction txs as [| tx txs IH]; intros acc m Hstore k e Hlook.
  - cbn in Hstore. inversion Hstore; subst m. left. exact Hlook.
  - cbn in Hstore.
    destruct (HashTransactionInEnvelope tx pass) as [h |] eqn:Hh; [| discriminate].
    destruct (IH _ _ Hstore k e Hlook) as [Hacc | [Hin Hk]].
    + rewrite lookupEnvelope_cons in Hacc.
      destruct (String.eqb_spec h k) as [-> | Hne].
      * inversion Hacc; subst e. right. split; [left; reflexivity | exact Hh].
      * left. exact Hacc.
    + right. split; [right; exact Hin | exact Hk].
Qed.

(** What a successful decoding of the [txIndex]'th transaction returns. *)
Lemma readTransaction_inr pass l txIndex tx :
  readTransaction HashTransactionInEnvelope pass l txIndex = Return (inr tx) ->
  exists m p,
    ingest.storeTransactions HashTransactionInEnvelope pass (xdr.TxSet l) [] = Some m
    /\ 1 <= txIndex <= xdr.CountTransactions l
    /\ nth_error (xdr.TxProcessing l) (Z.to_nat (txIndex - 1)) = Some p
    /\ ingest.lookupEnvelope m (xdr.TransactionHash (xdr.TxResult p))
       = Some (ingest.Envelope tx)
    /\ ingest.Index tx = U32.wrap txIndex
    /\ ingest.Result tx = xdr.TxResult p
    /\ ingest.UnsafeMeta tx = xdr.TxApplyProcessing p.
Proof.
  unfold readTransaction, ingest.NewLedgerTransactionReaderFromLedgerCloseMeta.
  destruct (ingest.storeTransactions _ pass (xdr.TxSet l) []) as [m |]; [| discriminate].
  unfold ingest.Seek. cbn [ingest.lcm ingest.envelopesByHash].
  destruct (Z.leb_spec (xdr.CountTransactions l) (txIndex - 1)) as [| Hlt]; [discriminate |].
  destruct (Z.ltb_spec (txIndex - 1) 0) as [| Hge]; [discriminate |].
  cbn [orb]. unfold ingest.Read. cbn [ingest.lcm ingest.envelopesByHash ingest.readIdx].
  destruct (Z.leb_spec (xdr.CountTransactions l) (txIndex - 1)) as [| _]; [lia |].
  destruct (nth_error (xdr.TxProcessing l) (Z.to_nat (txIndex - 1))) as [p |] eqn:Hp;
    [| discriminate].
  destruct (ingest.lookupEnvelope m (xdr.TransactionHash (xdr.TxResult p)))
    as [envelope |] eqn:Henv; [| discriminate].
  destruct (xdr.V (xdr.TxApplyProcessing p) =? 3); [| discriminate].
  cbn. intros Htx. inversion Htx; subst tx. cbn.
  exists m, p. replace (txIndex - 1 + 1) with txIndex by lia.
  repeat split; try assumption; try reflexivity; lia.
Qed.

(** Indexing succeeds only when every listed transaction decodes. *)
Lemma insertRows_reads pass l indices :
  forall rows0 rows,
    insertRows HashTransactionInEnvelope pass l indices rows0 = Return (inr rows) ->
    forall i, In i indices ->
      exists tx, readTransaction HashTransactionInEnvelope pass l (Z.of_nat i) = Return (inr tx).
Proof.
  induction indices as [| j indices IH]; intros rows0 rows Hrun i Hin; [destruct Hin |].
  cbn in Hrun.
  destruct (readTransaction _ pass l (Z.of_nat j)) as [[| tx] |] eqn:Hread;
    [discriminate | | discriminate].
  destruct Hin as [<- | Hin]; [exists tx; exact Hread | apply (IH _ _ Hrun i Hin)].
Qed.

(** Indexing leaves the row of a hash that no listed transaction has. *)
Lemma insertRows_frame pass l indices (k : string) :
  forall (rows0 rows : gmap string (Z * Z)),
    insertRows HashTransactionInEnvelope pass l indices rows0 = Return (inr rows) ->
    (forall i tx, In i indices ->
       readTransaction HashTransactionInEnvelope pass l (Z.of_nat i) = Return (inr tx) ->
       xdr.TransactionHash (ingest.Result tx) <> k) ->
    rows !! k = rows0 !! k.
Proof.
  induction indices as [| j indices IH]; intros rows0 rows Hrun Hother.
  - cbn in Hrun. inversion Hrun. reflexivity.
  - cbn in Hrun.
    destruct (readTransaction _ pass l (Z.of_nat j)) as [[| tx] |] eqn:Hread;
    [discriminate | | discriminate].
    rewrite (IH _ _ Hrun).
    + apply lookup_insert_ne. apply (Hother j tx); [left; reflexivity | exact Hread].
    + intros i tx' Hin. apply Hother. right. exact Hin.
Qed.

(** Indexing maps a hash to the position of the transactions that have
    it, when they all sit at one position. *)
Lemma insertRows_lookup pass l indices (k : string) (txIndex : Z) :
  forall (rows0 rows : gmap string (Z * Z)),
    insertRows HashTransactionInEnvelope pass l indices rows0 = Return (inr rows) ->
    (forall i tx, In i indices ->
       readTransaction HashTransactionInEnvelope pass l (Z.of_nat i) = Return (inr tx) ->
       xdr.TransactionHash (ingest.Result tx) = k ->
       ingest.Index tx = txIndex) ->
    (rows0 !! k = Some (xdr.LedgerSequence l, txIndex)
     \/ exists i tx, In i indices
          /\ readTransaction HashTransactionInEnvelope pass l (Z.of_nat i) = Return (inr tx)
          /\ xdr.TransactionHash (ingest.Result tx) = k) ->
    rows !! k = Some (xdr.LedgerSequence l, txIndex).
Proof.
  induction indices as [| j indices IH]; intros rows0 rows Hrun Hsame Hsome.
  - cbn in Hrun. inversion Hrun; subst rows.
    destruct Hsome as [Hrow | (i & tx & [] & _)]. exact Hrow.
  - cbn in Hrun.
    destruct (readTransaction _ pass l (Z.of_nat j)) as [[| tx] |] eqn:Hread;
    [discriminate | | discriminate].
    apply (IH _ _ Hrun).
    + intros i tx' Hin. apply Hsame. right. exact Hin.
    + destruct (String.eqb_spec (xdr.TransactionHash (ingest.Result tx)) k) as [Hk | Hk].
      * left. rewrite Hk, lookup_insert_eq.
        rewrite (Hsame j tx (or_introl eq_refl) Hread Hk). reflexivity.
      * rewrite lookup_insert_ne by exact Hk.
        destruct Hsome as [Hrow | (i & tx' & [<- | Hin] & Hread' & Hk')].
        -- left. exact Hrow.
        -- rewrite Hread in Hread'. inversion Hread'; subst tx'. contradiction.
        -- right. exists i, tx'. repeat split; assumption.
Qed.

Lemma Ingest_inr l store store' :
  Ingest HashTransactionInEnvelope l store = Return (inr store') ->
  passphrase store' = passphrase store
  /\ ledgers store' = <[xdr.LedgerSequence l := l]> (ledgers store)
  /\ insertRows HashTransactionInEnvelope (passphrase store) l
       (seq 1 (length (xdr.TxProcessing l))) (transactions store)
     = Return (inr (transactions store')).
Proof.
  unfold Ingest, InsertTransactions, Upsert. cbn.
  destruct (insertRows _ (passphrase store) l _ (transactions store)) as [[| rows] |];
    [discriminate | | discriminate].
  intros Hrun. inversion Hrun; subst store'. cbn. repeat split.
Qed.

(** Ingesting a ledger stores it and indexes each of its transactions
    whose hash no other transaction of the ledger has. *)
Lemma Ingest_indexes l store store' i p :
  Ingest HashTransactionInEnvelope l store = Return (inr store') ->
  xdr.CountTransactions l < U32.modulus ->
  nth_error (xdr.TxProcessing l) i = Some p ->
  (forall j p', nth_error (xdr.TxProcessing l) j = Some p' ->
                xdr.TransactionHash (xdr.TxResult p') = xdr.TransactionHash (xdr.TxResult p) ->
                j = i) ->
  transactions store' !! xdr.TransactionHash (xdr.TxResult p)
  = Some (xdr.LedgerSequence l, Z.of_nat i + 1)
  /\ ledgers store' !! xdr.LedgerSequence l = Some l
  /\ exists tx,
       readTransaction HashTransactionInEnvelope (passphrase store) l (Z.of_nat i + 1) = Return (inr tx).
Proof.
  intros Hrun Hcount Hp Huniq.
  destruct (Ingest_inr l store store' Hrun) as (_ & Hledgers & Hrows).
  assert (Hi : (i < length (xdr.TxProcessing l))%nat)
    by (apply nth_error_Some; rewrite Hp; discriminate).
  assert (Hin : In (S i) (seq 1 (length (xdr.TxProcessing l)))) by (apply in_seq; lia).
  destruct (insertRows_reads _ _ _ _ _ Hrows (S i) Hin) as (tx & Hread).
  assert (Hsucc : Z.of_nat (S i) = Z.of_nat i + 1) by lia.
  split; [| split].
  - apply (insertRows_lookup _ _ _ _ _ _ _ Hrows).
    + intros j tx' Hj Hread' Hk.
      destruct (readTransaction_inr _ _ _ _ Hread')
        as (m & p' & _ & Hrange & Hp' & _ & Hindex & Hresult & _).
      rewrite Hresult in Hk. pose proof (Huniq _ _ Hp' Hk) as Hji.
      rewrite Hindex. rewrite wrap_small by (unfold U32.in_range; lia). lia.
    + right. exists (S i), tx. split; [exact Hin |]. split; [exact Hread |].
      destruct (readTransaction_inr _ _ _ _ Hread)
        as (m & p' & _ & _ & Hp' & _ & _ & Hresult & _).
      replace (Z.to_nat (Z.of_nat (S i) - 1)) with i in Hp' by lia.
      rewrite Hp in Hp'. inversion Hp'; subst p'. rewrite Hresult. reflexivity.
  - rewrite Hledgers. apply lookup_insert_eq.
  - exists tx. rewrite <- Hsucc. exact Hread.
Qed.

(** Ingesting another ledger keeps the row of a hash it does not contain
    and the entry of every other ledger sequence. *)
Lemma Ingest_frame l store store' (k : string) (sequence : Z) :
  Ingest HashTransactionInEnvelope l store = Return (inr store') ->
  xdr.LedgerSequence l <> sequence ->
  (forall j p', nth_error (xdr.TxProcessing l) j = Some p' ->
                xdr.TransactionHash (xdr.TxResult p') <> k) ->
  transactions store' !! k = transactions store !! k
  /\ ledgers store' !! sequence = ledgers store !! sequence.
Proof.
  intros Hrun Hseq Hother.
  destruct (Ingest_inr l store store' Hrun) as (_ & Hledgers & Hrows).
  split.
  - apply (insertRows_frame _ _ _ _ _ _ Hrows).
    intros j tx _ Hread.
    destruct (readTransaction_inr _ _ _ _ Hread)
      as (m & p' & _ & _ & Hp' & _ & _ & Hresult & _).
    rewrite Hresult. apply (Hother _ _ Hp').
  - rewrite Hledgers. apply lookup_insert_ne. exact Hseq.
Qed.

Lemma IngestAll_passphrase stream :
  forall store0 store,
    IngestAll HashTransactionInEnvelope stream store0 = Return (inr store) ->
    passphrase store = passphrase store0.
Proof.
  induction stream as [| l0 stream IH]; intros store0 store Hrun.
  - cbn in Hrun. inversion Hrun. reflexivity.
  - cbn in Hrun.
    destruct (Ingest _ l0 store0) as [[| store1] |] eqn:Hone; [discriminate | | discriminate].
    rewrite (IH _ _ Hrun). apply (Ingest_inr _ _ _ Hone).
Qed.

Lemma IngestAll_frame stream (k : string) (sequence : Z) :
  forall store0 store,
    IngestAll HashTransactionInEnvelope stream store0 = Return (inr store) ->
    (forall l', In l' stream -> xdr.LedgerSequence l' <> sequence) ->
    (forall l' j p', In l' stream -> nth_error (xdr.TxProcessing l') j = Some p' ->
                     xdr.TransactionHash (xdr.TxResult p') <> k) ->
    transactions store !! k = transactions store0 !! k
    /\ ledgers store !! sequence = ledgers store0 !! sequence.
Proof.
  induction stream as [| l0 stream IH]; intros store0 store Hrun Hseq Hother.
  - cbn in Hrun. inversion Hrun. split; reflexivity.
  - cbn in Hrun.
    destruct (Ingest _ l0 store0) as [[| store1] |] eqn:Hone; [discriminate | | discriminate].
    destruct (IH _ _ Hrun) as (Ht & Hl).
    + intros l' Hin. apply Hseq. right. exact Hin.
    + intros l' j p' Hin. apply Hother. right. exact Hin.
    + destruct (Ingest_frame l0 store0 store1 k sequence Hone) as (Ht1 & Hl1).
      * apply Hseq. left. reflexivity.
      * intros j p'. apply Hother. left. reflexivity.
      * rewrite Ht, Hl, Ht1, Hl1. split; reflexivity.
Qed.

(** After a stream of ledgers with distinct sequences was ingested, a
    transaction whose hash occurs once in the stream is indexed at its
    position and its ledger is stored. *)
Lemma IngestAll_indexes stream l i p :
  forall store0 store,
    IngestAll HashTransactionInEnvelope stream store0 = Return (inr store) ->
    List.NoDup (map xdr.LedgerSequence stream) ->
    (forall l', In l' stream -> xdr.CountTransactions l' < U32.modulus) ->
    In l stream ->
    nth_error (xdr.TxProcessing l) i = Some p ->
    (forall l' j p', In l' stream -> nth_error (xdr.TxProcessing l') j = Some p' ->
       xdr.TransactionHash (xdr.TxResult p') = xdr.TransactionHash (xdr.TxResult p) ->
       l' = l /\ j = i) ->
    transactions store !! xdr.TransactionHash (xdr.TxResult p)
    = Some (xdr.LedgerSequence l, Z.of_nat i + 1)
    /\ ledgers store !! xdr.LedgerSequence l = Some l
    /\ exists tx,
         readTransaction HashTransactionInEnvelope (passphrase store0) l (Z.of_nat i + 1)
         = Return (inr tx).
Proof.
  induction stream as [| l0 stream IH]; intros store0 store Hrun Hnodup Hcount Hin Hp Huniq;
    [destruct Hin |].
  cbn in Hrun.
  destruct (Ingest _ l0 store0) as [[| store1] |] eqn:Hone; [discriminate | | discriminate].
  cbn [map] in Hnodup. apply List.NoDup_cons_iff in Hnodup. destruct Hnodup as (Hfresh & Hnodup).
  destruct Hin as [-> | Hin].
  - destruct (Ingest_indexes l store0 store1 i p Hone) as (Ht & Hl & Hread).
    + apply Hcount. left. reflexivity.
    + exact Hp.
    + intros j p' Hp' Hk. apply (Huniq l j p' (or_introl eq_refl) Hp' Hk).
    + destruct (IngestAll_frame stream (xdr.TransactionHash (xdr.TxResult p))
                  (xdr.LedgerSequence l) store1 store Hrun) as (Ht' & Hl').
      * intros l' Hin' Heq. apply Hfresh. rewrite <- Heq. apply in_map. exact Hin'.
      * intros l' j p' Hin' Hp' Hk.
        destruct (Huniq l' j p' (or_intror Hin') Hp' Hk) as (-> & _).
        apply Hfresh. apply in_map. exact Hin'.
      * split; [| split].
        -- etransitivity; [exact Ht' | exact Ht].
        -- etransitivity; [exact Hl' | exact Hl].
        -- exact Hread.
  - destruct (IH store1 store Hrun Hnodup) as (Ht & Hl & Hread).
    + intros l' Hin'. apply Hcount. right. exact Hin'.
    + exact Hin.
    + exact Hp.
    + intros l' j p' Hin'. apply Huniq. right. exact Hin'.
    + destruct (Ingest_inr _ _ _ Hone) as (Hpass & _). rewrite Hpass in Hread.
      repeat split; assumption.
Qed.

(** C7: after a stream of ledgers with distinct sequences was ingested,
    take a transaction of the stream whose 32-byte hash occurs once in it
    and whose meta has a supported version. [GetTransaction] on the
    hexadecimal form of the hash answers without error: the status is
    [SUCCESS] when the result code is a success and [FAILED] otherwise,
    [Ledger] and [ApplicationOrder] are the sequence of its ledger and its
    1-based position, the three XDR fields are the base64 encodings of its
    envelope (the envelope of the transaction set with this hash), result
    and meta, [DiagnosticEventsXDR] lists the encodings of its diagnostic
    events (the empty list when there are none), and the latest and oldest
    ledger fields are the bounds of the ledger store, the largest and the
    smallest sequence it holds a ledger under, with the close times of
    the ledgers stored under them. *)
Theorem GetTransaction_ingested (stream : list xdr.LedgerCloseMeta)
    (store0 store : TransactionStore) (l : xdr.LedgerCloseMeta) (i : nat)
    (p : xdr.TransactionResultMeta) (diagnosticEvents : list xdr.DiagnosticEvent) :
  IngestAll HashTransactionInEnvelope stream store0 = Return (inr store) ->
  List.NoDup (map xdr.LedgerSequence stream) ->
  (forall l', In l' stream -> xdr.CountTransactions l' < U32.modulus) ->
  In l stream ->
  nth_error (xdr.TxProcessing l) i = Some p ->
  String.length (xdr.TransactionHash (xdr.TxResult p)) = 32%nat ->
  (forall l' j p', In l' stream -> nth_error (xdr.TxProcessing l') j = Some p' ->
     xdr.TransactionHash (xdr.TxResult p') = xdr.TransactionHash (xdr.TxResult p) ->
     l' = l /\ j = i) ->
  xdr.GetDiagnosticEvents (xdr.TxApplyProcessing p) = Some diagnosticEvents ->
  exists envelope r,
    In envelope (xdr.TxSet l)
    /\ HashTransactionInEnvelope envelope (passphrase store0)
       = Some (xdr.TransactionHash (xdr.TxResult p))
    /\ GetTransaction HashTransactionInEnvelope store
         {| Hash := hex.EncodeToString (xdr.TransactionHash (xdr.TxResult p)) |}
       = Return (inr r)
    /\ Status r = (if xdr.Successful (xdr.TxResult p)
                   then TransactionStatusSuccess else TransactionStatusFailed)
    /\ Ledger r = xdr.LedgerSequence l
    /\ ApplicationOrder r = Z.of_nat i + 1
    /\ LedgerCloseTime r = xdr.LedgerCloseTime l
    /\ FeeBump r = (xdr.EnvelopeType envelope =? xdr.EnvelopeTypeEnvelopeTypeTxFeeBump)
    /\ EnvelopeXdr r = MarshalBase64 envelope
    /\ ResultXdr r = MarshalBase64 (xdr.Result (xdr.TxResult p))
    /\ ResultMetaXdr r = MarshalBase64 (xdr.TxApplyProcessing p)
    /\ DiagnosticEventsXDR r = Some (map MarshalBase64 diagnosticEvents)
    /\ (diagnosticEvents = [] -> DiagnosticEventsXDR r = Some [])
    /\ exists oldest latest,
         Bounds store = Some (oldest, latest)
         /\ LatestLedger r = latest
         /\ OldestLedger r = oldest
         /\ LatestLedgerCloseTime r = closeTimeAt store latest
         /\ OldestLedgerCloseTime r = closeTimeAt store oldest
         /\ exists first last,
              ledgers store !! oldest = Some first
              /\ ledgers store !! latest = Some last
              /\ OldestLedgerCloseTime r = xdr.LedgerCloseTime first
              /\ LatestLedgerCloseTime r = xdr.LedgerCloseTime last
              /\ forall sequence l',
                   ledgers store !! sequence = Some l' -> oldest <= sequence <= latest.
Proof.
  intros Hrun Hnodup Hcount Hin Hp Hlen Huniq Hdiag.
  destruct (IngestAll_indexes stream l i p store0 store Hrun Hnodup Hcount Hin Hp Huniq)
    as (Ht & Hl & tx & Hread).
  destruct (readTransaction_inr _ _ _ _ Hread)
    as (m & p' & Hstore & _ & Hp' & Henv & _ & Hresult & Hmeta).
  replace (Z.to_nat (Z.of_nat i + 1 - 1)) with i in Hp' by lia.
  rewrite Hp in Hp'. inversion Hp'; subst p'. clear Hp'.
  destruct (storeTransactions_sound _ _ _ _ Hstore _ _ Henv) as [Hnil | (Hset & Hhash)];
    [discriminate |].
  rewrite <- (IngestAll_passphrase _ _ _ Hrun) in Hread.
  exists (ingest.Envelope tx), (found store (xdr.LedgerSequence l) (Z.of_nat i + 1) l tx diagnosticEvents).
  split; [exact Hset |]. split; [exact Hhash |].
  split.
  { rewrite GetTransaction_decoded
      by (left; cbn [Hash]; rewrite EncodeToString_length, Hlen; reflexivity).
    cbn [Hash]. rewrite DecodeString_EncodeToString.
    replace (transactions store !! xdr.TransactionHash (xdr.TxResult p))
      with (Some (xdr.LedgerSequence l, Z.of_nat i + 1)) by (symmetry; exact Ht).
    cbn match. rewrite Hl, Hread.
    unfold ingest.GetDiagnosticEvents. rewrite Hmeta, Hdiag. reflexivity. }
  unfold found. cbn. rewrite Hresult, Hmeta.
  repeat (split; [reflexivity |]).
  split; [intros ->; reflexivity |].
  destruct (Bounds store) as [[oldest latest] |] eqn:Hb.
  - exists oldest, latest. do 5 (split; [reflexivity |]).
    destruct (Bounds_Some store oldest latest Hb)
      as ((first & Hfirst) & (last & Hlast) & Hall).
    exists first, last. unfold closeTimeAt. cbn [from_option id fst snd].
    rewrite Hfirst, Hlast. repeat split; try reflexivity; apply (Hall _ _ H).
  - exfalso. apply (Bounds_nonempty store _ l Hl). exact Hb.
Qed.

End GetTransaction.

Section GetTransactionTest.
Import xdr methods fixtures.

(** C5, as the claim states it, fails: the second request of the test is
    65 characters long, not 64, and it is not answered with
    [unexpected hash length (65)] but by the hexadecimal decoder, with the
    very text the test expects. *)
Lemma GetTransaction_length_65_reaches_decoder :
  String.length paddedFoo = 65%nat
  /\ GetTransaction HashTransactionInEnvelope (NewMockTransactionStore "passphrase")
       {| Hash := paddedFoo |}
     = Return (inl (badInput "incorrect hash: encoding/hex: invalid byte: U+006F 'o'"))
  /\ jrpc2.ErrorString (badInput "incorrect hash: encoding/hex: invalid byte: U+006F 'o'")
     = "[-32602] incorrect hash: encoding/hex: invalid byte: U+006F 'o'"
  /\ ~ (exists e,
          GetTransaction HashTransactionInEnvelope (NewMockTransactionStore "passphrase")
            {| Hash := paddedFoo |} = Return (inl e)
          /\ jrpc2.ErrorString e = "[-32602] unexpected hash length (65)").
Proof.
  split; [reflexivity |].
  split; [vm_compute; reflexivity |].
  split; [vm_compute; reflexivity |].
  intros (e & Hrun & Htext).
  vm_compute in Hrun. inversion Hrun; subst e.
  vm_compute in Htext. discriminate.
Qed.

Lemma GetTransaction_bad_input_witness :
  (exists e,
     GetTransaction HashTransactionInEnvelope (NewMockTransactionStore "passphrase")
       {| Hash := "ab" |} = Return (inl e)
     /\ jrpc2.ErrorString e = "[-32602] unexpected hash length (2)")
  /\ (exists e,
        GetTransaction HashTransactionInEnvelope (NewMockTransactionStore "passphrase")
          {| Hash := paddedFoo |} = Return (inl e)
        /\ jrpc2.ErrorString e
           = "[-32602] incorrect hash: encoding/hex: invalid byte: U+006F 'o'")
  /\ (exists e,
        GetTransaction HashTransactionInEnvelope (NewMockTransactionStore "passphrase")
          {| Hash := "zzzzzzzzzzzzzzzzzzzzzzzzzzzzzzzzzzzzzzzzzzzzzzzzzzzzzzzzzzzzzzzz" |}
        = Return (inl e)
        /\ jrpc2.ErrorString e
           = "[-32602] incorrect hash: encoding/hex: invalid byte: U+007A 'z'")
  /\ (exists e,
        GetTransaction HashTransactionInEnvelope (NewMockTransactionStore "passphrase")
          {| Hash := "aaaaaaaaaaaaaaaaaaaaaaaaaaaaaaaaaaaaaaaaaaaaaaaaaaaaaaaaaaaaaaaaa" |}
        = Return (inl e)
        /\ jrpc2.ErrorString e
           = "[-32602] incorrect hash: encoding/hex: odd length hex string").
Proof.
  split; [| split; [| split]].
  - destruct (proj1 (GetTransaction_bad_input HashTransactionInEnvelope
                       (NewMockTransactionStore "passphrase") {| Hash := "ab" |}))
      as (e & Hrun & _ & Htext).
    + cbn. lia.
    + cbn. lia.
    + exists e. split; [exact Hrun | rewrite Htext; reflexivity].
  - destruct (proj1 (proj2 (proj2 (GetTransaction_bad_input HashTransactionInEnvelope
                                     (NewMockTransactionStore "passphrase")
                                     {| Hash := paddedFoo |}))))
      as (e & detail & Hdec & Hrun & _ & Htext & _).
    + reflexivity.
    + exists e. split; [exact Hrun |]. rewrite Htext.
      vm_compute in Hdec. inversion Hdec; subst detail. reflexivity.
  - destruct (proj1 (proj2 (GetTransaction_bad_input HashTransactionInEnvelope
                              (NewMockTransactionStore "passphrase")
                              {| Hash := "zzzzzzzzzzzzzzzzzzzzzzzzzzzzzzzzzzzzzzzzzzzzzzzzzzzzzzzzzzzzzzzz" |})))
      as (e & detail & Hdec & Hrun & _ & Htext).
    + reflexivity.
    + reflexivity.
    + exists e. split; [exact Hrun |]. rewrite Htext.
      vm_compute in Hdec. inversion Hdec; subst detail. reflexivity.
  - destruct (proj1 (proj2 (proj2 (GetTransaction_bad_input HashTransactionInEnvelope
                                     (NewMockTransactionStore "passphrase")
                                     {| Hash := "aaaaaaaaaaaaaaaaaaaaaaaaaaaaaaaaaaaaaaaaaaaaaaaaaaaaaaaaaaaaaaaaa" |}))))
      as (e & detail & _ & Hrun & _ & _ & Hodd).
    + reflexivity.
    + exists e. split; [exact Hrun | apply Hodd; reflexivity].
Defined.

Lemma GetTransaction_not_found_witness :
  GetTransaction HashTransactionInEnvelope (NewMockTransactionStore "passphrase")
    {| Hash := "aaaaaaaaaaaaaaaaaaaaaaaaaaaaaaaaaaaaaaaaaaaaaaaaaaaaaaaaaaaaaaaa" |}
  = Return (inr {| Status := TransactionStatusNotFound;
                   LatestLedger := 0; LatestLedgerCloseTime := 0;
                   OldestLedger := 0; OldestLedgerCloseTime := 0;
                   ApplicationOrder := 0; FeeBump := false;
                   EnvelopeXdr := ""; ResultXdr := ""; ResultMetaXdr := "";
                   Ledger := 0; LedgerCloseTime := 0;
                   DiagnosticEventsXDR := None |})
  /\ match IngestAll HashTransactionInEnvelope [txMeta 1 true; txMeta 2 false]
             (NewMockTransactionStore "passphrase") with
     | Return (inr store) =>
         GetTransaction HashTransactionInEnvelope store {| Hash := "aaaaaaaaaaaaaaaaaaaaaaaaaaaaaaaaaaaaaaaaaaaaaaaaaaaaaaaaaaaaaaaa" |}
         = Return (inr {| Status := TransactionStatusNotFound;
                          LatestLedger := 102; LatestLedgerCloseTime := 2650;
                          OldestLedger := 101; OldestLedgerCloseTime := 2625;
                          ApplicationOrder := 0; FeeBump := false;
                          EnvelopeXdr := ""; ResultXdr := ""; ResultMetaXdr := "";
                          Ledger := 0; LedgerCloseTime := 0;
                          DiagnosticEventsXDR := None |})
     | _ => False
     end.
Proof.
  split.
  - destruct (GetTransaction_not_found HashTransactionInEnvelope
                (NewMockTransactionStore "passphrase") {| Hash := "aaaaaaaaaaaaaaaaaaaaaaaaaaaaaaaaaaaaaaaaaaaaaaaaaaaaaaaaaaaaaaaa" |})
      as (r & Hrun & Hstatus & Hzero & _ & Hrest).
    + reflexivity.
    + reflexivity.
    + intros txHash _. apply lookup_empty.
    + rewrite Hrun. f_equal. f_equal. destruct r. cbn in *.
      destruct (Hzero eq_refl) as (-> & -> & -> & ->).
      destruct Hrest as (-> & -> & -> & -> & -> & -> & -> & ->).
      rewrite Hstatus. reflexivity.
  - pose (ingested := IngestAll HashTransactionInEnvelope [txMeta 1 true; txMeta 2 false]
                        (NewMockTransactionStore "passphrase")).
    assert (Habsent : forall txHash,
               hex.DecodeString "aaaaaaaaaaaaaaaaaaaaaaaaaaaaaaaaaaaaaaaaaaaaaaaaaaaaaaaaaaaaaaaa" = inr txHash ->
               match ingested with
               | Return (inr store) => transactions store !! txHash
               | _ => None
               end = None).
    { intros txHash Hdec. vm_compute in Hdec. inversion Hdec; subst txHash.
      vm_compute. reflexivity. }
    assert (Hbounds : match ingested with
                      | Return (inr store) => Bounds store
                      | _ => None
                      end = Some (101, 102)) by (vm_compute; reflexivity).
    assert (Hfirst : match ingested with
                     | Return (inr store) => ledgers store !! 101
                     | _ => None
                     end = Some (txMeta 1 true)) by (vm_compute; reflexivity).
    assert (Hlast : match ingested with
                    | Return (inr store) => ledgers store !! 102
                    | _ => None
                    end = Some (txMeta 2 false)) by (vm_compute; reflexivity).
    fold ingested. destruct ingested as [[err | store] | pn]; try discriminate.
    destruct (GetTransaction_not_found HashTransactionInEnvelope store {| Hash := "aaaaaaaaaaaaaaaaaaaaaaaaaaaaaaaaaaaaaaaaaaaaaaaaaaaaaaaaaaaaaaaa" |})
      as (r & Hrun & Hstatus & _ & Hsome & Hrest).
    + reflexivity.
    + reflexivity.
    + exact Habsent.
    + destruct Hsome as (Hb & first & last & Hf & Hl & Hfc & Hlc & _).
      { intros Hempty. rewrite Hempty, lookup_empty in Hlast. discriminate. }
      rewrite Hrun. f_equal. f_equal. destruct r. cbn in *.
      destruct Hrest as (-> & -> & -> & -> & -> & -> & -> & ->).
      rewrite Hbounds in Hb. inversion Hb; subst.
      assert (Hf' : Some first = Some (txMeta 1 true))
        by (etransitivity; [symmetry; exact Hf | exact Hfirst]).
      assert (Hl' : Some last = Some (txMeta 2 false))
        by (etransitivity; [symmetry; exact Hl | exact Hlast]).
      inversion Hf'; subst first. inversion Hl'; subst last. reflexivity.
Defined.

Lemma GetTransaction_ingested_witness :
  let stream := [txMeta 1 true; txMeta 2 false; txMetaWithEvents 3 true] in
  let store0 := NewMockTransactionStore "passphrase" in
  exists store r,
    IngestAll HashTransactionInEnvelope stream store0 = Return (inr store)
    /\ GetTransaction HashTransactionInEnvelope store
         {| Hash := hex.EncodeToString (txHash 3) |} = Return (inr r)
    /\ Status r = TransactionStatusSuccess
    /\ Ledger r = 103
    /\ ApplicationOrder r = 1
    /\ DiagnosticEventsXDR r
       = Some [MarshalBase64 {| InSuccessfulContractCall := true; Event := counterEvent |}]
    /\ LatestLedger r = 103
    /\ OldestLedger r = 101.
Proof.
  intros stream store0.
  set (l := txMetaWithEvents 3 true).
  set (p := {| TxResult := {| TransactionHash := txHash 3;
                              Result := transactionResult true |};
               TxApplyProcessing :=
                 {| V := 3;
                    SorobanMeta := Some {| Events := [counterEvent];
                                           DiagnosticEvents := [] |};
                    MetaBody := "COUNTER" |} |}).
  destruct (IngestAll HashTransactionInEnvelope stream store0) as [[| store] |] eqn:Hrun;
    [vm_compute in Hrun; discriminate | | vm_compute in Hrun; discriminate].
  exists store.
  destruct (GetTransaction_ingested HashTransactionInEnvelope stream store0 store l 0%nat p
              [{| InSuccessfulContractCall := true; Event := counterEvent |}] Hrun)
    as (envelope & r & _ & _ & Hget & Hstatus & Hledger & Horder & _ & _ & _ & _ & _
        & Hevents & _ & oldest & latest & Hbounds & Hlatest & Holdest & _).
  - vm_compute. repeat (constructor; [cbn; intuition lia |]). constructor.
  - intros l' [<- | [<- | [<- | []]]]; vm_compute; reflexivity.
  - right. right. left. reflexivity.
  - reflexivity.
  - reflexivity.
  - intros l' j p' [<- | [<- | [<- | []]]] Hj Hk;
      (destruct j as [| j]; [| destruct j; discriminate]);
      cbn in Hj; inversion Hj; subst p'; vm_compute in Hk;
      try discriminate; split; reflexivity.
  - reflexivity.
  - exists r. split; [reflexivity |]. split; [exact Hget |].
    split; [exact Hstatus |]. split; [exact Hledger |]. split; [exact Horder |].
    split; [exact Hevents |].
    assert (Hcomputed :
              match IngestAll HashTransactionInEnvelope stream store0 with
              | Return (inr s) => Bounds s
              | _ => None
              end = Some (101, 103)) by (vm_compute; reflexivity).
    rewrite Hrun, Hbounds in Hcomputed. inversion Hcomputed; subst oldest latest.
    split; assumption.
Defined.

(** The assertions of [TestGetTransaction], on the model. *)

Example test_unexpected_hash_length :
  match GetTransaction HashTransactionInEnvelope (NewMockTransactionStore "passphrase")
          {| Hash := "ab" |} with
  | Return (inl e) => jrpc2.ErrorString e = "[-32602] unexpected hash length (2)"
  | _ => False
  end.
Proof. vm_compute. reflexivity. Qed.

Example test_incorrect_hash :
  match GetTransaction HashTransactionInEnvelope (NewMockTransactionStore "passphrase")
          {| Hash := paddedFoo |} with
  | Return (inl e) =>
      jrpc2.ErrorString e = "[-32602] incorrect hash: encoding/hex: invalid byte: U+006F 'o'"
  | _ => False
  end.
Proof. vm_compute. reflexivity. Qed.

Example test_first_transaction_still_there :
  let ingested :=
    IngestAll HashTransactionInEnvelope [txMeta 1 true; txMeta 2 false]
      (NewMockTransactionStore "passphrase") in
  match ingested with
  | Return (inr store) =>
      GetTransaction HashTransactionInEnvelope store
        {| Hash := hex.EncodeToString (txHash 1) |}
      = Return (inr {| Status := TransactionStatusSuccess;
                       LatestLedger := 102; LatestLedgerCloseTime := 2650;
                       OldestLedger := 101; OldestLedgerCloseTime := 2625;
                       ApplicationOrder := 1; FeeBump := false;
                       EnvelopeXdr := MarshalBase64 (txEnvelope 1);
                       ResultXdr := MarshalBase64 (transactionResult true);
                       ResultMetaXdr :=
                         MarshalBase64 {| V := 3; SorobanMeta := None; MetaBody := "" |};
                       Ledger := 101; LedgerCloseTime := 2625;
                       DiagnosticEventsXDR := Some [] |})
      /\ GetTransaction HashTransactionInEnvelope store
           {| Hash := hex.EncodeToString (txHash 2) |}
         = Return (inr {| Status := TransactionStatusFailed;
                          LatestLedger := 102; LatestLedgerCloseTime := 2650;
                          OldestLedger := 101; OldestLedgerCloseTime := 2625;
                          ApplicationOrder := 1; FeeBump := false;
                          EnvelopeXdr := MarshalBase64 (txEnvelope 2);
                          ResultXdr := MarshalBase64 (transactionResult false);
                          ResultMetaXdr :=
                            MarshalBase64 {| V := 3; SorobanMeta := None; MetaBody := "" |};
                          Ledger := 102; LedgerCloseTime := 2650;
                          DiagnosticEventsXDR := Some [] |})
  | _ => False
  end.
Proof. vm_compute. split; reflexivity. Qed.

End GetTransactionTest.

(** ** The read path of the event index *)

Section GetEventsGuarantees.
Import xdr db.

Variable HashTransactionInEnvelope : TransactionEnvelope -> string -> option Hash.

Lemma In_insertByLedger x y l :
  In y (insertByLedger x l) <-> y = x \/ In y l.
Proof.
  induction l as [| z l IH]; cbn.
  - split; intros [-> | []]; left; reflexivity.
  - destruct (ledger_sequence (fst z) <=? ledger_sequence (fst x)); cbn.
    + rewrite IH. tauto.
    + split; intros [Hx | Hrest]; auto.
Qed.

Lemma In_orderByLedger y l : In y (orderByLedger l) <-> In y l.
Proof.
  unfold orderByLedger.
  assert (Hacc : forall acc, In y (fold_left (fun acc x => insertByLedger x acc) l acc)
                             <-> In y acc \/ In y l).
  { induction l as [| x l IH]; intros acc; cbn.
    - tauto.
    - rewrite IH, In_insertByLedger. split; intros [H | H]; auto.
      + destruct H as [-> | H]; auto.
      + destruct H as [-> | H]; auto. }
  rewrite Hacc. cbn. tauto.
Qed.

(** Every row of the result set joins an event row that passes the
    [WHERE] clause with the ledger stored under its sequence. *)
Lemma queryRows_In cursorRange contractIDs s row :
  In row (queryRows cursorRange contractIDs s) ->
  exists e,
    In e (events s)
    /\ In (ledger_sequence e, Lcm row) (ledger_close_meta s)
    /\ whereClause cursorRange contractIDs e = true
    /\ TxIndex row = application_order e.
Proof.
  unfold queryRows. intros Hrow.
  apply in_map_iff in Hrow. destruct Hrow as ([e l] & <- & Hin). cbn.
  apply In_orderByLedger, filter_In in Hin. destruct Hin as (Hjoin & Hwhere).
  apply in_flat_map in Hjoin. destruct Hjoin as (e' & He' & Hjoin).
  unfold joinLedger in Hjoin. apply in_map_iff in Hjoin.
  destruct Hjoin as ([k l'] & Heq & Hl'). inversion Heq; subst e' l'. clear Heq.
  apply filter_In in Hl'. destruct Hl' as (Hl' & Hk). cbn in Hk.
  apply Z.eqb_eq in Hk. subst k.
  exists e. repeat split; assumption.
Qed.

(** The calls the inner loop adds carry the ledger of the row, its
    transaction index and one of the events of the transaction. *)
Lemma visitEvents_calls f l txIndex closeTime hash diagEvents :
  forall eventIndex trace,
    exists added,
      snd (visitEvents f l txIndex closeTime hash eventIndex diagEvents trace)
      = trace ++ added
      /\ Forall (fun c =>
                   Ledger (call_cursor c) = LedgerSequence l
                   /\ Tx (call_cursor c) = U32.wrap txIndex
                   /\ 0 <= Event (call_cursor c)
                   /\ In (call_event c) diagEvents) added.
Proof.
  induction diagEvents as [| event rest IH]; intros eventIndex trace.
  - exists []. cbn. rewrite app_nil_r. split; [reflexivity | constructor].
  - cbn [visitEvents].
    set (call := {| call_event := event;
                    call_cursor := {| Ledger := LedgerSequence l;
                                      Tx := U32.wrap txIndex;
                                      Event := U32.wrap eventIndex |};
                    call_ledgerCloseTimestamp := closeTime;
                    call_txHash := hash |}).
    assert (Hcall : Ledger (call_cursor call) = LedgerSequence l
                    /\ Tx (call_cursor call) = U32.wrap txIndex
                    /\ 0 <= Event (call_cursor call)
                    /\ In (call_event call) (event :: rest)).
    { cbn. repeat split; [apply wrap_in_range | left; reflexivity]. }
    destruct (f trace event _ closeTime hash).
    + destruct (IH (eventIndex + 1) (trace ++ [call])) as (added & Hrun & Hadded).
      exists (call :: added). rewrite Hrun, <- app_assoc. split; [reflexivity |].
      constructor; [exact Hcall |].
      eapply List.Forall_impl; [| exact Hadded].
      intros c (H1 & H2 & H3 & H4). repeat split; try assumption. right. exact H4.
    + exists [call]. split; [reflexivity |]. constructor; [exact Hcall | constructor].
Qed.

(** The calls the outer loop adds belong, each, to one of the rows. *)
Lemma scanRows_calls h f rows :
  forall trace,
    exists added,
      snd (scanRows HashTransactionInEnvelope h f rows trace) = trace ++ added
      /\ Forall (fun c =>
                   exists row,
                     In row rows
                     /\ Ledger (call_cursor c) = LedgerSequence (Lcm row)
                     /\ Tx (call_cursor c) = U32.wrap (TxIndex row)
                     /\ 0 <= Event (call_cursor c)) added.
Proof.
  induction rows as [| row rows IH]; intros trace.
  - exists []. cbn. rewrite app_nil_r. split; [reflexivity | constructor].
  - assert (Hnone : exists added : list VisitorCall,
              trace = trace ++ added
              /\ Forall (fun c =>
                           exists row0,
                             In row0 (row :: rows)
                             /\ Ledger (call_cursor c) = LedgerSequence (Lcm row0)
                             /\ Tx (call_cursor c) = U32.wrap (TxIndex row0)
                             /\ 0 <= Event (call_cursor c)) added).
    { exists []. rewrite app_nil_r. split; [reflexivity | constructor]. }
    cbn [scanRows].
    destruct (ingest.NewLedgerTransactionReaderFromLedgerCloseMeta _ _ _) as [| reader];
      [exact Hnone |].
    destruct (ingest.Seek reader (TxIndex row - 1)) as [[err |] reader']; [exact Hnone |].
    destruct (ingest.Read reader') as [[[err | ledgerTx] | pn] reader''];
      [exact Hnone | | exact Hnone].
    destruct (ingest.GetDiagnosticEvents ledgerTx) as [diagEvents |]; [| exact Hnone].
    destruct (visitEvents_calls f (Lcm row) (TxIndex row) (LedgerCloseTime (Lcm row))
                (TransactionHash (ingest.Result ledgerTx)) diagEvents 0 trace)
      as (added & Hrun & Hadded).
    assert (Hmine : Forall (fun c =>
                              exists row0,
                                In row0 (row :: rows)
                                /\ Ledger (call_cursor c) = LedgerSequence (Lcm row0)
                                /\ Tx (call_cursor c) = U32.wrap (TxIndex row0)
                                /\ 0 <= Event (call_cursor c)) added).
    { eapply List.Forall_impl; [| exact Hadded].
      intros c (H1 & H2 & H3 & _). exists row.
      repeat split; try assumption. left. reflexivity. }
    destruct (visitEvents f (Lcm row) (TxIndex row) _ _ 0 diagEvents trace)
      as [[|] trace'].
    + cbn in Hrun. subst trace'.
      destruct (IH (trace ++ added)) as (more & Hrest & Hmore).
      exists (added ++ more). rewrite Hrest, <- app_assoc. split; [reflexivity |].
      apply Forall_app. split; [exact Hmine |].
      eapply List.Forall_impl; [| exact Hmore].
      intros c (row0 & Hin & Hc). exists row0. split; [right; exact Hin | exact Hc].
    + cbn in Hrun. subst trace'. exists added. split; [reflexivity | exact Hmine].
Qed.

(** X17: what the scan does guarantee. When every ledger is stored under its
    own sequence and the transaction indexes of the rows are 32-bit, every
    cursor presented lies in a ledger of [[Start.Ledger, End.Ledger)], at
    a transaction index of at least [Start.Tx]; it is therefore below
    [End], and at or above [Start] when [Start] is the first event of a
    transaction. With a contract filter, the transaction of every event
    presented has a row of one of the contracts. *)
Theorem GetEvents_row_bounds (h : eventHandler) (cursorRange : CursorRange)
    (contractIDs : list Hash) (f : ScanFunction) (s : Session) :
  (forall k l, In (k, l) (ledger_close_meta s) -> LedgerSequence l = k) ->
  (forall e, In e (events s) -> U32.in_range (application_order e)) ->
  Forall (fun c =>
            Ledger (Start cursorRange) <= Ledger (call_cursor c) < Ledger (End_ cursorRange)
            /\ Tx (Start cursorRange) <= Tx (call_cursor c)
            /\ Cmp (call_cursor c) (End_ cursorRange) = -1
            /\ (Event (Start cursorRange) = 0 -> Cmp (Start cursorRange) (call_cursor c) <= 0)
            /\ (contractIDs <> [] ->
                exists e, In e (events s)
                          /\ ledger_sequence e = Ledger (call_cursor c)
                          /\ application_order e = Tx (call_cursor c)
                          /\ contractIdIn contractIDs (contract_id e) = true))
         (snd (fst (GetEvents HashTransactionInEnvelope h cursorRange contractIDs f s))).
Proof.
  intros Hkeys Horder. unfold GetEvents, selectRows.
  destruct (nextFails s); [constructor |].
  destruct (length (queryRows cursorRange contractIDs s) <? 1)%nat; [constructor |].
  destruct (scanRows_calls h f (queryRows cursorRange contractIDs s) [])
    as (added & Hrun & Hadded).
  destruct (scanRows HashTransactionInEnvelope h f (queryRows cursorRange contractIDs s) [])
    as [err trace].
  cbn in Hrun |- *. subst trace.
  eapply List.Forall_impl; [| exact Hadded].
  intros c (row & Hrow & Hledger & Htx & Hevent).
  destruct (queryRows_In _ _ _ _ Hrow) as (e & He & Hlcm & Hwhere & Hidx).
  pose proof (Hkeys _ _ Hlcm) as Hseq.
  rewrite Hidx, wrap_small in Htx by (apply Horder; exact He).
  unfold whereClause in Hwhere.
  apply andb_prop in Hwhere. destruct Hwhere as (Hwhere & Hfilter).
  apply andb_prop in Hwhere. destruct Hwhere as (Hwhere & Hend).
  apply andb_prop in Hwhere. destruct Hwhere as (Hstart & Hstx).
  apply Z.leb_le in Hstart, Hstx. apply Z.ltb_lt in Hend.
  rewrite <- Hseq in Hstart, Hend. rewrite <- Hledger in Hstart, Hend.
  rewrite <- Htx in Hstx.
  split; [lia |]. split; [exact Hstx |]. split; [| split].
  - unfold Cmp. destruct (Z.ltb_spec (Ledger (call_cursor c)) (Ledger (End_ cursorRange)));
      [reflexivity | lia].
  - intros Hzero. unfold Cmp. rewrite Hzero.
    repeat match goal with
           | |- context [?a <? ?b] => destruct (Z.ltb_spec a b)
           end; lia.
  - intros Hsome. exists e. split; [exact He |].
    split; [rewrite Hledger; symmetry; exact Hseq |].
    split; [symmetry; exact Htx |].
    destruct contractIDs; [contradiction | exact Hfilter].
Qed.

End GetEventsGuarantees.

Section GetEventsDefects.
Import xdr db fixtures.

(** S6 of the specification: with a single event in the transaction, the
    scan of [[(103,0,0), (104,0,0))] filtered on its contract presents
    exactly that event, at cursor (103,1,0). *)
Example GetEvents_single_event :
  exists s,
    InsertEvents HashTransactionInEnvelope writer (txMetaWithEvents 3 true)
      (ledgerOnly (txMetaWithEvents 3 true)) = Some (Return None, s)
    /\ fst (GetEvents HashTransactionInEnvelope reader
              {| Start := cursor 103 0 0; End_ := cursor 104 0 0 |}
              [contractID] visitAll s)
       = (Return None,
          [ {| call_event := {| InSuccessfulContractCall := true; xdr.Event := counterEvent |};
               call_cursor := cursor 103 1 0;
               call_ledgerCloseTimestamp := 2675;
               call_txHash := txHash 3 |} ]).
Proof.
  eexists. split.
  - vm_compute. reflexivity.
  - vm_compute. reflexivity.
Qed.

(** C1 fails on the code. Ledger 103 holds one successful transaction
    with two events; [InsertEvents] indexes it with two rows. The scan of
    [[(103,1,1), (104,0,0))] returns without error and presents the cursor
    (103,1,0), which is below the start of the range: the query bounds the
    ledger and the transaction index of the rows, and the loop then
    presents every event of the transaction of a row. *)
Theorem GetEvents_presents_cursor_below_start :
  let l := txMetaWithTwoEvents 3 in
  let range := {| Start := cursor 103 1 1; End_ := cursor 104 0 0 |} in
  exists s trace s',
    InsertEvents HashTransactionInEnvelope writer l (ledgerOnly l) = Some (Return None, s)
    /\ GetEvents HashTransactionInEnvelope reader range [] visitAll s = (Return None, trace, s')
    /\ map call_cursor trace
       = [cursor 103 1 0; cursor 103 1 1; cursor 103 1 0; cursor 103 1 1]
    /\ Cmp (cursor 103 1 0) (Start range) = -1
    /\ forallb (spec.inRange range) (map call_cursor trace) = false.
Proof.
  do 3 eexists.
  split; [vm_compute; reflexivity |].
  split; [vm_compute; reflexivity |].
  split; [vm_compute; reflexivity |].
  split; vm_compute; reflexivity.
Qed.

(** C2 fails on the code. On the same ledger the scan of
    [[(103,0,0), (104,0,0))] presents (103,1,0), (103,1,1) and then both
    again: the transaction is replayed once for each of its two rows, so
    the cursors are not increasing and each is presented twice. *)
Theorem GetEvents_presents_cursors_twice :
  let l := txMetaWithTwoEvents 3 in
  let range := {| Start := cursor 103 0 0; End_ := cursor 104 0 0 |} in
  exists s trace s',
    InsertEvents HashTransactionInEnvelope writer l (ledgerOnly l) = Some (Return None, s)
    /\ GetEvents HashTransactionInEnvelope reader range [] visitAll s = (Return None, trace, s')
    /\ map call_cursor trace
       = [cursor 103 1 0; cursor 103 1 1; cursor 103 1 0; cursor 103 1 1]
    /\ spec.strictlyIncreasing (map call_cursor trace) = false
    /\ Cmp (cursor 103 1 1) (cursor 103 1 0) = 1.
Proof.
  do 3 eexists.
  split; [vm_compute; reflexivity |].
  split; [vm_compute; reflexivity |].
  split; [vm_compute; reflexivity |].
  split; vm_compute; reflexivity.
Qed.

(** C3 fails on the code. On the same ledger the scan filtered on the
    contract of the first event selects the row of that event and then
    presents both events of the transaction; the second one belongs to a
    contract that is not in the filter. *)
Theorem GetEvents_presents_other_contract :
  let l := txMetaWithTwoEvents 3 in
  let range := {| Start := cursor 103 0 0; End_ := cursor 104 0 0 |} in
  exists s trace s',
    InsertEvents HashTransactionInEnvelope writer l (ledgerOnly l) = Some (Return None, s)
    /\ GetEvents HashTransactionInEnvelope reader range [contractID] visitAll s
       = (Return None, trace, s')
    /\ map (fun c => ContractId (xdr.Event (call_event c))) trace
       = [Some contractID; Some otherContractID]
    /\ map call_cursor trace = [cursor 103 1 0; cursor 103 1 1]
    /\ forallb (spec.eventOfContracts [contractID]) (map call_event trace) = false.
Proof.
  do 3 eexists.
  split; [vm_compute; reflexivity |].
  split; [vm_compute; reflexivity |].
  split; [vm_compute; reflexivity |].
  split; vm_compute; reflexivity.
Qed.

End GetEventsDefects.

(** * Further properties of the event index *)

(** ** Retention trimming: what is kept, when it fails, how it composes *)

Section TrimBehaviour.
Import xdr db.

Lemma trimEvents_cases (h : eventHandler) (latestLedgerSeq retentionWindow : Z) (s : Session) :
  trimEvents h latestLedgerSeq retentionWindow s
  = if U32.add latestLedgerSeq 1 <=? retentionWindow then (Return None, s)
    else match stmtCache h with
         | None => (Panic NilPointerDereference, s)
         | Some _ =>
             if nextFails s then (Return (Some ErrExec), tick s)
             else (Return None, setEvents (tick s)
                                  (behaviour.keptRows
                                     (U32.sub (U32.add latestLedgerSeq 1) retentionWindow)
                                     (events s)))
         end.
Proof.
  unfold trimEvents, execDeleteLt, behaviour.keptRows.
  destruct (U32.add latestLedgerSeq 1 <=? retentionWindow); [reflexivity |].
  destruct (stmtCache h); reflexivity.
Qed.

Lemma keptRows_In cutoff rows r :
  In r (behaviour.keptRows cutoff rows) <-> In r rows /\ cutoff <= ledger_sequence r.
Proof.
  unfold behaviour.keptRows. rewrite filter_In.
  destruct (Z.ltb_spec (ledger_sequence r) cutoff); cbn; split; intros [Hin Hk];
    split; try assumption; try discriminate; try reflexivity; lia.
Qed.

Lemma keptRows_twice c1 c2 rows :
  c1 <= c2 ->
  behaviour.keptRows c2 (behaviour.keptRows c1 rows) = behaviour.keptRows c2 rows.
Proof.
  intros Hle. unfold behaviour.keptRows.
  induction rows as [| r rows IH]; [reflexivity |]. cbn.
  destruct (Z.ltb_spec (ledger_sequence r) c1) as [Hlt1 | Hge1]; cbn.
  - destruct (Z.ltb_spec (ledger_sequence r) c2) as [_ | Hge2]; [exact IH | lia].
  - destruct (Z.ltb_spec (ledger_sequence r) c2); cbn; rewrite IH; reflexivity.
Qed.

(** The cutoff, when the statement is issued, is the integer
    [latestLedgerSeq + 1 - retentionWindow]. *)
Lemma trim_cutoff latestLedgerSeq retentionWindow :
  U32.in_range latestLedgerSeq ->
  U32.in_range retentionWindow ->
  retentionWindow < U32.add latestLedgerSeq 1 ->
  U32.add latestLedgerSeq 1 = latestLedgerSeq + 1
  /\ U32.sub (U32.add latestLedgerSeq 1) retentionWindow
     = latestLedgerSeq + 1 - retentionWindow.
Proof.
  intros Hl Hw Hgt. unfold U32.in_range in *.
  assert (Hlt : latestLedgerSeq + 1 < U32.modulus).
  { destruct (Z.eq_dec latestLedgerSeq (U32.modulus - 1)) as [-> | Hne]; [| lia].
    replace (U32.add (U32.modulus - 1) 1) with 0 in Hgt by reflexivity. lia. }
  assert (Hadd : U32.add latestLedgerSeq 1 = latestLedgerSeq + 1)
    by (apply add_no_carry; lia).
  split; [exact Hadd |]. rewrite Hadd in *.
  apply sub_no_borrow; unfold U32.in_range; lia.
Qed.

(** X1: whatever the handler and whatever the outcome, [trimEvents]
    leaves the ledger table alone, adds no row, and keeps every row that
    is within the retention window, that is, every row with
    [ledger_sequence + retentionWindow > latestLedgerSeq]. *)
Theorem trimEvents_keeps_retention_window (h : eventHandler)
    (latestLedgerSeq retentionWindow : Z) (s : Session) :
  U32.in_range latestLedgerSeq ->
  U32.in_range retentionWindow ->
  let s' := snd (trimEvents h latestLedgerSeq retentionWindow s) in
  ledger_close_meta s' = ledger_close_meta s
  /\ (forall r, In r (events s') -> In r (events s))
  /\ (forall r, In r (events s) ->
                latestLedgerSeq < ledger_sequence r + retentionWindow ->
                In r (events s')).
Proof.
  intros Hl Hw. rewrite trimEvents_cases.
  destruct (Z.leb_spec (U32.add latestLedgerSeq 1) retentionWindow) as [Hle | Hgt];
    [cbn; auto |].
  destruct (stmtCache h); [| cbn; auto].
  destruct (nextFails s); [cbn; auto |]. cbn.
  destruct (trim_cutoff _ _ Hl Hw Hgt) as (_ & ->).
  split; [reflexivity |]. split.
  - intros r Hr. apply keptRows_In in Hr. apply Hr.
  - intros r Hr Hin. apply keptRows_In. split; [exact Hr | lia].
Qed.

(** X2: how [trimEvents] fails. It returns an error exactly when there is
    something to trim ([latestLedgerSeq + 1 > retentionWindow], on 32
    bits), the handler has a statement cache and the statement fails. It
    panics exactly when there is something to trim and the handler has no
    statement cache: the nil cache is dereferenced, where [InsertEvents]
    returns an error. Either way both tables are as before, and without
    statement cache no statement is issued at all. *)
Theorem trimEvents_fails_iff (h : eventHandler)
    (latestLedgerSeq retentionWindow : Z) (s : Session) :
  let out := trimEvents h latestLedgerSeq retentionWindow s in
  ((exists err, fst out = Return (Some err))
   <-> retentionWindow < U32.add latestLedgerSeq 1
       /\ stmtCache h <> None /\ nextFails s = true)
  /\ ((exists p, fst out = Panic p)
      <-> retentionWindow < U32.add latestLedgerSeq 1 /\ stmtCache h = None)
  /\ (forall p, fst out = Panic p -> p = NilPointerDereference)
  /\ (fst out <> Return None ->
      events (snd out) = events s /\ ledger_close_meta (snd out) = ledger_close_meta s)
  /\ (stmtCache h = None -> snd out = s).
Proof.
  cbv zeta. rewrite trimEvents_cases.
  destruct (Z.leb_spec (U32.add latestLedgerSeq 1) retentionWindow) as [Hle | Hgt].
  - cbn [fst snd]. split; [| split; [| split; [| split]]].
    + split; [intros (err & Herr); discriminate | intros (Hgt & _); lia].
    + split; [intros (p & Hp); discriminate | intros (Hgt & _); lia].
    + intros p Hp. discriminate.
    + intros Hne. contradiction Hne. reflexivity.
    + intros _. reflexivity.
  - destruct (stmtCache h) as [cache |].
    + destruct (nextFails s); cbn [fst snd].
      * split; [| split; [| split; [| split]]].
        -- split; [intros _; repeat split; [exact Hgt | discriminate]
                  | intros _; exists ErrExec; reflexivity].
        -- split; [intros (p & Hp); discriminate | intros (_ & Hc); discriminate].
        -- intros p Hp. discriminate.
        -- intros _. split; reflexivity.
        -- intros Hc. discriminate.
      * split; [| split; [| split; [| split]]].
        -- split; [intros (err & Herr); discriminate | intros (_ & _ & Hf); discriminate].
        -- split; [intros (p & Hp); discriminate | intros (_ & Hc); discriminate].
        -- intros p Hp. discriminate.
        -- intros Hne. contradiction Hne. reflexivity.
        -- intros Hc. discriminate.
    + cbn [fst snd]. split; [| split; [| split; [| split]]].
      * split; [intros (err & Herr); discriminate
               | intros (_ & Hc & _); contradiction Hc; reflexivity].
      * split; [intros _; split; [exact Hgt | reflexivity]
               | intros _; exists NilPointerDereference; reflexivity].
      * intros p Hp. inversion Hp. reflexivity.
      * intros _. split; reflexivity.
      * intros _. reflexivity.
Qed.

(** X3: trimming composes. Below the largest ledger number, when a trim
    for [latest1] and then a trim for a later [latest2] (same window) both
    succeed, the event table is the one a single trim for [latest2]
    leaves; in particular trimming twice for the same ledger is trimming
    once. *)
Theorem trimEvents_then_later (h : eventHandler) (latest1 latest2 retentionWindow : Z)
    (s s1 s2 s12 : Session) :
  U32.in_range latest1 ->
  U32.in_range retentionWindow ->
  latest1 <= latest2 ->
  latest2 + 1 < U32.modulus ->
  trimEvents h latest1 retentionWindow s = (Return None, s1) ->
  trimEvents h latest2 retentionWindow s1 = (Return None, s12) ->
  trimEvents h latest2 retentionWindow s = (Return None, s2) ->
  events s12 = events s2 /\ ledger_close_meta s12 = ledger_close_meta s2.
Proof.
  intros H1 Hw Hle Hmax Ha Hb Hc.
  assert (H2 : U32.in_range latest2) by (unfold U32.in_range in *; lia).
  assert (Hadd1 : U32.add latest1 1 = latest1 + 1)
    by (apply add_no_carry; unfold U32.in_range in *; lia).
  assert (Hadd2 : U32.add latest2 1 = latest2 + 1)
    by (apply add_no_carry; unfold U32.in_range in *; lia).
  rewrite trimEvents_cases in Ha, Hb, Hc.
  destruct (Z.leb_spec (U32.add latest2 1) retentionWindow) as [Hle2 | Hgt2].
  - inversion Hb; subst s12. inversion Hc; subst s2.
    destruct (Z.leb_spec (U32.add latest1 1) retentionWindow) as [Hle1 | Hgt1]; [| lia].
    inversion Ha; subst s1. split; reflexivity.
  - destruct (stmtCache h) as [cache |]; [| discriminate].
    destruct (nextFails s); [discriminate |].
    destruct (nextFails s1); [discriminate |].
    inversion Hb; subst s12. inversion Hc; subst s2. cbn. clear Hb Hc.
    destruct (Z.leb_spec (U32.add latest1 1) retentionWindow) as [Hle1 | Hgt1].
    + inversion Ha; subst s1. split; reflexivity.
    + inversion Ha; subst s1. cbn. split; [| reflexivity].
      apply keptRows_twice.
      destruct (trim_cutoff _ _ H1 Hw Hgt1) as (_ & ->).
      destruct (trim_cutoff _ _ H2 Hw Hgt2) as (_ & ->).
      lia.
Qed.

End TrimBehaviour.

Lemma trimEvents_keeps_retention_window_witness :
  let row n := {| db.ledger_sequence := n; db.application_order := 1;
                  db.contract_id := None; db.event_type := 1 |} in
  let s := {| db.events := [row 9; row 10; row 11; row 12];
              db.ledger_close_meta := []; db.io_script := [] |} in
  In (row 11) (db.events (snd (db.trimEvents fixtures.writer 12 2 s))).
Proof.
  intros row s.
  assert (Hl : U32.in_range 12) by (unfold U32.in_range, U32.modulus; lia).
  assert (Hw : U32.in_range 2) by (unfold U32.in_range, U32.modulus; lia).
  apply (proj2 (proj2 (trimEvents_keeps_retention_window fixtures.writer 12 2 s Hl Hw))).
  - cbn. auto.
  - cbn. lia.
Defined.

Lemma trimEvents_fails_iff_witness :
  let row n := {| db.ledger_sequence := n; db.application_order := 1;
                  db.contract_id := None; db.event_type := 1 |} in
  let s := {| db.events := [row 9; row 10; row 11; row 12];
              db.ledger_close_meta := []; db.io_script := [] |} in
  let failing := {| db.events := [row 9; row 10; row 11; row 12];
                    db.ledger_close_meta := []; db.io_script := [true] |} in
  (exists p, fst (db.trimEvents fixtures.reader 12 2 s) = Panic p)
  /\ snd (db.trimEvents fixtures.reader 12 2 s) = s
  /\ (exists err, fst (db.trimEvents fixtures.writer 12 2 failing) = Return (Some err))
  /\ db.events (snd (db.trimEvents fixtures.writer 12 2 failing)) = db.events failing.
Proof.
  intros row s failing. split; [| split; [| split]].
  - apply (proj1 (proj2 (trimEvents_fails_iff fixtures.reader 12 2 s))).
    split; [vm_compute; reflexivity | reflexivity].
  - apply (proj2 (proj2 (proj2 (proj2 (trimEvents_fails_iff fixtures.reader 12 2 s))))).
    reflexivity.
  - apply (proj1 (trimEvents_fails_iff fixtures.writer 12 2 failing)).
    split; [vm_compute; reflexivity | split; [discriminate | reflexivity]].
  - apply (proj1 (proj2 (proj2 (proj2 (trimEvents_fails_iff fixtures.writer 12 2 failing))))).
    vm_compute. discriminate.
Defined.

Lemma trimEvents_then_later_witness :
  let row n := {| db.ledger_sequence := n; db.application_order := 1;
                  db.contract_id := None; db.event_type := 1 |} in
  let s := {| db.events := [row 9; row 10; row 11; row 12];
              db.ledger_close_meta := []; db.io_script := [] |} in
  db.events (snd (db.trimEvents fixtures.writer 12 2
                    (snd (db.trimEvents fixtures.writer 11 2 s))))
  = [row 11; row 12].
Proof.
  intros row s.
  assert (H1 : U32.in_range 11) by (unfold U32.in_range, U32.modulus; lia).
  assert (Hw : U32.in_range 2) by (unfold U32.in_range, U32.modulus; lia).
  assert (Hmax : 12 + 1 < U32.modulus) by (unfold U32.modulus; lia).
  assert (Hle : 11 <= 12) by lia.
  destruct (trimEvents_then_later fixtures.writer 11 12 2 s
              (snd (db.trimEvents fixtures.writer 11 2 s))
              (snd (db.trimEvents fixtures.writer 12 2 s))
              (snd (db.trimEvents fixtures.writer 12 2
                      (snd (db.trimEvents fixtures.writer 11 2 s))))
              H1 Hw Hle Hmax eq_refl eq_refl eq_refl) as (Hrows & _).
  rewrite Hrows. reflexivity.
Defined.

(** ** The event-table migration: its extent, its writer, and the trim *)

Section MigrationBehaviour.
Import xdr db.

Variable HashTransactionInEnvelope : TransactionEnvelope -> string -> option Hash.

Variables (logger : Logger) (passphrase : string) (session : SessionInterface).

Lemma migration_first latestLedger retentionWindow :
  U32.in_range latestLedger ->
  U32.in_range retentionWindow ->
  FirstLedgerSeq
    (ApplicableRange
       (fst (newEventTableMigration logger retentionWindow passphrase session latestLedger)))
  = if retentionWindow <? latestLedger then latestLedger - retentionWindow else 2.
Proof.
  intros Hl Hw. unfold newEventTableMigration, ApplicableRange. cbn.
  destruct (Z.ltb_spec retentionWindow latestLedger) as [Hlt | Hge]; [| reflexivity].
  apply sub_no_borrow; [exact Hl | exact Hw | lia].
Qed.

(** X4: the applicable range of the migration never spans more than
    [retentionWindow + 1] ledgers, starts at ledger 1 or later, and is
    empty (first above last) exactly when the latest ledger is below 2 and
    not above the window. *)
Theorem migration_range_extent (latestLedger retentionWindow : Z) :
  U32.in_range latestLedger ->
  U32.in_range retentionWindow ->
  let range :=
    ApplicableRange
      (fst (newEventTableMigration logger retentionWindow passphrase session latestLedger)) in
  LastLedgerSeq range - FirstLedgerSeq range <= retentionWindow
  /\ 1 <= FirstLedgerSeq range
  /\ U32.in_range (FirstLedgerSeq range)
  /\ (LastLedgerSeq range < FirstLedgerSeq range
      <-> latestLedger <= retentionWindow /\ latestLedger < 2).
Proof.
  intros Hl Hw range.
  assert (Hfirst := migration_first latestLedger retentionWindow Hl Hw).
  fold range in Hfirst.
  assert (Hlast : LastLedgerSeq range = latestLedger) by reflexivity.
  rewrite Hfirst, Hlast. unfold U32.in_range, U32.modulus in *.
  destruct (Z.ltb_spec retentionWindow latestLedger); repeat split; lia.
Qed.

(** X5: the migration starts one ledger below the trim. When the latest
    ledger is above the window (and below the largest ledger number), a
    successful [trimEvents] for the same latest ledger and window keeps
    only rows of ledgers above the first ledger of the migration: the rows
    of that first ledger are deleted. *)
Theorem migration_first_ledger_is_trimmed (h : eventHandler)
    (latestLedger retentionWindow : Z) (s : Session) :
  U32.in_range latestLedger ->
  U32.in_range retentionWindow ->
  retentionWindow < latestLedger ->
  latestLedger + 1 < U32.modulus ->
  stmtCache h <> None ->
  nextFails s = false ->
  let first :=
    FirstLedgerSeq
      (ApplicableRange
         (fst (newEventTableMigration logger retentionWindow passphrase session
                 latestLedger))) in
  let out := trimEvents h latestLedger retentionWindow s in
  fst out = Return None
  /\ (forall r, In r (events (snd out)) <-> In r (events s) /\ first < ledger_sequence r).
Proof.
  intros Hl Hw Hgt Hmax Hcache Hok first out.
  assert (Hfirst : first = latestLedger - retentionWindow).
  { subst first. rewrite (migration_first _ _ Hl Hw).
    destruct (Z.ltb_spec retentionWindow latestLedger); [reflexivity | lia]. }
  assert (Hadd : U32.add latestLedger 1 = latestLedger + 1)
    by (apply add_no_carry; unfold U32.in_range in *; lia).
  clearbody first. subst first out. rewrite trimEvents_cases.
  destruct (Z.leb_spec (U32.add latestLedger 1) retentionWindow) as [Hle | Hgt1]; [lia |].
  destruct (stmtCache h) as [cache |]; [| congruence].
  rewrite Hok. cbn. split; [reflexivity |].
  intros r. rewrite keptRows_In.
  destruct (trim_cutoff _ _ Hl Hw Hgt1) as (_ & ->).
  split; intros [Hin Hseq]; (split; [exact Hin | lia]).
Qed.

(** The loop never reports a missing statement cache. *)
Lemma insertLoop_not_ErrNoStmtCache (h : eventHandler) (l : LedgerCloseMeta) :
  forall fuel txReader s s',
    insertLoop fuel h l txReader s <> Some (Return (Some ErrNoStmtCache), s').
Proof.
  induction fuel as [| fuel IH]; intros txReader s s'; [discriminate |].
  cbn [insertLoop].
  destruct (ingest.Read txReader) as [[[[] | tx] | pn] txReader']; try discriminate.
  destruct (negb (Successful (ingest.Result tx))); [apply IH |].
  destruct (ingest.GetDiagnosticEvents tx) as [txEvents |]; [| discriminate].
  destruct (length txEvents =? 0)%nat; [apply IH |].
  unfold execInsert. destruct (stmtCache h); [| discriminate].
  destruct (nextFails s); [discriminate | apply IH].
Qed.

(** X6: the migration made by [newEventTableMigration] writes with a
    handler that has a statement cache. Applying it to a ledger, whatever
    the ledger and the session, therefore never returns the error that
    [InsertEvents] returns on a handler without one; and a ledger without
    transactions makes it return nil with the session as it was. *)
Theorem migration_Apply_has_stmtCache (retentionWindow latestLedger : Z)
    (l : LedgerCloseMeta) (s : Session) :
  let migration :=
    fst (newEventTableMigration logger retentionWindow passphrase session latestLedger) in
  stmtCache (eventTableMigration.writer migration) <> None
  /\ (forall s', Apply HashTransactionInEnvelope migration l s
                 <> Some (Return (Some ErrNoStmtCache), s'))
  /\ (CountTransactions l = 0 ->
      Apply HashTransactionInEnvelope migration l s = Some (Return None, s)).
Proof.
  intros migration. split; [discriminate |]. split.
  - intros s'. unfold Apply, InsertEvents. subst migration.
    unfold newEventTableMigration. cbn [fst eventTableMigration.writer stmtCache].
    destruct (CountTransactions l =? 0); [discriminate |].
    destruct (ingest.NewLedgerTransactionReaderFromLedgerCloseMeta _ _ l)
      as [err | txReader]; [discriminate |].
    apply insertLoop_not_ErrNoStmtCache.
  - intros Hzero. unfold Apply, InsertEvents. subst migration.
    unfold newEventTableMigration. cbn [fst eventTableMigration.writer stmtCache].
    rewrite Hzero. reflexivity.
Qed.

End MigrationBehaviour.

Lemma migration_range_extent_witness :
  let range :=
    db.ApplicableRange
      (fst (db.newEventTableMigration db.DefaultLogger 120 "passphrase" db.DBSession 1)) in
  db.LastLedgerSeq range < db.FirstLedgerSeq range.
Proof.
  intros range.
  assert (Hl : U32.in_range 1) by (unfold U32.in_range, U32.modulus; lia).
  assert (Hw : U32.in_range 120) by (unfold U32.in_range, U32.modulus; lia).
  apply (proj2 (proj2 (proj2 (migration_range_extent db.DefaultLogger "passphrase"
                                db.DBSession 1 120 Hl Hw)))).
  lia.
Defined.

Lemma migration_first_ledger_is_trimmed_witness :
  let row n := {| db.ledger_sequence := n; db.application_order := 1;
                  db.contract_id := None; db.event_type := 1 |} in
  let s := {| db.events := [row 9; row 10; row 11; row 12];
              db.ledger_close_meta := []; db.io_script := [] |} in
  db.FirstLedgerSeq
    (db.ApplicableRange
       (fst (db.newEventTableMigration db.DefaultLogger 2 "passphrase" db.DBSession 12)))
  = 10
  /\ ~ In (row 10) (db.events (snd (db.trimEvents fixtures.writer 12 2 s))).
Proof.
  intros row s. split; [reflexivity |].
  assert (Hl : U32.in_range 12) by (unfold U32.in_range, U32.modulus; lia).
  assert (Hw : U32.in_range 2) by (unfold U32.in_range, U32.modulus; lia).
  assert (Hgt : 2 < 12) by lia.
  assert (Hmax : 12 + 1 < U32.modulus) by (unfold U32.modulus; lia).
  assert (Hcache : db.stmtCache fixtures.writer <> None) by discriminate.
  destruct (migration_first_ledger_is_trimmed db.DefaultLogger "passphrase" db.DBSession
              fixtures.writer 12 2 s Hl Hw Hgt Hmax Hcache eq_refl) as (_ & Hrows).
  intros Hin. apply Hrows in Hin. destruct Hin as (_ & Hlt). vm_compute in Hlt. discriminate.
Defined.

Lemma migration_Apply_has_stmtCache_witness :
  let empty := {| xdr.LedgerSeq := 104; xdr.CloseTime := 2700;
                  xdr.TxSet := []; xdr.TxProcessing := [] |} in
  let migration :=
    fst (db.newEventTableMigration db.DefaultLogger 120 "passphrase" db.DBSession 103) in
  db.Apply fixtures.HashTransactionInEnvelope migration empty (fixtures.ledgerOnly empty)
  = Some (Return None, fixtures.ledgerOnly empty).
Proof.
  intros empty migration.
  apply (proj2 (proj2 (migration_Apply_has_stmtCache fixtures.HashTransactionInEnvelope
                         db.DefaultLogger "passphrase" db.DBSession 120 103 empty
                         (fixtures.ledgerOnly empty)))).
  reflexivity.
Defined.

(** ** The write path: what a failed insertion leaves, how many statements
       it issues, and the trim that follows *)

Section InsertBehaviour.
Import xdr db.

Variable HashTransactionInEnvelope : TransactionEnvelope -> string -> option Hash.

Lemma hasBatch_unsuccessful p : Successful (TxResult p) = false -> behaviour.hasBatch p = false.
Proof. intros Hfail. unfold behaviour.hasBatch. rewrite Hfail. reflexivity. Qed.

(** The loop from the transaction after [done] on: it appends the rows of
    the next [k] transactions, whole, and stops; when it returns no error
    it went through all of them, issued one statement per batch, and
    found every meta at version 3. *)
Lemma insertLoop_progress (h : eventHandler) (l : LedgerCloseMeta) m cache :
  stmtCache h = Some cache ->
  CountTransactions l < U32.modulus ->
  forall todo done fuel s,
    TxProcessing l = done ++ todo ->
    (length todo < fuel)%nat ->
    exists r s' k,
      insertLoop fuel h l
        {| ingest.lcm := l; ingest.envelopesByHash := m;
           ingest.readIdx := Z.of_nat (length done) |} s = Some (r, s')
      /\ (k <= length todo)%nat
      /\ events s' = events s ++ spec.rowsFrom l (length done) (firstn k todo)
      /\ ledger_close_meta s' = ledger_close_meta s
      /\ (r = Return None ->
          k = length todo
          /\ io_script s'
             = skipn (length (List.filter behaviour.hasBatch todo)) (io_script s)
          /\ forall q, In q todo -> V (TxApplyProcessing q) = 3).
Proof.
  intros Hcache Hcount.
  induction todo as [| p todo IH]; intros done fuel s Htxs Hfuel.
  - destruct fuel as [| fuel]; [cbn in Hfuel; lia |].
    assert (Hend : Z.of_nat (length done) = CountTransactions l).
    { unfold CountTransactions. rewrite Htxs, app_nil_r. reflexivity. }
    cbn [insertLoop]. rewrite Hend, Read_at_end.
    exists (Return None), s, 0%nat. cbn. rewrite app_nil_r.
    repeat split; try reflexivity. intros q [].
  - destruct fuel as [| fuel]; [cbn in Hfuel; lia |].
    cbn [length] in Hfuel.
    assert (Hidx : Z.of_nat (length done) + 1 < U32.modulus).
    { unfold CountTransactions in Hcount. rewrite Htxs, length_app in Hcount.
      cbn [length] in Hcount. lia. }
    assert (Htxs' : TxProcessing l = (done ++ [p]) ++ todo)
      by (rewrite <- app_assoc; exact Htxs).
    assert (Hlen : length (done ++ [p]) = S (length done))
      by (rewrite length_app; cbn; lia).
    assert (Hstop : forall (r0 : outcome (option error)) (s0 : Session),
               r0 <> Return None ->
               events s0 = events s ->
               ledger_close_meta s0 = ledger_close_meta s ->
               exists r s' k,
                 Some (r0, s0) = Some (r, s')
                 /\ (k <= length (p :: todo))%nat
                 /\ events s' = events s ++ spec.rowsFrom l (length done) (firstn k (p :: todo))
                 /\ ledger_close_meta s' = ledger_close_meta s
                 /\ (r = Return None ->
                     k = length (p :: todo)
                     /\ io_script s'
                        = skipn (length (List.filter behaviour.hasBatch (p :: todo)))
                            (io_script s)
                     /\ forall q, In q (p :: todo) -> V (TxApplyProcessing q) = 3)).
    { intros r0 s0 Hr0 Hev Hlcm. exists r0, s0, 0%nat. cbn [firstn spec.rowsFrom].
      rewrite app_nil_r. repeat split; try assumption; try contradiction. cbn. lia. }
    assert (Hnext : forall s1 extra,
               V (TxApplyProcessing p) = 3 ->
               events s1 = events s ++ spec.rowsOfTransaction l (length done) p ->
               ledger_close_meta s1 = ledger_close_meta s ->
               io_script s1 = skipn extra (io_script s) ->
               (extra + length (List.filter behaviour.hasBatch todo))%nat
               = length (List.filter behaviour.hasBatch (p :: todo)) ->
               exists r s' k,
                 insertLoop fuel h l
                   {| ingest.lcm := l; ingest.envelopesByHash := m;
                      ingest.readIdx := Z.of_nat (length (done ++ [p])) |} s1 = Some (r, s')
                 /\ (k <= length (p :: todo))%nat
                 /\ events s' = events s ++ spec.rowsFrom l (length done) (firstn k (p :: todo))
                 /\ ledger_close_meta s' = ledger_close_meta s
                 /\ (r = Return None ->
                     k = length (p :: todo)
                     /\ io_script s'
                        = skipn (length (List.filter behaviour.hasBatch (p :: todo)))
                            (io_script s)
                     /\ forall q, In q (p :: todo) -> V (TxApplyProcessing q) = 3)).
    { intros s1 extra Hv Hev Hlcm Hio Hcnt.
      destruct (IH (done ++ [p]) fuel s1 Htxs' ltac:(lia))
        as (r & s' & k & Hrun & Hk & Hrows & Hl' & Hok).
      exists r, s', (S k). rewrite Hlen in Hrows.
      split; [exact Hrun |]. split; [cbn; lia |].
      split; [cbn [firstn spec.rowsFrom]; rewrite Hrows, Hev, <- app_assoc; reflexivity |].
      split; [rewrite Hl'; exact Hlcm |].
      intros Hr. destruct (Hok Hr) as (-> & Hscript & Hthree).
      split; [reflexivity |]. split.
      - rewrite Hscript, Hio, <- Hcnt, skipn_skipn. f_equal. lia.
      - intros q [<- | Hq]; [exact Hv | apply Hthree; exact Hq]. }
    cbn [insertLoop]. rewrite (Read_at l m done p todo Htxs).
    destruct (ingest.lookupEnvelope m (TransactionHash (TxResult p))) as [envelope |];
      [| apply Hstop; [discriminate | reflexivity | reflexivity]].
    destruct (Z.eqb_spec (V (TxApplyProcessing p)) 3) as [Hv | Hv];
      [| apply Hstop; [discriminate | reflexivity | reflexivity]].
    cbn [ingest.Result].
    destruct (Successful (TxResult p)) eqn:Hsucc; cbn [negb].
    2:{ apply (Hnext s 0%nat); try reflexivity; [exact Hv | |].
        - rewrite rowsOfTransaction_unsuccessful by exact Hsucc. symmetry. apply app_nil_r.
        - cbn [List.filter]. rewrite hasBatch_unsuccessful by exact Hsucc. reflexivity. }
    unfold ingest.GetDiagnosticEvents. cbn [ingest.UnsafeMeta].
    destruct (GetDiagnosticEvents (TxApplyProcessing p)) as [txEvents |] eqn:Hdiag;
      [| apply Hstop; [discriminate | reflexivity | reflexivity]].
    destruct txEvents as [| event txEvents].
    + cbn [length Nat.eqb]. apply (Hnext s 0%nat); try reflexivity; [exact Hv | |].
      * unfold spec.rowsOfTransaction. rewrite Hsucc, Hdiag. cbn. symmetry. apply app_nil_r.
      * cbn [List.filter]. unfold behaviour.hasBatch. rewrite Hsucc, Hdiag. reflexivity.
    + cbn [length Nat.eqb].
      rewrite (valuesOf_rows l (length done) envelope p _ Hidx Hsucc Hdiag).
      unfold execInsert. rewrite Hcache.
      destruct (nextFails s); [apply Hstop; [discriminate | reflexivity | reflexivity] |].
      apply (Hnext _ 1%nat); [exact Hv | reflexivity | reflexivity | reflexivity |].
      cbn [List.filter]. unfold behaviour.hasBatch. rewrite Hsucc, Hdiag. reflexivity.
Qed.

(** Every outcome of [InsertEvents], at once. *)
Lemma InsertEvents_outcome (h : eventHandler) (l : LedgerCloseMeta) (s : Session) :
  CountTransactions l < U32.modulus ->
  exists r s' k,
    InsertEvents HashTransactionInEnvelope h l s = Some (r, s')
    /\ (k <= length (TxProcessing l))%nat
    /\ events s' = events s ++ spec.rowsFrom l 0 (firstn k (TxProcessing l))
    /\ ledger_close_meta s' = ledger_close_meta s
    /\ (r = Return None ->
        k = length (TxProcessing l)
        /\ io_script s' = skipn (behaviour.batches l) (io_script s)
        /\ spec.metaVersion3 l).
Proof.
  intros Hcount. unfold InsertEvents.
  assert (Hstop : forall err : error,
             exists r s' k,
               Some (Return (Some err), s) = Some (r, s')
               /\ (k <= length (TxProcessing l))%nat
               /\ events s' = events s ++ spec.rowsFrom l 0 (firstn k (TxProcessing l))
               /\ ledger_close_meta s' = ledger_close_meta s
               /\ (r = Return None ->
                   k = length (TxProcessing l)
                   /\ io_script s' = skipn (behaviour.batches l) (io_script s)
                   /\ spec.metaVersion3 l)).
  { intros err. exists (Return (Some err)), s, 0%nat. cbn. rewrite app_nil_r.
    repeat split; try discriminate. lia. }
  destruct (stmtCache h) as [cache |] eqn:Hcache; [| apply Hstop].
  destruct (Z.eqb_spec (CountTransactions l) 0) as [Hz | Hnz].
  { exists (Return None), s, 0%nat. unfold CountTransactions in Hz.
    unfold behaviour.batches, spec.metaVersion3.
    destruct (TxProcessing l); [| cbn in Hz; lia].
    cbn. rewrite app_nil_r. repeat split; try reflexivity. intros q []. }
  unfold ingest.NewLedgerTransactionReaderFromLedgerCloseMeta.
  destruct (ingest.storeTransactions HashTransactionInEnvelope (passphrase h) (TxSet l) [])
    as [m |]; [| apply Hstop].
  destruct (insertLoop_progress h l m cache Hcache Hcount (TxProcessing l) []
              (S (Z.to_nat (CountTransactions l))) s eq_refl)
    as (r & s' & k & Hrun & Hk & Hrows & Hlcm & Hok).
  { unfold CountTransactions. rewrite Nat2Z.id. lia. }
  exists r, s', k. cbn [length] in Hrun, Hrows. change (Z.of_nat 0) with 0 in Hrun.
  split; [exact Hrun |]. split; [exact Hk |]. split; [exact Hrows |].
  split; [exact Hlcm |].
  intros Hr. destruct (Hok Hr) as (Hall & Hscript & Hthree).
  split; [exact Hall |]. split; [exact Hscript | exact Hthree].
Qed.





End InsertBehaviour.

(** ** The read path: when the scan stops, when it selects nothing *)

Section ScanBehaviour.
Import xdr db.

Variable HashTransactionInEnvelope : TransactionEnvelope -> string -> option Hash.

Lemma accepts_app f history front back :
  behaviour.accepts f history (front ++ back)
  = behaviour.accepts f history front && behaviour.accepts f (history ++ front) back.
Proof.
  revert history. induction front as [| c front IH]; intros history; cbn.
  - rewrite app_nil_r. reflexivity.
  - rewrite IH, <- app_assoc, andb_assoc. reflexivity.
Qed.

Lemma accepts_each f calls :
  forall history,
    behaviour.accepts f history calls = true ->
    forall front c back,
      calls = front ++ c :: back -> behaviour.answers f (history ++ front) c = true.
Proof.
  induction calls as [| c0 calls IH]; intros history Hacc front c back Heq.
  - destruct front; discriminate.
  - cbn in Hacc. apply andb_prop in Hacc. destruct Hacc as (Hc0 & Hrest).
    destruct front as [| c1 front]; cbn in Heq; inversion Heq; subst.
    + rewrite app_nil_r. exact Hc0.
    + replace (history ++ c1 :: front) with ((history ++ [c1]) ++ front)
        by (rewrite <- app_assoc; reflexivity).
      apply (IH _ Hrest front c back). reflexivity.
Qed.

(** The inner loop goes on exactly as long as the visitor accepts. *)
Lemma visitEvents_accepts f l txIndex closeTime hash diagEvents :
  forall eventIndex trace,
    exists added,
      snd (visitEvents f l txIndex closeTime hash eventIndex diagEvents trace)
      = trace ++ added
      /\ (fst (visitEvents f l txIndex closeTime hash eventIndex diagEvents trace) = true ->
          behaviour.accepts f trace added = true)
      /\ (fst (visitEvents f l txIndex closeTime hash eventIndex diagEvents trace) = false ->
          exists front c,
            added = front ++ [c]
            /\ behaviour.accepts f trace front = true
            /\ behaviour.answers f (trace ++ front) c = false).
Proof.
  induction diagEvents as [| event rest IH]; intros eventIndex trace.
  - exists []. cbn. rewrite app_nil_r. repeat split; try reflexivity; discriminate.
  - cbn [visitEvents].
    set (call := {| call_event := event;
                    call_cursor := {| Ledger := LedgerSequence l;
                                      Tx := U32.wrap txIndex;
                                      Event := U32.wrap eventIndex |};
                    call_ledgerCloseTimestamp := closeTime;
                    call_txHash := hash |}).
    assert (Hdef : f trace event
                     {| Ledger := LedgerSequence l;
                        Tx := U32.wrap txIndex;
                        Event := U32.wrap eventIndex |} closeTime hash
                   = behaviour.answers f trace call) by reflexivity.
    rewrite Hdef. clear Hdef.
    destruct (behaviour.answers f trace call) eqn:Hanswer.
    + destruct (IH (eventIndex + 1) (trace ++ [call])) as (added & Hrun & Hgo & Hstop).
      exists (call :: added). rewrite Hrun, <- app_assoc. split; [reflexivity |]. split.
      * intros Hb. cbn. rewrite Hanswer, (Hgo Hb). reflexivity.
      * intros Hb. destruct (Hstop Hb) as (front & c & -> & Hfront & Hc).
        exists (call :: front), c. split; [reflexivity |]. split.
        -- cbn. rewrite Hanswer, Hfront. reflexivity.
        -- rewrite <- app_assoc in Hc. exact Hc.
    + exists [call]. split; [reflexivity |]. split; [discriminate |].
      intros _. exists [], call. rewrite app_nil_r. repeat split. exact Hanswer.
Qed.

(** The outer loop: either every call it made was accepted, or the last
    one was refused, the ones before were accepted and it returned no
    error. *)
Lemma scanRows_accepts h f rows :
  forall trace,
    exists added,
      snd (scanRows HashTransactionInEnvelope h f rows trace) = trace ++ added
      /\ (behaviour.accepts f trace added = true
          \/ (fst (scanRows HashTransactionInEnvelope h f rows trace) = Return None
              /\ exists front c,
                   added = front ++ [c]
                   /\ behaviour.accepts f trace front = true
                   /\ behaviour.answers f (trace ++ front) c = false)).
Proof.
  induction rows as [| row rows IH]; intros trace.
  - exists []. cbn. rewrite app_nil_r. split; [reflexivity | left; reflexivity].
  - assert (Hquit : forall r0 : outcome (option error),
              exists added : list VisitorCall,
                trace = trace ++ added
                /\ (behaviour.accepts f trace added = true
                    \/ (r0 = Return None
                        /\ exists front c,
                             added = front ++ [c]
                             /\ behaviour.accepts f trace front = true
                             /\ behaviour.answers f (trace ++ front) c = false))).
    { intros r0. exists []. rewrite app_nil_r. split; [reflexivity | left; reflexivity]. }
    cbn [scanRows].
    destruct (ingest.NewLedgerTransactionReaderFromLedgerCloseMeta _ _ _) as [| reader];
      [apply Hquit |].
    destruct (ingest.Seek reader (TxIndex row - 1)) as [[err |] reader']; [apply Hquit |].
    destruct (ingest.Read reader') as [[[err | ledgerTx] | pn] reader''];
      [apply Hquit | | apply Hquit].
    destruct (ingest.GetDiagnosticEvents ledgerTx) as [diagEvents |]; [| apply Hquit].
    destruct (visitEvents_accepts f (Lcm row) (TxIndex row) (LedgerCloseTime (Lcm row))
                (TransactionHash (ingest.Result ledgerTx)) diagEvents 0 trace)
      as (added & Hrun & Hgo & Hstop).
    destruct (visitEvents f (Lcm row) (TxIndex row) _ _ 0 diagEvents trace)
      as [[|] trace'].
    + cbn in Hrun, Hgo. subst trace'.
      destruct (IH (trace ++ added)) as (more & Hrest & Hmore).
      exists (added ++ more). rewrite Hrest, <- app_assoc. split; [reflexivity |].
      destruct Hmore as [Hall | (Herr0 & front & c & -> & Hfront & Hc)].
      * left. rewrite accepts_app, (Hgo eq_refl), Hall. reflexivity.
      * right. split; [exact Herr0 |]. exists (added ++ front), c.
        rewrite <- !app_assoc. split; [reflexivity |]. split.
        -- rewrite accepts_app, (Hgo eq_refl), Hfront. reflexivity.
        -- rewrite <- app_assoc in Hc. exact Hc.
    + cbn in Hrun, Hstop. subst trace'. exists added. split; [reflexivity |].
      right. split; [reflexivity |]. apply Hstop. reflexivity.
Qed.

(** X10: the scan stops at the first refusal. Every call of [GetEvents]
    to the visitor that is followed by another call was answered [true] by
    the visitor (asked with the calls made so far); and when the visitor
    answers [false], that call is the last one and [GetEvents] returns no
    error. *)
Theorem GetEvents_stops_at_refusal (h : eventHandler) (cursorRange : CursorRange)
    (contractIDs : list Hash) (f : ScanFunction) (s : Session) :
  let out := GetEvents HashTransactionInEnvelope h cursorRange contractIDs f s in
  let trace := snd (fst out) in
  (forall front c back,
     trace = front ++ c :: back -> back <> [] -> behaviour.answers f front c = true)
  /\ (forall front c back,
        trace = front ++ c :: back -> behaviour.answers f front c = false ->
        back = [] /\ fst (fst out) = Return None).
Proof.
  intros out trace.
  assert (Hshape : behaviour.accepts f [] trace = true
                   \/ (fst (fst out) = Return None
                       /\ exists front c,
                            trace = front ++ [c]
                            /\ behaviour.accepts f [] front = true
                            /\ behaviour.answers f front c = false)).
  { subst trace out. unfold GetEvents, selectRows.
    destruct (nextFails s); [left; reflexivity |].
    destruct (length (queryRows cursorRange contractIDs s) <? 1)%nat; [left; reflexivity |].
    destruct (scanRows_accepts h f (queryRows cursorRange contractIDs s) [])
      as (added & Hrun & Hcases).
    destruct (scanRows HashTransactionInEnvelope h f (queryRows cursorRange contractIDs s) [])
      as [err calls].
    cbn in Hrun, Hcases |- *. subst calls. exact Hcases. }
  assert (Hall : forall front c back,
             trace = front ++ c :: back ->
             back <> [] \/ behaviour.accepts f [] trace = true ->
             behaviour.answers f front c = true).
  { intros front c back Heq Hwhy.
    destruct Hshape as [Hacc | (_ & front0 & c0 & Heq0 & Hfront0 & _)].
    - apply (accepts_each f trace [] Hacc front c back Heq).
    - destruct Hwhy as [Hback | Hacc].
      + destruct (exists_last Hback) as (back' & c1 & ->).
        rewrite Heq0 in Heq.
        replace (front ++ c :: back' ++ [c1]) with ((front ++ c :: back') ++ [c1]) in Heq
          by (rewrite <- app_assoc; reflexivity).
        apply app_inj_tail in Heq. destruct Heq as (Hf & _).
        apply (accepts_each f front0 [] Hfront0 front c back'). exact Hf.
      + apply (accepts_each f trace [] Hacc front c back Heq). }
  split.
  - intros front c back Heq Hback. apply (Hall front c back Heq). left. exact Hback.
  - intros front c back Heq Hrefused.
    destruct Hshape as [Hacc | (Herr & front0 & c0 & Heq0 & Hfront0 & Hc0)].
    + rewrite (Hall front c back Heq (or_intror Hacc)) in Hrefused. discriminate.
    + split; [| exact Herr].
      destruct back as [| c1 back]; [reflexivity |].
      rewrite (Hall front c (c1 :: back) Heq) in Hrefused; [discriminate |].
      left. discriminate.
Qed.

Lemma filter_none {A : Type} (test : A -> bool) (xs : list A) :
  (forall x, In x xs -> test x = false) -> List.filter test xs = [].
Proof.
  induction xs as [| x xs IH]; intros Hnone; [reflexivity |]. cbn.
  rewrite (Hnone x (or_introl eq_refl)). apply IH. intros y Hy. apply Hnone. right. exact Hy.
Qed.

(** X11: the scan works from the event rows that pass the [WHERE] clause
    and whose ledger is stored. When there is no such row (an empty or
    inverted ledger range, a contract filter that matches no row, ledgers
    that were trimmed away), the visitor is never called, and [GetEvents]
    returns no error unless the query itself fails. *)
Theorem GetEvents_nothing_selected (h : eventHandler) (cursorRange : CursorRange)
    (contractIDs : list Hash) (f : ScanFunction) (s : Session) :
  (forall e, In e (events s) ->
             whereClause cursorRange contractIDs e = false
             \/ forall l, ~ In (ledger_sequence e, l) (ledger_close_meta s)) ->
  let out := GetEvents HashTransactionInEnvelope h cursorRange contractIDs f s in
  snd (fst out) = []
  /\ (nextFails s = false -> fst (fst out) = Return None)
  /\ (nextFails s = true -> fst (fst out) = Return (Some ErrSelect)).
Proof.
  intros Hnone out. subst out. unfold GetEvents, selectRows.
  destruct (nextFails s); [repeat split; discriminate |].
  assert (Hrows : queryRows cursorRange contractIDs s = []).
  { unfold queryRows. rewrite filter_none; [reflexivity |].
    intros [e l] Hin. cbn. apply in_flat_map in Hin. destruct Hin as (e' & He' & Hjoin).
    unfold joinLedger in Hjoin. apply in_map_iff in Hjoin.
    destruct Hjoin as ([k l'] & Heq & Hl'). inversion Heq; subst e' l'.
    apply filter_In in Hl'. destruct Hl' as (Hl' & Hk). cbn in Hk.
    apply Z.eqb_eq in Hk. subst k.
    destruct (Hnone e He') as [Hwhere | Hgone]; [exact Hwhere |].
    exfalso. apply (Hgone l). exact Hl'. }
  rewrite Hrows. cbn. repeat split; discriminate.
Qed.

(** An empty or inverted ledger range selects no row. *)
Lemma whereClause_empty_range cursorRange contractIDs e :
  Ledger (End_ cursorRange) <= Ledger (Start cursorRange) ->
  whereClause cursorRange contractIDs e = false.
Proof.
  intros Hle. unfold whereClause.
  destruct (Z.leb_spec (Ledger (Start cursorRange)) (ledger_sequence e)); [| reflexivity].
  destruct (Tx (Start cursorRange) <=? application_order e); [| reflexivity].
  destruct (Z.ltb_spec (ledger_sequence e) (Ledger (End_ cursorRange))); [lia | reflexivity].
Qed.

(** *** What a call carries *)

Lemma readTransaction_steps pass l txIndex reader reader' tx reader'' :
  ingest.NewLedgerTransactionReaderFromLedgerCloseMeta HashTransactionInEnvelope pass l
  = inr reader ->
  ingest.Seek reader (txIndex - 1) = (None, reader') ->
  ingest.Read reader' = (Return (inr tx), reader'') ->
  methods.readTransaction HashTransactionInEnvelope pass l txIndex = Return (inr tx).
Proof.
  intros Hopen Hseek Hread. unfold methods.readTransaction.
  rewrite Hopen, Hseek, Hread. reflexivity.
Qed.

(** The inner loop presents the events at their positions. *)
Lemma visitEvents_payload f l txIndex closeTime hash :
  forall todo done trace,
    exists added,
      snd (visitEvents f l txIndex closeTime hash (Z.of_nat (length done)) todo trace)
      = trace ++ added
      /\ Forall (fun c =>
                   exists k,
                     nth_error (done ++ todo) k = Some (call_event c)
                     /\ call_cursor c = {| Ledger := LedgerSequence l;
                                           Tx := U32.wrap txIndex;
                                           Event := U32.wrap (Z.of_nat k) |}
                     /\ call_ledgerCloseTimestamp c = closeTime
                     /\ call_txHash c = hash) added.
Proof.
  induction todo as [| event todo IH]; intros done trace.
  - exists []. cbn. rewrite app_nil_r. split; [reflexivity | constructor].
  - cbn [visitEvents].
    set (call := {| call_event := event;
                    call_cursor := {| Ledger := LedgerSequence l;
                                      Tx := U32.wrap txIndex;
                                      Event := U32.wrap (Z.of_nat (length done)) |};
                    call_ledgerCloseTimestamp := closeTime;
                    call_txHash := hash |}).
    assert (Hcall : exists k,
               nth_error (done ++ event :: todo) k = Some (call_event call)
               /\ call_cursor call = {| Ledger := LedgerSequence l;
                                        Tx := U32.wrap txIndex;
                                        Event := U32.wrap (Z.of_nat k) |}
               /\ call_ledgerCloseTimestamp call = closeTime
               /\ call_txHash call = hash).
    { exists (length done). rewrite nth_error_app2 by lia. rewrite Nat.sub_diag.
      repeat split. }
    destruct (f trace event _ closeTime hash).
    + destruct (IH (done ++ [event]) (trace ++ [call])) as (added & Hrun & Hadded).
      rewrite length_app in Hrun. cbn [length] in Hrun.
      replace (Z.of_nat (length done + 1)) with (Z.of_nat (length done) + 1) in Hrun by lia.
      rewrite <- app_assoc in Hadded. cbn [app] in Hadded.
      exists (call :: added). rewrite Hrun, <- app_assoc. split; [reflexivity |].
      constructor; [exact Hcall | exact Hadded].
    + exists [call]. split; [reflexivity |]. constructor; [exact Hcall | constructor].
Qed.

(** The outer loop presents, for a row, events of the transaction of the
    row, decoded from the ledger of the row. *)
Lemma scanRows_payload h f rows :
  forall trace,
    exists added,
      snd (scanRows HashTransactionInEnvelope h f rows trace) = trace ++ added
      /\ Forall (fun c =>
                   exists row tx diagEvents k,
                     In row rows
                     /\ methods.readTransaction HashTransactionInEnvelope (passphrase h)
                          (Lcm row) (TxIndex row) = Return (inr tx)
                     /\ ingest.GetDiagnosticEvents tx = Some diagEvents
                     /\ nth_error diagEvents k = Some (call_event c)
                     /\ call_cursor c = {| Ledger := LedgerSequence (Lcm row);
                                           Tx := U32.wrap (TxIndex row);
                                           Event := U32.wrap (Z.of_nat k) |}
                     /\ call_ledgerCloseTimestamp c = LedgerCloseTime (Lcm row)
                     /\ call_txHash c = TransactionHash (ingest.Result tx)) added.
Proof.
  induction rows as [| row rows IH]; intros trace.
  - exists []. cbn. rewrite app_nil_r. split; [reflexivity | constructor].
  - assert (Hnone : exists added : list VisitorCall,
              trace = trace ++ added
              /\ Forall (fun c =>
                           exists row0 tx diagEvents k,
                             In row0 (row :: rows)
                             /\ methods.readTransaction HashTransactionInEnvelope (passphrase h)
                                  (Lcm row0) (TxIndex row0) = Return (inr tx)
                             /\ ingest.GetDiagnosticEvents tx = Some diagEvents
                             /\ nth_error diagEvents k = Some (call_event c)
                             /\ call_cursor c = {| Ledger := LedgerSequence (Lcm row0);
                                                   Tx := U32.wrap (TxIndex row0);
                                                   Event := U32.wrap (Z.of_nat k) |}
                             /\ call_ledgerCloseTimestamp c = LedgerCloseTime (Lcm row0)
                             /\ call_txHash c = TransactionHash (ingest.Result tx)) added).
    { exists []. rewrite app_nil_r. split; [reflexivity | constructor]. }
    cbn [scanRows].
    destruct (ingest.NewLedgerTransactionReaderFromLedgerCloseMeta _ _ _)
      as [| reader] eqn:Hopen; [exact Hnone |].
    destruct (ingest.Seek reader (TxIndex row - 1)) as [[err |] reader'] eqn:Hseek;
      [exact Hnone |].
    destruct (ingest.Read reader') as [[[err | ledgerTx] | pn] reader''] eqn:Hread;
      [exact Hnone | | exact Hnone].
    destruct (ingest.GetDiagnosticEvents ledgerTx) as [diagEvents |] eqn:Hdiag;
      [| exact Hnone].
    pose proof (readTransaction_steps _ _ _ _ _ _ _ Hopen Hseek Hread) as Htx.
    destruct (visitEvents_payload f (Lcm row) (TxIndex row) (LedgerCloseTime (Lcm row))
                (TransactionHash (ingest.Result ledgerTx)) diagEvents [] trace)
      as (added & Hrun & Hadded).
    cbn [length app] in Hrun, Hadded. change (Z.of_nat 0) with 0 in Hrun.
    assert (Hmine : Forall (fun c =>
                              exists row0 tx diagEvents0 k,
                                In row0 (row :: rows)
                                /\ methods.readTransaction HashTransactionInEnvelope
                                     (passphrase h) (Lcm row0) (TxIndex row0) = Return (inr tx)
                                /\ ingest.GetDiagnosticEvents tx = Some diagEvents0
                                /\ nth_error diagEvents0 k = Some (call_event c)
                                /\ call_cursor c = {| Ledger := LedgerSequence (Lcm row0);
                                                      Tx := U32.wrap (TxIndex row0);
                                                      Event := U32.wrap (Z.of_nat k) |}
                                /\ call_ledgerCloseTimestamp c = LedgerCloseTime (Lcm row0)
                                /\ call_txHash c = TransactionHash (ingest.Result tx)) added).
    { eapply List.Forall_impl; [| exact Hadded].
      intros c (k & Hk & Hcur & Htime & Hhash).
      exists row, ledgerTx, diagEvents, k.
      repeat split; try assumption. left. reflexivity. }
    destruct (visitEvents f (Lcm row) (TxIndex row) _ _ 0 diagEvents trace)
      as [[|] trace'].
    + cbn in Hrun. subst trace'.
      destruct (IH (trace ++ added)) as (more & Hrest & Hmore).
      exists (added ++ more). rewrite Hrest, <- app_assoc. split; [reflexivity |].
      apply Forall_app. split; [exact Hmine |].
      eapply List.Forall_impl; [| exact Hmore].
      intros c (row0 & tx & evs & k & Hin & Hc).
      exists row0, tx, evs, k. split; [right; exact Hin | exact Hc].
    + cbn in Hrun. subst trace'. exists added. split; [reflexivity | exact Hmine].
Qed.

(** X12: what is presented is what the cursor names. For every call of
    [GetEvents] to the visitor there is an event row and a ledger stored
    under the sequence of the row such that the event presented is the
    diagnostic event at the event index of the cursor in the transaction
    at the transaction index of the row in that ledger; the cursor carries
    the sequence of the ledger, the close time is the one of the ledger
    and the hash the one of the transaction. *)
Theorem GetEvents_call_matches_cursor (h : eventHandler) (cursorRange : CursorRange)
    (contractIDs : list Hash) (f : ScanFunction) (s : Session) :
  Forall (fun c =>
            exists e l tx diagEvents k,
              In e (events s)
              /\ In (ledger_sequence e, l) (ledger_close_meta s)
              /\ whereClause cursorRange contractIDs e = true
              /\ methods.readTransaction HashTransactionInEnvelope (passphrase h) l
                   (application_order e) = Return (inr tx)
              /\ ingest.GetDiagnosticEvents tx = Some diagEvents
              /\ nth_error diagEvents k = Some (call_event c)
              /\ call_cursor c = {| Ledger := LedgerSequence l;
                                    Tx := U32.wrap (application_order e);
                                    Event := U32.wrap (Z.of_nat k) |}
              /\ call_ledgerCloseTimestamp c = LedgerCloseTime l
              /\ call_txHash c = TransactionHash (ingest.Result tx))
         (snd (fst (GetEvents HashTransactionInEnvelope h cursorRange contractIDs f s))).
Proof.
  unfold GetEvents, selectRows.
  destruct (nextFails s); [constructor |].
  destruct (length (queryRows cursorRange contractIDs s) <? 1)%nat; [constructor |].
  destruct (scanRows_payload h f (queryRows cursorRange contractIDs s) [])
    as (added & Hrun & Hadded).
  destruct (scanRows HashTransactionInEnvelope h f (queryRows cursorRange contractIDs s) [])
    as [err trace].
  cbn in Hrun |- *. subst trace.
  eapply List.Forall_impl; [| exact Hadded].
  intros c (row & tx & evs & k & Hrow & Htx & Hdiag & Hk & Hcur & Htime & Hhash).
  destruct (queryRows_In _ _ _ _ Hrow) as (e & He & Hlcm & Hwhere & Hidx).
  exists e, (Lcm row), tx, evs, k. rewrite <- Hidx.
  repeat split; assumption.
Qed.

(** *** Scans that succeed *)

Lemma resolves_steps pass l txIndex tx :
  methods.readTransaction HashTransactionInEnvelope pass l txIndex = Return (inr tx) ->
  exists reader reader' reader'',
    ingest.NewLedgerTransactionReaderFromLedgerCloseMeta HashTransactionInEnvelope pass l
    = inr reader
    /\ ingest.Seek reader (txIndex - 1) = (None, reader')
    /\ ingest.Read reader' = (Return (inr tx), reader'').
Proof.
  unfold methods.readTransaction. intros Hread.
  destruct (ingest.NewLedgerTransactionReaderFromLedgerCloseMeta _ pass l)
    as [| reader] eqn:Hopen; [discriminate |].
  destruct (ingest.Seek reader (txIndex - 1)) as [[err |] reader'] eqn:Hseek;
    [discriminate |].
  destruct (ingest.Read reader') as [[[err | tx'] | pn] reader''] eqn:Hnext; cbn in Hread;
    [discriminate | | discriminate].
  inversion Hread; subst tx'. exists reader, reader', reader''.
  split; [reflexivity | split; assumption].
Qed.

(** With a visitor that never refuses the inner loop presents every
    event. *)
Lemma visitEvents_all f l txIndex closeTime hash :
  behaviour.neverRefuses f ->
  forall diagEvents eventIndex trace,
    visitEvents f l txIndex closeTime hash eventIndex diagEvents trace
    = (true, trace ++ behaviour.callsFrom l txIndex closeTime hash eventIndex diagEvents).
Proof.
  intros Hf. induction diagEvents as [| event rest IH]; intros eventIndex trace.
  - cbn. rewrite app_nil_r. reflexivity.
  - cbn [visitEvents behaviour.callsFrom]. rewrite Hf, IH, <- app_assoc. reflexivity.
Qed.

(** The outer loop returns no error when the rows resolve. *)
Lemma scanRows_no_error h f rows :
  (forall row, In row rows ->
     behaviour.resolves HashTransactionInEnvelope (passphrase h) (Lcm row) (TxIndex row)) ->
  forall trace, fst (scanRows HashTransactionInEnvelope h f rows trace) = Return None.
Proof.
  induction rows as [| row rows IH]; intros Hres trace; [reflexivity |].
  destruct (Hres row (or_introl eq_refl)) as (tx & diagEvents & Hread & Hdiag).
  destruct (resolves_steps _ _ _ _ Hread) as (reader & reader' & reader'' & Ho & Hs & Hr).
  cbn [scanRows]. rewrite Ho, Hs, Hr, Hdiag.
  destruct (visitEvents f (Lcm row) (TxIndex row) _ _ 0 diagEvents trace) as [[|] trace'];
    [| reflexivity].
  apply IH. intros row' Hin. apply Hres. right. exact Hin.
Qed.

(** With a visitor that never refuses the outer loop replays every row. *)
Lemma scanRows_replay h f rows :
  behaviour.neverRefuses f ->
  (forall row, In row rows ->
     behaviour.resolves HashTransactionInEnvelope (passphrase h) (Lcm row) (TxIndex row)) ->
  forall trace,
    scanRows HashTransactionInEnvelope h f rows trace
    = (Return None,
       trace ++ flat_map (behaviour.callsOfRow HashTransactionInEnvelope (passphrase h)) rows).
Proof.
  intros Hf. induction rows as [| row rows IH]; intros Hres trace.
  - cbn. rewrite app_nil_r. reflexivity.
  - destruct (Hres row (or_introl eq_refl)) as (tx & diagEvents & Hread & Hdiag).
    destruct (resolves_steps _ _ _ _ Hread) as (reader & reader' & reader'' & Ho & Hs & Hr).
    cbn [scanRows flat_map]. rewrite Ho, Hs, Hr, Hdiag.
    rewrite (visitEvents_all f _ _ _ _ Hf).
    rewrite IH by (intros row' Hin; apply Hres; right; exact Hin).
    unfold behaviour.callsOfRow at 2. rewrite Hread, Hdiag, <- app_assoc. reflexivity.
Qed.

Lemma selected_rows_resolve h cursorRange contractIDs s :
  (forall e l,
     In e (events s) ->
     In (ledger_sequence e, l) (ledger_close_meta s) ->
     whereClause cursorRange contractIDs e = true ->
     behaviour.resolves HashTransactionInEnvelope (passphrase h) l (application_order e)) ->
  forall row, In row (queryRows cursorRange contractIDs s) ->
    behaviour.resolves HashTransactionInEnvelope (passphrase h) (Lcm row) (TxIndex row).
Proof.
  intros Hres row Hrow.
  destruct (queryRows_In _ _ _ _ Hrow) as (e & He & Hlcm & Hwhere & Hidx).
  rewrite Hidx. apply (Hres e (Lcm row) He Hlcm Hwhere).
Qed.

(** X13: [GetEvents] reads only: it leaves both tables as they are. And
    it returns no error when the query succeeds and every selected row
    (a row that passes the [WHERE] clause and whose ledger is stored)
    points to a transaction that decodes, whatever the visitor does. *)
Theorem GetEvents_succeeds_when_rows_resolve (h : eventHandler) (cursorRange : CursorRange)
    (contractIDs : list Hash) (f : ScanFunction) (s : Session) :
  let out := GetEvents HashTransactionInEnvelope h cursorRange contractIDs f s in
  (events (snd out) = events s /\ ledger_close_meta (snd out) = ledger_close_meta s)
  /\ (nextFails s = false ->
      (forall e l,
         In e (events s) ->
         In (ledger_sequence e, l) (ledger_close_meta s) ->
         whereClause cursorRange contractIDs e = true ->
         behaviour.resolves HashTransactionInEnvelope (passphrase h) l (application_order e)) ->
      fst (fst out) = Return None).
Proof.
  intros out. subst out. unfold GetEvents, selectRows. split.
  - destruct (nextFails s); [split; reflexivity |].
    destruct (length (queryRows cursorRange contractIDs s) <? 1)%nat; [split; reflexivity |].
    destruct (scanRows _ h f _ []) as [err trace]. split; reflexivity.
  - intros Hok Hres. rewrite Hok.
    destruct (length (queryRows cursorRange contractIDs s) <? 1)%nat; [reflexivity |].
    pose proof (scanRows_no_error h f (queryRows cursorRange contractIDs s)
                  (selected_rows_resolve h _ _ s Hres) []) as Hnone.
    destruct (scanRows _ h f _ []) as [err trace]. exact Hnone.
Qed.

(** X14: with a visitor that never refuses, on a database whose selected
    rows resolve, [GetEvents] calls the visitor with the replay of each
    row of the result set, one row after the other: all the diagnostic
    events of the transaction of the row, at event indexes 0, 1, ... *)
Theorem GetEvents_replays_each_row (h : eventHandler) (cursorRange : CursorRange)
    (contractIDs : list Hash) (f : ScanFunction) (s : Session) :
  behaviour.neverRefuses f ->
  nextFails s = false ->
  (forall e l,
     In e (events s) ->
     In (ledger_sequence e, l) (ledger_close_meta s) ->
     whereClause cursorRange contractIDs e = true ->
     behaviour.resolves HashTransactionInEnvelope (passphrase h) l (application_order e)) ->
  GetEvents HashTransactionInEnvelope h cursorRange contractIDs f s
  = (Return None,
     flat_map (behaviour.callsOfRow HashTransactionInEnvelope (passphrase h))
       (queryRows cursorRange contractIDs s),
     tick s).
Proof.
  intros Hf Hok Hres. unfold GetEvents, selectRows. rewrite Hok.
  destruct (queryRows cursorRange contractIDs s) as [| row rows] eqn:Hrows; [reflexivity |].
  cbn [length Nat.ltb Nat.leb].
  rewrite (scanRows_replay h f (row :: rows) Hf); [reflexivity |].
  rewrite <- Hrows. apply (selected_rows_resolve h _ _ s Hres).
Qed.

End ScanBehaviour.

(** ** From the write path to the read path *)

Section InsertThenScan.
Import xdr db.

Variable HashTransactionInEnvelope : TransactionEnvelope -> string -> option Hash.







End InsertThenScan.

(** ** The further properties on the fixtures *)

Section BehaviourWitnesses.
Import xdr db fixtures.

(** The second statement fails: the rows of the first transaction are in
    the table, those of the second are not. *)
Example InsertEvents_failing_second_statement :
  exists s',
    InsertEvents HashTransactionInEnvelope writer behaviour.twoTransactions
      {| events := []; ledger_close_meta := [(104, behaviour.twoTransactions)];
         io_script := [false; true] |}
    = Some (Return (Some ErrExec), s')
    /\ events s'
       = [ {| ledger_sequence := 104; application_order := 1;
              contract_id := Some contractID; event_type := 1 |};
           {| ledger_sequence := 104; application_order := 1;
              contract_id := Some otherContractID; event_type := 1 |} ].
Proof.
  eexists. split.
  - vm_compute. reflexivity.
  - vm_compute. reflexivity.
Qed.




Lemma GetEvents_stops_at_refusal_witness :
  tl (snd (fst (GetEvents HashTransactionInEnvelope reader
                  {| Start := cursor 103 0 0; End_ := cursor 104 0 0 |} []
                  (fun _ _ _ _ _ => false)
                  {| events := spec.rowsOfLedger (txMetaWithTwoEvents 3);
                     ledger_close_meta := [(103, txMetaWithTwoEvents 3)];
                     io_script := [] |})))
  = [].
Proof.
  destruct (snd (fst (GetEvents HashTransactionInEnvelope reader _ [] _ _)))
    as [| c back] eqn:Htrace; [reflexivity |].
  apply (proj2 (GetEvents_stops_at_refusal HashTransactionInEnvelope reader
                  {| Start := cursor 103 0 0; End_ := cursor 104 0 0 |} []
                  (fun _ _ _ _ _ => false)
                  {| events := spec.rowsOfLedger (txMetaWithTwoEvents 3);
                     ledger_close_meta := [(103, txMetaWithTwoEvents 3)];
                     io_script := [] |}) [] c back).
  - exact Htrace.
  - reflexivity.
Defined.

Lemma GetEvents_nothing_selected_witness :
  let s := {| events := spec.rowsOfLedger (txMetaWithTwoEvents 3);
              ledger_close_meta := [(103, txMetaWithTwoEvents 3)];
              io_script := [] |} in
  let out := GetEvents HashTransactionInEnvelope reader
               {| Start := cursor 104 0 0; End_ := cursor 103 0 0 |} [] visitAll s in
  snd (fst out) = [] /\ fst (fst out) = Return None.
Proof.
  intros s out.
  destruct (GetEvents_nothing_selected HashTransactionInEnvelope reader
              {| Start := cursor 104 0 0; End_ := cursor 103 0 0 |} [] visitAll s)
    as (Hcalls & Hnone & _).
  - intros e _. left. apply whereClause_empty_range. cbn. lia.
  - split; [exact Hcalls | apply Hnone; reflexivity].
Defined.

Lemma fixture_rows_resolve (cursorRange : CursorRange) (contractIDs : list Hash) :
  let s := {| events := spec.rowsOfLedger (txMetaWithTwoEvents 3);
              ledger_close_meta := [(103, txMetaWithTwoEvents 3)];
              io_script := [] |} in
  forall e l,
    In e (events s) ->
    In (ledger_sequence e, l) (ledger_close_meta s) ->
    whereClause cursorRange contractIDs e = true ->
    behaviour.resolves HashTransactionInEnvelope (passphrase reader) l (application_order e).
Proof.
  intros s e l He Hl _. cbn [ledger_close_meta s] in Hl.
  destruct Hl as [Heq | []]. inversion Heq; subst l. clear Heq.
  assert (Horder : application_order e = 1).
  { vm_compute in He. destruct He as [<- | [<- | []]]; reflexivity. }
  rewrite Horder. unfold behaviour.resolves. eexists. eexists. split.
  - vm_compute. reflexivity.
  - vm_compute. reflexivity.
Qed.

Lemma GetEvents_succeeds_when_rows_resolve_witness :
  let s := {| events := spec.rowsOfLedger (txMetaWithTwoEvents 3);
              ledger_close_meta := [(103, txMetaWithTwoEvents 3)];
              io_script := [] |} in
  fst (fst (GetEvents HashTransactionInEnvelope reader
              {| Start := cursor 103 0 0; End_ := cursor 104 0 0 |} [contractID]
              (fun _ _ _ _ _ => false) s))
  = Return None.
Proof.
  intros s.
  apply (proj2 (GetEvents_succeeds_when_rows_resolve HashTransactionInEnvelope reader
                  {| Start := cursor 103 0 0; End_ := cursor 104 0 0 |} [contractID]
                  (fun _ _ _ _ _ => false) s)).
  - reflexivity.
  - apply fixture_rows_resolve.
Defined.

Lemma GetEvents_replays_each_row_witness :
  let s := {| events := spec.rowsOfLedger (txMetaWithTwoEvents 3);
              ledger_close_meta := [(103, txMetaWithTwoEvents 3)];
              io_script := [] |} in
  map call_cursor
    (snd (fst (GetEvents HashTransactionInEnvelope reader
                 {| Start := cursor 103 0 0; End_ := cursor 104 0 0 |} [] visitAll s)))
  = [cursor 103 1 0; cursor 103 1 1; cursor 103 1 0; cursor 103 1 1].
Proof.
  intros s.
  rewrite (GetEvents_replays_each_row HashTransactionInEnvelope reader
             {| Start := cursor 103 0 0; End_ := cursor 104 0 0 |} [] visitAll s).
  - vm_compute. reflexivity.
  - intros history event cur closeTime hash. reflexivity.
  - reflexivity.
  - apply fixture_rows_resolve.
Defined.


End BehaviourWitnesses.

(** ** The ledgers of the test fixtures, indexed *)

Section FixtureLedgers.
Import xdr db fixtures.

(** [InsertEvents] on a readable ledger whose metas have version 3,
    without I/O error. *)
Lemma InsertEvents_succeeds hash (h : eventHandler) (l : LedgerCloseMeta) (s : Session) :
  CountTransactions l < U32.modulus ->
  stmtCache h <> None ->
  spec.readable hash (passphrase h) l ->
  spec.metaVersion3 l ->
  spec.noFaults s ->
  exists s',
    InsertEvents hash h l s = Some (Return None, s')
    /\ events s' = events s ++ spec.rowsOfLedger l.
Proof.
  intros Hcount Hcache (m & Hstore & Hread) Hdec Hio.
  destruct (InsertEvents_outcome hash h l s Hcount)
    as (r & s' & k & Hrun & _ & Hrows & _ & Hdone).
  assert (Hr : r = Return None).
  { revert Hrun. unfold InsertEvents, ingest.NewLedgerTransactionReaderFromLedgerCloseMeta.
    destruct (stmtCache h) as [cache |] eqn:Hc; [| congruence].
    destruct (Z.eqb_spec (CountTransactions l) 0) as [Hz | Hnz]; [congruence |].
    rewrite Hstore.
    destruct (insertLoop_rows h l m cache Hc Hcount (TxProcessing l) []
                (S (Z.to_nat (CountTransactions l))) s eq_refl)
      as (r0 & s0 & Hloop & _ & _ & Hok & _).
    { unfold CountTransactions. rewrite Nat2Z.id. lia. }
    cbn [length] in Hloop. change (Z.of_nat 0) with 0 in Hloop. rewrite Hloop.
    intros Heq. inversion Heq; subst r0 s0. apply (Hok Hread Hio). exact Hdec. }
  subst r. exists s'. split; [exact Hrun |].
  destruct (Hdone eq_refl) as (-> & _). rewrite firstn_all in Hrows. exact Hrows.
Qed.

Lemma fixture_readable (l : LedgerCloseMeta) (acctSeq : Z) meta result :
  TxSet l = [txEnvelope acctSeq] ->
  TxProcessing l
  = [ {| TxResult := {| TransactionHash := txHash acctSeq; Result := result |};
         TxApplyProcessing := meta |} ] ->
  spec.readable HashTransactionInEnvelope "passphrase" l.
Proof.
  intros Hset Htxs. exists [(txHash acctSeq, txEnvelope acctSeq)]. split.
  - rewrite Hset. reflexivity.
  - rewrite Htxs. intros p [<- | []]. cbn [TxResult TransactionHash ingest.lookupEnvelope].
    rewrite String.eqb_refl. discriminate.
Qed.

(** X16: the ledgers that the test builds. For every account sequence
    [acctSeq] (with [acctSeq + 100] a 32-bit number) the ledger
    [txMetaWithEvents acctSeq successful] has sequence [acctSeq + 100] and
    [InsertEvents], on a handler with statement cache and the passphrase
    of the test, indexes it with exactly one row, (acctSeq + 100, 1, the
    contract of the event, the contract event type), when the transaction
    is successful and with no row when it failed; the ledger
    [txMeta acctSeq successful], which has no event, is indexed with no
    row. *)
Theorem InsertEvents_on_test_ledgers (acctSeq : Z) (successful : bool) (h : eventHandler)
    (s : Session) :
  0 <= acctSeq ->
  acctSeq + 100 < U32.modulus ->
  stmtCache h <> None ->
  passphrase h = "passphrase" ->
  spec.noFaults s ->
  (exists s',
     InsertEvents HashTransactionInEnvelope h (txMetaWithEvents acctSeq successful) s
     = Some (Return None, s')
     /\ events s'
        = events s
          ++ (if successful
              then [ {| ledger_sequence := acctSeq + 100;
                        application_order := 1;
                        contract_id := Some contractID;
                        event_type := ContractEventTypeContract |} ]
              else []))
  /\ (exists s',
        InsertEvents HashTransactionInEnvelope h (txMeta acctSeq successful) s
        = Some (Return None, s')
        /\ events s' = events s).
Proof.
  intros Hpos Hmax Hcache Hpass Hio.
  assert (Hseq : U32.add acctSeq 100 = acctSeq + 100)
    by (apply add_no_carry; lia).
  split.
  - destruct (InsertEvents_succeeds HashTransactionInEnvelope h
                (txMetaWithEvents acctSeq successful) s) as (s' & Hrun & Hrows).
    + vm_compute. reflexivity.
    + exact Hcache.
    + rewrite Hpass. eapply fixture_readable; reflexivity.
    + intros p [<- | []]. reflexivity.
    + exact Hio.
    + exists s'. split; [exact Hrun |]. rewrite Hrows. f_equal.
      unfold spec.rowsOfLedger, txMetaWithEvents, txMeta.
      cbn [TxProcessing map spec.rowsFrom]. unfold spec.rowsOfTransaction.
      cbn [TxResult TxApplyProcessing LedgerSequence LedgerSeq].
      rewrite Hseq.
      destruct successful; reflexivity.
  - destruct (InsertEvents_succeeds HashTransactionInEnvelope h
                (txMeta acctSeq successful) s) as (s' & Hrun & Hrows).
    + vm_compute. reflexivity.
    + exact Hcache.
    + rewrite Hpass. eapply fixture_readable; reflexivity.
    + intros p [<- | []]. reflexivity.
    + exact Hio.
    + exists s'. split; [exact Hrun |]. rewrite Hrows.
      unfold spec.rowsOfLedger, txMeta.
      cbn [TxProcessing spec.rowsFrom]. unfold spec.rowsOfTransaction.
      cbn [TxResult TxApplyProcessing].
      destruct successful; cbn; rewrite app_nil_r; reflexivity.
Qed.

Lemma InsertEvents_on_test_ledgers_witness :
  exists s',
    InsertEvents HashTransactionInEnvelope writer (txMetaWithEvents 3 true)
      (ledgerOnly (txMetaWithEvents 3 true)) = Some (Return None, s')
    /\ events s'
       = [ {| ledger_sequence := 103; application_order := 1;
              contract_id := Some contractID; event_type := 1 |} ].
Proof.
  destruct (InsertEvents_on_test_ledgers 3 true writer (ledgerOnly (txMetaWithEvents 3 true)))
    as ((s' & Hrun & Hrows) & _).
  - lia.
  - unfold U32.modulus. lia.
  - discriminate.
  - reflexivity.
  - constructor.
  - exists s'. split; [exact Hrun | exact Hrows].
Defined.

Lemma GetEvents_row_bounds_witness :
  let s := {| events := spec.rowsOfLedger (txMetaWithTwoEvents 3);
              ledger_close_meta := [(103, txMetaWithTwoEvents 3)];
              io_script := [] |} in
  Forall (fun c => Cmp (call_cursor c) (cursor 104 0 0) = -1
                   /\ Cmp (cursor 103 0 0) (call_cursor c) <= 0)
         (snd (fst (GetEvents HashTransactionInEnvelope reader
                      {| Start := cursor 103 0 0; End_ := cursor 104 0 0 |}
                      [contractID] visitAll s))).
Proof.
  intros s.
  eapply List.Forall_impl;
    [| apply (GetEvents_row_bounds HashTransactionInEnvelope reader
                {| Start := cursor 103 0 0; End_ := cursor 104 0 0 |}
                [contractID] visitAll s)].
  - intros c (_ & _ & Hend & Hstart & _). split; [exact Hend | apply Hstart; reflexivity].
  - intros k l [Heq | []]. inversion Heq; subst. reflexivity.
  - intros e He. vm_compute in He. destruct He as [<- | [<- | []]];
      unfold U32.in_range, U32.modulus; cbn; lia.
Defined.

Lemma trimEvents_at_largest_ledger_witness :
  let row n := {| ledger_sequence := n; application_order := 1;
                  contract_id := None; event_type := 1 |} in
  let s := {| events := [row 9; row 10]; ledger_close_meta := []; io_script := [] |} in
  trimEvents writer 4294967295 1 s = (Return None, s).
Proof.
  intros row s.
  apply (trimEvents_at_largest_ledger writer 1 s).
  unfold U32.in_range, U32.modulus. lia.
Defined.

End FixtureLedgers.
